(** * Symbolic-execution core: states, plugins, and the VEX engine

    A shallow embedding of
      - [angr/sim_state.py]            (class [SimState]),
      - [angr/state_plugins/globals.py] (class [SimStateGlobals]),
      - [angr/engines/vex/engine.py]   (class [SimEngineVEX]),
      - [pyvex/lifting/util/instr_helper.py] (class [Instruction]),
      - [cle/backends/blob.py]         (class [Blob]),
    followed by the properties established about them.

    Python objects that are mutated in place are modelled by explicit state
    passing; exceptions by a [result]; dictionaries by [gmap]; sets by
    [gset].  Collaborators whose code lives outside these three files (the
    claripy solver algebra, the concrete plugins, pyvex, the successor
    collector) are interfaces: type classes whose operations the definitions
    call and about which nothing is assumed unless a class states a law. *)

From Stdlib Require Import ZArith Lia Bool Ascii.
From stdpp Require Import gmap strings pretty list fin_maps.

Set Warnings "-register-all".

(* ===================================================================== *)
(** * 1. Exceptions and the state-and-exception monad                     *)
(* ===================================================================== *)

(** The exception classes the three files raise or catch. *)
Inductive exn : Type :=
| ValueError (msg : string)
| KeyError (key : string)
| TypeError (msg : string)
| SimError (msg : string)              (* any other SimError subclass *)
| SimStateError (msg : string)
| SimMergeError (msg : string)
| SimEngineError (msg : string)
| SimIRSBError (msg : string)
| SimSolverError (msg : string)
| SimMemoryAddressError (msg : string)
| SimMemoryError (msg : string)
| SimSegfaultError (addr : Z) (reason : string)
| SimTranslationError (msg : string)
| UnsupportedDirtyError (msg : string)
| AttributeError (msg : string)
| SimReliftException.

(** [isinstance(e, SimError)]: every angr error derives from [SimError]; the
    builtin exceptions do not. *)
Definition is_SimError (e : exn) : bool :=
  match e with
  | ValueError _ | KeyError _ | TypeError _ | AttributeError _ => false
  | _ => true
  end.

Inductive result (A : Type) : Type :=
| Ok (a : A)
| Raise (e : exn).
Arguments Ok {A} a.
Arguments Raise {A} e.

Definition is_Ok {A} (r : result A) : bool :=
  match r with Ok _ => true | Raise _ => false end.

(** A method of a mutable object: it may update the object and either
    returns or raises; the object survives a raise with the updates made so
    far. *)
Definition M (S A : Type) : Type := S → S * result A.

Definition ret {S A} (a : A) : M S A := λ s, (s, Ok a).
Definition raise {S A} (e : exn) : M S A := λ s, (s, Raise e).
Definition bind {S A B} (m : M S A) (k : A → M S B) : M S B :=
  λ s, match m s with
       | (s', Ok a) => k a s'
       | (s', Raise e) => (s', Raise e)
       end.
Definition get {S} : M S S := λ s, (s, Ok s).
Definition put {S} (s : S) : M S unit := λ _, (s, Ok tt).
Definition modify {S} (f : S → S) : M S unit := λ s, (f s, Ok tt).

(** [try: body finally: cleanup] *)
Definition try_finally {S A} (body : M S A) (cleanup : S → S) : M S A :=
  λ s, let '(s', r) := body s in (cleanup s', r).

Notation "'let*' x ':=' m 'in' k" := (bind m (λ x, k))
  (at level 10, x pattern, m at level 200, k at level 200, only parsing).
Notation "m '>>' k" := (bind m (λ _, k))
  (at level 100, k at level 200, right associativity, only parsing).

(** [len(l) > 0], and the truth value of a list *)
Definition nonempty {A} (l : list A) : bool :=
  match l with [] => false | _ => true end.

(** [x is None] *)
Definition is_none {A} (x : option A) : bool :=
  match x with None => true | Some _ => false end.

(** [for x in xs: body x] *)
Fixpoint for_each {S A} (xs : list A) (body : A → M S unit) : M S unit :=
  match xs with
  | [] => ret tt
  | x :: xs' => body x >> for_each xs' body
  end.

(* ===================================================================== *)
(** * 2. The claripy expression algebra                                   *)
(* ===================================================================== *)

Module claripy.

(** Expressions as the three files build them.  Python integers compared
    with a bitvector are converted to a constant of the bitvector's width,
    which is what [BVV] records. *)
Inductive ast : Type :=
| BoolV (b : bool)                    (* claripy.true, claripy.false *)
| BoolS (name : string)               (* a symbolic boolean *)
| BVS (name : string) (size : nat)    (* a symbolic bitvector *)
| BVV (value : Z) (size : nat)        (* a constant bitvector *)
| Eq (lhs rhs : ast)                  (* lhs == rhs *)
| Not (a : ast)
| And (args : list ast)
| Or (args : list ast).

(** [claripy.true] and [claripy.false] *)
Definition ctrue : ast := BoolV true.
Definition cfalse : ast := BoolV false.

(** An assignment of the symbolic variables. *)
Record valuation : Type := {
  bool_of : string → bool;
  bv_of : string → Z;
}.

Definition eval_bv (v : valuation) (e : ast) : option Z :=
  match e with
  | BVS name size => Some (bv_of v name mod 2 ^ Z.of_nat size)%Z
  | BVV value size => Some (value mod 2 ^ Z.of_nat size)%Z
  | _ => None
  end.

(** The truth value of a boolean expression under an assignment; [None]
    for an ill-sorted expression. *)
Fixpoint eval (v : valuation) (e : ast) : option bool :=
  match e with
  | BoolV b => Some b
  | BoolS name => Some (bool_of v name)
  | BVS _ _ | BVV _ _ => None
  | Eq lhs rhs =>
      match eval_bv v lhs, eval_bv v rhs with
      | Some x, Some y => Some (x =? y)%Z
      | _, _ => None
      end
  | Not a => negb <$> eval v a
  | And args =>
      (fix all (l : list ast) : option bool :=
         match l with
         | [] => Some true
         | a :: l' =>
             match eval v a, all l' with
             | Some x, Some y => Some (x && y)
             | _, _ => None
             end
         end) args
  | Or args =>
      (fix any (l : list ast) : option bool :=
         match l with
         | [] => Some false
         | a :: l' =>
             match eval v a, any l' with
             | Some x, Some y => Some (x || y)
             | _, _ => None
             end
         end) args
  end.

End claripy.

Import claripy.

(* ===================================================================== *)
(** * 3. State options ([sim_options], imported as [o])                   *)
(* ===================================================================== *)

Module o.
Definition TRACK_CONSTRAINTS : string := "TRACK_CONSTRAINTS".
Definition SIMPLIFY_CONSTRAINTS : string := "SIMPLIFY_CONSTRAINTS".
Definition TRACK_CONSTRAINT_ACTIONS : string := "TRACK_CONSTRAINT_ACTIONS".
Definition ABSTRACT_SOLVER : string := "ABSTRACT_SOLVER".
Definition SYMBOLIC : string := "SYMBOLIC".
Definition ABSTRACT_MEMORY : string := "ABSTRACT_MEMORY".
Definition FAST_MEMORY : string := "FAST_MEMORY".
Definition FAST_REGISTERS : string := "FAST_REGISTERS".
Definition IGNORE_MERGE_CONDITIONS : string := "IGNORE_MERGE_CONDITIONS".
Definition IGNORE_EXIT_GUARDS : string := "IGNORE_EXIT_GUARDS".
Definition STRICT_PAGE_ACCESS : string := "STRICT_PAGE_ACCESS".
Definition ENABLE_NX : string := "ENABLE_NX".
Definition OPTIMIZE_IR : string := "OPTIMIZE_IR".
Definition SUPER_FASTPATH : string := "SUPER_FASTPATH".
Definition BYPASS_UNSUPPORTED_IRDIRTY : string := "BYPASS_UNSUPPORTED_IRDIRTY".
End o.

(** [opt in options] *)
Definition has_option (opt : string) (options : gset string) : bool :=
  bool_decide (opt ∈ options).

(* ===================================================================== *)
(** * 4. [SimStateGlobals] (state_plugins/globals.py)                     *)
(* ===================================================================== *)

Module SimStateGlobals.
Section Globals.
Context {K : Type} `{Countable K} {V : Type}.

(** The plugin object: its [_backer] dictionary. *)
Record t : Type := Build { backer : gmap K V }.

(** [__init__(backer=None)] *)
Definition init (b : option (gmap K V)) : t :=
  Build (default ∅ b).

Definition getitem (self : t) (k : K) : option V := backer self !! k.
Definition setitem (self : t) (k : K) (v : V) : t := Build (<[k := v]> (backer self)).
Definition delitem (self : t) (k : K) : t := Build (delete k (backer self)).
Definition contains (self : t) (k : K) : bool := bool_decide (is_Some (backer self !! k)).
Definition keys (self : t) : list K := (map_to_list (backer self)).*1.
Definition values (self : t) : list V := (map_to_list (backer self)).*2.
Definition items (self : t) : list (K * V) := map_to_list (backer self).

(** Body of the inner loop of [merge]:
    [if k not in self: self[k] = other[k]].  [other[k]] cannot raise, since
    [k] ranges over [other.keys()]; the unreachable branch leaves [self]
    alone. *)
Definition merge_key (other : t) (self : t) (k : K) : t :=
  if contains self k then self
  else match getitem other k with
       | Some v => setitem self k v
       | None => self
       end.

(** [for k in other.keys(): ...] *)
Definition merge_other (self : t) (other : t) : t :=
  foldl (merge_key other) self (keys other).

(** [merge(self, others, merge_conditions, common_ancestor=None)]: the
    updated receiver and the returned flag. *)
Definition merge (self : t) (others : list t) (merge_conditions : list ast)
    (common_ancestor : option t) : t * bool :=
  (foldl merge_other self others, true).

(** [widen(self, others)] *)
Definition widen (self : t) (others : list t) : t * bool :=
  (self, false).

(** [__delitem__(k)]: [del self._backer[k]]; [None] is the [KeyError] of a
    missing key. *)
Definition __delitem__ (self : t) (k : K) : option t :=
  match backer self !! k with
  | Some _ => Some (Build (delete k (backer self)))
  | None => None
  end.

(** [get(k, alt=None)]: the value, or [alt]; the [None] of the result is
    Python's [None]. *)
Definition get (self : t) (k : K) (alt : option V) : option V :=
  match backer self !! k with
  | Some v => Some v
  | None => alt
  end.

(** [copy()]: a new plugin over a deep copy of the dictionary. *)
Definition copy (self : t) : t := Build (backer self).

End Globals.
Arguments t K {_ _} V.
End SimStateGlobals.

(* ===================================================================== *)
(** * 5. Collaborators of [SimState]                                      *)
(* ===================================================================== *)

(** The plugin contract: what [SimState] calls on any plugin object.  [P]
    is the type of plugin objects. *)
Class StatePlugin (P : Type) : Type := {
  (** [p.__class__], by name *)
  plugin_class : P → string;
  (** [cls()]: a default-constructed plugin of class [cls] *)
  plugin_new : string → P;
  (** [default_plugins[name]()]; [None] is a [KeyError] *)
  default_plugins : string → option P;
  (** [p.set_state(state)] followed by [p.init_state()] *)
  plugin_init_state : P → P;
  (** [p.copy()] *)
  plugin_copy : P → P;
  (** [p.merge(others, merge_conditions, common_ancestor=...)]: the plugin
      after the call and the flag it returns *)
  plugin_merge : P → list P → list ast → option P → P * bool;
  (** [p.widen(others)] *)
  plugin_widen : P → list P → P * bool;
}.

Inductive bp_when : Type := BP_BEFORE | BP_AFTER.

(** Keyword arguments of a breakpoint event. *)
Inductive bp_kwargs : Type :=
| kw_none
| kw_added_constraints (cs : list ast)
| kw_address (a : Z)
| kw_statement (i : nat)
| kw_instruction (a : Z).

(** The methods of particular plugins that [SimState] and the engine call:
    the solver ([state.se]), the inspector, the history, the register file
    and the memory. *)
Class Collaborators (P : Type) : Type := {
  (** [se.add] applied to the constraints: the solver after the call and the
      list it returns *)
  se_add : P → list ast → P * list ast;
  se_simplify : P → ast → ast;
  (** [se.is_false(e)], [se.is_true(e)], [se.symbolic(e)]: decided on the
      expression alone, without the constraints the solver holds *)
  se_is_false : ast → bool;
  se_is_true : ast → bool;
  se_symbolic : ast → bool;
  se_satisfiable : P → list ast → bool;
  (** the converted list of [se.constraint_to_si(arg)] *)
  se_constraint_to_si : P → ast → list (ast * ast);
  se_downsize : P → P;
  (** [claripy.backends.vsa.is_false], [.is_true] *)
  vsa_is_false : ast → bool;
  vsa_is_true : ast → bool;
  (** [bool(e.variables)] *)
  has_variables : ast → bool;
  (** [registers.replace_all(old, new)] *)
  registers_replace_all : P → ast → ast → P;
  (** [for _, region in memory.regions.items():
         region.memory.replace_all(old, new)] *)
  memory_replace_all : P → ast → ast → P;
  (** [inspect.action] on an event *)
  inspect_action : P → string → bp_when → bp_kwargs → P;
  (** [getattr(inspect, "added_constraints")] when the attribute exists *)
  inspect_added_constraints : P → option (list ast);
  (** [history.add_action(SimActionConstraint(state, c))] *)
  history_add_action : P → ast → P;
  (** [history.parent = parent] *)
  history_set_parent : P → P → P;
  (** [o.modes[mode]]; [None] is a [KeyError] *)
  modes : string → option (gset string);
  (** [cls(memory_id=...)] for a memory class [cls]: the default memory
      or register file that [SimState.__init__] constructs *)
  new_memory : string → string → P;
}.

(** [archinfo.Arch]: what the three files read of it. *)
Record Arch : Type := {
  name : string;
  is_ArchARM : bool;       (* isinstance(arch, ArchARM) *)
}.

(* ===================================================================== *)
(** * Python builtins on strings and lists                                *)
(* ===================================================================== *)

Module py.

(** One hexadecimal digit, in lower case. *)
Definition hex_digit (d : N) : Ascii.ascii :=
  match d with
  | 0 => "0" | 1 => "1" | 2 => "2" | 3 => "3" | 4 => "4" | 5 => "5" | 6 => "6"
  | 7 => "7" | 8 => "8" | 9 => "9" | 10 => "a" | 11 => "b" | 12 => "c"
  | 13 => "d" | 14 => "e" | _ => "f"
  end%N%char.

(** The hexadecimal digits of [n] before [acc], most significant first;
    [fuel] bounds the number of digits after the last one. *)
Fixpoint hex_digits (fuel : nat) (n : N) (acc : string) : string :=
  let acc := String (hex_digit (n mod 16)) acc in
  match fuel with
  | O => acc
  | S fuel' => if (n / 16 =? 0)%N then acc else hex_digits fuel' (n / 16)%N acc
  end.

(** ["%x" % x] *)
Definition hex (x : Z) : string :=
  match x with
  | Z0 => "0"
  | Zpos p => hex_digits (Pos.size_nat p) (Npos p) ""
  | Zneg p => String "-"%char (hex_digits (Pos.size_nat p) (Npos p) "")
  end.

(** ["".join(l)] *)
Definition join (l : list string) : string := foldr String.append EmptyString l.

(** [l[start:]] *)
Definition slice_from {A} (start : Z) (l : list A) : list A :=
  if (start <? 0)%Z then drop (Z.to_nat (Z.of_nat (length l) + start)) l
  else drop (Z.to_nat start) l.

(** [s.count(sub)], from a position at which [skip] more characters belong
    to the occurrence just counted: occurrences are counted from the left
    and do not overlap; the empty string occurs once before every character
    and once at the end. *)
Fixpoint count_from (sub : string) (skip : nat) (s : string) : nat :=
  match s with
  | EmptyString =>
      if (skip =? 0) && (String.length sub =? 0) then 1 else 0
  | String _ s' =>
      match skip with
      | S k => count_from sub k s'
      | O =>
          if String.prefix sub s
          then S (count_from sub (String.length sub - 1) s')
          else count_from sub 0 s'
      end
  end.

(** [s.count(sub)] *)
Definition count (s sub : string) : nat := count_from sub 0 s.

End py.

(* ===================================================================== *)
(** * 6. [SimState] (sim_state.py)                                        *)
(* ===================================================================== *)

Module SimState.
Section State.
Context {P : Type} `{!StatePlugin P, !Collaborators P}.

(** The attributes of a state object.  [project], the uuid and the two
    memory-filler callbacks are carried along unread by the methods below
    and left out. *)
Record t : Type := Build {
  arch : Arch;
  options : gset string;
  mode : option string;
  plugins : gmap string P;
  os_name : option string;
  _satisfiable : bool;
  _global_condition : option ast;
  ip_constraints : list ast;
}.

Definition set_options (f : gset string → gset string) (s : t) : t :=
  Build (arch s) (f (options s)) (mode s) (plugins s) (os_name s)
        (_satisfiable s) (_global_condition s) (ip_constraints s).
Definition set_mode_field (m : option string) (s : t) : t :=
  Build (arch s) (options s) m (plugins s) (os_name s)
        (_satisfiable s) (_global_condition s) (ip_constraints s).
Definition set_plugins (f : gmap string P → gmap string P) (s : t) : t :=
  Build (arch s) (options s) (mode s) (f (plugins s)) (os_name s)
        (_satisfiable s) (_global_condition s) (ip_constraints s).
Definition set_satisfiable (b : bool) (s : t) : t :=
  Build (arch s) (options s) (mode s) (plugins s) (os_name s)
        b (_global_condition s) (ip_constraints s).
Definition set_global_condition (c : option ast) (s : t) : t :=
  Build (arch s) (options s) (mode s) (plugins s) (os_name s)
        (_satisfiable s) c (ip_constraints s).
Definition set_ip_constraints (l : list ast) (s : t) : t :=
  Build (arch s) (options s) (mode s) (plugins s) (os_name s)
        (_satisfiable s) (_global_condition s) l.

(** [opt in self.options] *)
Definition option_on (opt : string) : M t bool :=
  λ s, (s, Ok (has_option opt (options s))).

(** ** Plugins *)

Definition has_plugin (name : string) : M t bool :=
  λ s, (s, Ok (bool_decide (is_Some (plugins s !! name)))).

(** [register_plugin(name, plugin)]: binds the plugin to the state, stores
    it and initialises it. *)
Definition register_plugin (name : string) (plugin : P) : M t P :=
  let p := plugin_init_state plugin in
  modify (set_plugins (insert name p)) >> ret p.

Definition get_plugin (name : string) : M t P :=
  let* s := get in
  match plugins s !! name with
  | Some p => ret p
  | None =>
      match default_plugins name with
      | Some p => register_plugin name p
      | None => raise (KeyError name)
      end
  end.

Definition release_plugin (name : string) : M t unit :=
  modify (set_plugins (delete name)).

(** A method call [self.<name>.f(...)] that mutates the plugin object: the
    plugin is fetched with [get_plugin] and the dictionary then holds the
    mutated object. *)
Definition call_plugin (name : string) (f : P → P) : M t unit :=
  let* p := get_plugin name in
  modify (set_plugins (insert name (f p))).

(** [_inspect] of an event *)
Definition _inspect (event : string) (when : bp_when) (kw : bp_kwargs) : M t unit :=
  let* has := has_plugin "inspector" in
  if (has : bool)
  then call_plugin "inspector" (λ i, inspect_action i event when kw)
  else ret tt.

(** [_inspect_getattr("added_constraints", default_value)] *)
Definition _inspect_getattr_added_constraints (default_value : list ast)
  : M t (list ast) :=
  let* has := has_plugin "inspector" in
  if (has : bool)
  then let* i := get_plugin "inspector" in
       ret (default default_value (inspect_added_constraints i))
  else ret default_value.

(** ** Constraint pass-throughs *)

(** [simplify(a)] = [self.se.simplify(a)] *)
Definition simplify (a : ast) : M t ast :=
  let* se := get_plugin "solver_engine" in ret (se_simplify se a).

(** [[ self.simplify(a) for a in args ]] *)
Fixpoint simplify_all (args : list ast) : M t (list ast) :=
  match args with
  | [] => ret []
  | a :: rest =>
      let* a' := simplify a in
      let* rest' := simplify_all rest in
      ret (a' :: rest')
  end.

(** The loop of [add_constraints] under [o.ABSTRACT_SOLVER].  A [return]
    inside the loop ends the method, which has nothing after the loop. *)
Fixpoint add_constraints_abstract (args : list ast) : M t unit :=
  match args with
  | [] => ret tt
  | arg :: rest =>
      let* _ := get_plugin "solver_engine" in
      if se_is_false arg then modify (set_satisfiable false)
      else
        let* _ := get_plugin "solver_engine" in
        if se_is_true arg then add_constraints_abstract rest
        else if vsa_is_false arg then modify (set_satisfiable false)
        else if vsa_is_true arg then add_constraints_abstract rest
        else
          let* se := get_plugin "solver_engine" in
          for_each (se_constraint_to_si se arg) (λ '(original_expr, constrained_si),
            if negb (has_variables original_expr) then ret tt
            else
              call_plugin "registers"
                (λ r, registers_replace_all r original_expr constrained_si) >>
              call_plugin "memory"
                (λ m, memory_replace_all m original_expr constrained_si)) >>
          add_constraints_abstract rest
  end.

(** The loop of [add_constraints] when [o.SYMBOLIC] is not set. *)
Fixpoint add_constraints_nonsymbolic (args : list ast) : M t unit :=
  match args with
  | [] => ret tt
  | arg :: rest =>
      let* _ := get_plugin "solver_engine" in
      if se_is_false arg then modify (set_satisfiable false)
      else add_constraints_nonsymbolic rest
  end.

(** The first half of [add_constraints]: the constraints go to the solver
    when [o.TRACK_CONSTRAINTS] is set, and actions are recorded. *)
Definition add_constraints_track (args : list ast) (action : bool) : M t unit :=
  let* track := option_on o.TRACK_CONSTRAINTS in
  if track && nonempty args then
    let* simp := option_on o.SIMPLIFY_CONSTRAINTS in
    let* constraints := (if (simp : bool) then simplify_all args else ret args) in
    _inspect "constraints" BP_BEFORE (kw_added_constraints constraints) >>
    let* constraints := _inspect_getattr_added_constraints constraints in
    let* se := get_plugin "solver_engine" in
    let '(se', added) := se_add se constraints in
    modify (set_plugins (insert "solver_engine" se')) >>
    _inspect "constraints" BP_AFTER kw_none >>
    let* track_actions := option_on o.TRACK_CONSTRAINT_ACTIONS in
    if (track_actions : bool) then
      for_each added (λ c, call_plugin "history" (λ h, history_add_action h c))
    else ret tt
  else
    let* track_actions := option_on o.TRACK_CONSTRAINT_ACTIONS in
    if action && track_actions && nonempty args then
      for_each args (λ arg,
        let* _ := get_plugin "solver_engine" in
        if se_symbolic arg
        then call_plugin "history" (λ h, history_add_action h arg)
        else ret tt)
    else ret tt.

(** [add_constraints] of the variadic [args]; [action] is
    [kwargs.get('action')].  The arguments are expressions, so the guard
    against a list or tuple passed as first argument never fires. *)
Definition add_constraints (args : list ast) (action : bool) : M t unit :=
  add_constraints_track args action >>
  let* abstract := option_on o.ABSTRACT_SOLVER in
  let* symbolic := option_on o.SYMBOLIC in
  if abstract && nonempty args then add_constraints_abstract args
  else if negb symbolic && nonempty args then add_constraints_nonsymbolic args
  else ret tt.

(** The loop of [satisfiable] over [extra_constraints]: [Some false] is the
    early [return False]. *)
Fixpoint satisfiable_extra (extra_constraints : list ast) : M t (option bool) :=
  match extra_constraints with
  | [] => ret None
  | e :: rest =>
      let* _ := get_plugin "solver_engine" in
      if se_is_false e then ret (Some false) else satisfiable_extra rest
  end.

(** [satisfiable]; [extra_constraints] is
    [kwargs.get('extra_constraints', ())]. *)
Definition satisfiable (extra_constraints : list ast) : M t bool :=
  let* abstract := option_on o.ABSTRACT_SOLVER in
  let* symbolic := option_on o.SYMBOLIC in
  if abstract || negb symbolic then
    let* early := satisfiable_extra extra_constraints in
    match early with
    | Some b => ret b
    | None => λ s, (s, Ok (_satisfiable s))
    end
  else
    let* se := get_plugin "solver_engine" in
    ret (se_satisfiable se extra_constraints).

Definition downsize : M t unit :=
  let* has := has_plugin "solver_engine" in
  if (has : bool) then call_plugin "solver_engine" se_downsize else ret tt.

(** [set_mode(mode)] *)
Definition set_mode (m : string) : M t unit :=
  modify (set_mode_field (Some m)) >>
  match modes m with
  | Some opts => modify (set_options (λ _, opts))
  | None => raise (KeyError m)
  end.

(** ** State branching operations *)

(** [__init__(arch=..., plugins=..., mode=..., options=..., add_options=...,
    remove_options=..., os_name=...)].  Registration of the given plugins
    is independent per name. *)
Definition init (arch_arg : Arch) (plugins_arg : option (gmap string P))
    (mode_arg : option string) (options_arg : option (gset string))
    (add_options remove_options : option (gset string))
    (os_name_arg : option string) : result t :=
  let mode0 :=
    match options_arg, mode_arg with
    | None, None => Some "symbolic"
    | _, _ => mode_arg
    end in
  let options0 :=
    match options_arg with
    | Some opts => Some opts
    | None => mode0 ≫= modes
    end in
  match options0 with
  | None => Raise (KeyError (default "" mode0))
  | Some opts =>
      let opts := opts ∪ default ∅ add_options in
      let opts := opts ∖ default ∅ remove_options in
      let pl := plugin_init_state <$> default ∅ plugins_arg in
      let pl :=
        if bool_decide (is_Some (pl !! "memory")) then pl
        else if has_option o.ABSTRACT_MEMORY opts
             then <["memory" := plugin_init_state (new_memory "SimAbstractMemory" "mem")]> pl
        else if has_option o.FAST_MEMORY opts
             then <["memory" := plugin_init_state (new_memory "SimFastMemory" "mem")]> pl
        else <["memory" := plugin_init_state (new_memory "SimSymbolicMemory" "mem")]> pl in
      let pl :=
        if bool_decide (is_Some (pl !! "registers")) then pl
        else if has_option o.FAST_REGISTERS opts
             then <["registers" := plugin_init_state (new_memory "SimFastMemory" "reg")]> pl
        else <["registers" := plugin_init_state (new_memory "SimSymbolicMemory" "reg")]> pl in
      Ok (Build arch_arg opts mode0 pl os_name_arg true None [])
  end.

(** [_copy_plugins()] *)
Definition _copy_plugins (self : t) : gmap string P :=
  plugin_copy <$> plugins self.

(** [copy()] *)
Definition copy (self : t) : result t :=
  match _global_condition self with
  | Some _ =>
      Raise (SimStateError "global condition was not cleared before state.copy().")
  | None =>
      let c_plugins := _copy_plugins self in
      match init (arch self) (Some c_plugins) (mode self)
                 (Some (options self)) None None (os_name self) with
      | Ok state => Ok (set_ip_constraints (ip_constraints self) state)
      | Raise e => Raise e
      end
  end.

(** The branch conditions of [merge].  With no conditions given (or with
    [o.IGNORE_MERGE_CONDITIONS] set) a discriminant named after the next
    value of the module-level [merge_counter] is made and compared with
    each of [range(len(others)+1)]; the result carries the counter after
    the call. *)
Definition state_merge_name (counter : nat) : string :=
  "state_merge_" +:+ pretty counter.

Fixpoint explicit_conditions (merge_conditions : list (list ast)) : M t (list ast) :=
  match merge_conditions with
  | [] => ret []
  | mc :: rest =>
      let* _ := get_plugin "solver_engine" in
      let c := if bool_decide (length mc = 0) then ctrue else And mc in
      let* cs := explicit_conditions rest in
      ret (c :: cs)
  end.

Definition merge_branch_conditions (merge_counter : nat) (others : list t)
    (merge_conditions : option (list (list ast))) : M t (nat * list ast) :=
  let* ignore := option_on o.IGNORE_MERGE_CONDITIONS in
  match merge_conditions, (ignore : bool) with
  | Some mcs, false =>
      let* cs := explicit_conditions mcs in ret (merge_counter, cs)
  | _, _ =>
      let* _ := get_plugin "solver_engine" in
      let merge_flag := BVS (state_merge_name merge_counter) 16 in
      let merge_values := seq 0 (length others + 1) in
      ret (S merge_counter,
           (λ b, Eq merge_flag (BVV (Z.of_nat b) 16)) <$> merge_values)
  end.

(** [len(set(o.arch.name for o in others)) != 1] *)
Definition architectures_differ (others : list t) : bool :=
  negb (size (list_to_set ((λ o, name (arch o)) <$> others) : gset string) =? 1).

(** [set(self.plugins.keys()) | set.union of the others' key sets];
    [set.union] applied to no argument is a [TypeError]. *)
Definition all_plugin_names (self : t) (others : list t) : result (gset string) :=
  match others with
  | [] => Raise (TypeError "descriptor 'union' of 'set' object needs an argument")
  | _ => Ok (dom (plugins self) ∪ ⋃ ((λ o, dom (plugins o)) <$> others))
  end.

(** One round of the plugin loop of [merge], run on [merged]; returns
    [plugin_state_merged].  A plugin missing from one of the [others] is
    default-constructed and registered there; that registration is not
    read again by [merge] and is not returned. *)
Definition merge_plugin (others : list t) (merge_conditions : list ast)
    (common_ancestor : option t) (p : string) : M t bool :=
  let* merged := get in
  let our_plugin := plugins merged !! p in
  let their_plugins := (λ pl, plugins pl !! p) <$> others in
  let plugin_classes : gset string :=
    list_to_set (plugin_class <$> omap id (our_plugin :: their_plugins)) in
  match elements plugin_classes with
  | [cls] =>
      let* our_filled_plugin :=
        match our_plugin with
        | Some pl => ret pl
        | None => register_plugin p (plugin_new cls)
        end in
      let their_filled_plugins :=
        (λ tp, default (plugin_init_state (plugin_new cls)) tp) <$> their_plugins in
      let '(ours, plugin_state_merged) :=
        plugin_merge our_filled_plugin their_filled_plugins merge_conditions
          (common_ancestor ≫= λ ca, plugins ca !! p) in
      modify (set_plugins (insert p ours)) >> ret plugin_state_merged
  | _ => raise (SimMergeError "There are differing plugin classes")
  end.

Fixpoint merge_plugins (all_plugins : list string) (others : list t)
    (merge_conditions : list ast) (common_ancestor : option t)
    (merging_occurred : bool) : M t bool :=
  match all_plugins with
  | [] => ret merging_occurred
  | p :: rest =>
      let* plugin_state_merged := merge_plugin others merge_conditions common_ancestor p in
      merge_plugins rest others merge_conditions common_ancestor
        (if (plugin_state_merged : bool) then true else merging_occurred)
  end.

(** What [merge] does with the copy once the conditions are known: fix the
    history parent, merge the plugins, add the disjunction. *)
Definition merge_into (self_history : P) (all_plugins : list string) (others : list t)
    (merge_conditions : list ast) (common_ancestor : option t) : M t bool :=
  call_plugin "history" (λ h, history_set_parent h self_history) >>
  let* merging_occurred :=
    merge_plugins all_plugins others merge_conditions common_ancestor false in
  let* _ := get_plugin "solver_engine" in
  add_constraints [Or merge_conditions] false >>
  ret merging_occurred.

(** [merge] of [others], with keywords [merge_conditions], [common_ancestor]
    and [plugin_whitelist]; [kwargs] holds the names of any other keyword
    given.  The method runs on the receiver [self] (which it may
    update by creating plugins on demand) and returns the merged state, the
    branch conditions and the flag.  The debugger breakpoint before the
    architecture error is not modelled. *)
Definition merge_body (merge_counter : nat) (others : list t)
    (merge_conditions : option (list (list ast))) (common_ancestor : option t)
    (plugin_whitelist : option (list string)) (kwargs : list string)
  : M t (nat * (t * list ast * bool)) :=
  if nonempty kwargs then raise (ValueError "invalid arguments")
  else
    let* (counter, conditions) :=
      merge_branch_conditions merge_counter others merge_conditions in
    if architectures_differ others
    then raise (SimMergeError "Unable to merge due to different architectures.")
    else
      let* self0 := get in
      match all_plugin_names self0 others with
      | Raise e => raise e
      | Ok names =>
          let all_plugins :=
            match plugin_whitelist with
            | Some wl => names ∩ list_to_set wl
            | None => names
            end in
          match copy self0 with
          | Raise e => raise e
          | Ok merged =>
              let* self_history := get_plugin "history" in
              match merge_into self_history (elements all_plugins) others
                      conditions common_ancestor merged with
              | (_, Raise e) => raise e
              | (merged', Ok merging_occurred) =>
                  ret (counter, (merged', conditions, merging_occurred))
              end
          end
      end.

(** The value of [merge_counter] after the call: it advances exactly when
    a discriminant was made, whatever happens later in the call. *)
Definition merge_counter_after (merge_counter : nat) (others : list t)
    (merge_conditions : option (list (list ast))) (kwargs : list string) (self : t) : nat :=
  if nonempty kwargs then merge_counter
  else match merge_branch_conditions merge_counter others merge_conditions self with
       | (_, Ok (counter, _)) => counter
       | (_, Raise _) => merge_counter
       end.

Definition merge (merge_counter : nat) (self : t) (others : list t)
    (merge_conditions : option (list (list ast))) (common_ancestor : option t)
    (plugin_whitelist : option (list string)) (kwargs : list string)
  : nat * t * result (t * list ast * bool) :=
  let '(self', r) :=
    merge_body merge_counter others merge_conditions common_ancestor
      plugin_whitelist kwargs self in
  (merge_counter_after merge_counter others merge_conditions kwargs self, self',
   match r with
   | Ok (_, out) => Ok out
   | Raise e => Raise e
   end).

(** The local variables of [widen] while its plugin loop runs, and the
    calls of a plugin's [widen] made so far (name and returned flag), kept
    to state which plugins the loop calls. *)
Record widen_frame : Type := WidenFrame {
  widened : t;
  widening_occurred : bool;
  widen_calls : list (string * bool);
}.

(** [[_.plugins[p] for _ in others]]; [None] is a [KeyError]. *)
Definition plugins_named (p : string) (others : list t) : option (list P) :=
  mapM (λ other, plugins other !! p) others.

(** Body of the plugin loop of [widen]. *)
Definition widen_plugin (others : list t) (p : string) : M widen_frame unit :=
  if bool_decide (p ∈ ["solver_engine"; "unicorn"]) then ret tt
  else
    let* fr := get in
    match plugins (widened fr) !! p, plugins_named p others with
    | Some ours, Some theirs =>
        let '(ours', plugin_state_widened) := plugin_widen ours theirs in
        put (WidenFrame
               (set_plugins (insert p ours') (widened fr))
               (if plugin_state_widened then true else widening_occurred fr)
               (widen_calls fr ++ [(p, plugin_state_widened)]))
    | _, _ => raise (KeyError p)
    end.

(** [len(set(frozenset(o.plugins.keys()) for o in others)) != 1] *)
Definition plugin_sets_differ (others : list t) : bool :=
  negb (size (list_to_set ((λ o, dom (plugins o)) <$> others) : gset (gset string)) =? 1).

(** [widen] of [others], together with the calls of plugin [widen] methods it
    made. *)
Definition widen_traced (self : t) (others : list t)
  : list (string * bool) * result (t * bool) :=
  if plugin_sets_differ others
  then ([], Raise (SimMergeError "Unable to widen due to different sets of plugins."))
  else if architectures_differ others
  then ([], Raise (SimMergeError "Unable to widen due to different architectures."))
  else
    match copy self with
    | Raise e => ([], Raise e)
    | Ok w =>
        let '(fr, r) :=
          for_each (map_to_list (plugins self)).*1 (widen_plugin others)
                   (WidenFrame w false []) in
        (widen_calls fr,
         match r with
         | Ok _ => Ok (widened fr, widening_occurred fr)
         | Raise e => Raise e
         end)
    end.

Definition widen (self : t) (others : list t) : result (t * bool) :=
  (widen_traced self others).2.

(** ** The global condition *)

(** [with self.with_condition(c): body].  The context manager is a
    generator whose [yield] stands inside [try: ... finally:]; an exception
    of the body is thrown at the [yield], so the [finally] clause runs on
    every way out. *)
Definition with_condition {A} (c : ast) (body : M t A) : M t A :=
  λ self,
    let old_condition := _global_condition self in
    try_finally
      (let* new_condition :=
         match old_condition with
         | None => ret c
         | Some old => let* _ := get_plugin "solver_engine" in ret (And [old; c])
         end in
       modify (set_global_condition (Some new_condition)) >>
       body)
      (set_global_condition old_condition)
      self.

(** [_adjust_condition(c)] *)
Definition _adjust_condition (c : option ast) : M t (option ast) :=
  let* self := get in
  match _global_condition self, c with
  | None, _ => ret c
  | Some g, None => ret (Some g)
  | Some g, Some c' => let* _ := get_plugin "solver_engine" in ret (Some (And [g; c']))
  end.

(** ** Client programs

    A caller's use of one state object: a sequence of method calls, each of
    which returns or raises; the caller may catch the exception and go on
    with the same object. *)
Inductive operation : Type :=
| op_add_constraints (args : list ast) (action : bool)
| op_satisfiable (extra_constraints : list ast)
| op_get_plugin (name : string)
| op_register_plugin (name : string) (plugin : P)
| op_release_plugin (name : string)
| op_simplify (a : ast)
| op_downsize
| op_set_mode (m : string)
| op_copy
| op_merge (merge_counter : nat) (others : list t)
    (merge_conditions : option (list (list ast))) (common_ancestor : option t)
    (plugin_whitelist : option (list string)) (kwargs : list string)
| op_widen (others : list t)
| op_with_condition (c : ast) (body : list operation).

Definition discard {A} (m : M t A) : M t unit := let* _ := m in ret tt.

(** The effect of one call on the receiver. *)
Fixpoint run (op : operation) : M t unit :=
  match op with
  | op_add_constraints args action => add_constraints args action
  | op_satisfiable extra => discard (satisfiable extra)
  | op_get_plugin name => discard (get_plugin name)
  | op_register_plugin name plugin => discard (register_plugin name plugin)
  | op_release_plugin name => release_plugin name
  | op_simplify a => discard (simplify a)
  | op_downsize => downsize
  | op_set_mode m => set_mode m
  | op_copy => λ self, (self, match copy self with Ok _ => Ok tt | Raise e => Raise e end)
  | op_merge merge_counter others mcs ca wl kwargs =>
      discard (merge_body merge_counter others mcs ca wl kwargs)
  | op_widen others =>
      λ self, (self, match widen self others with Ok _ => Ok tt | Raise e => Raise e end)
  | op_with_condition c body =>
      with_condition c
        ((fix run_block (ops : list operation) : M t unit :=
            match ops with
            | [] => ret tt
            | op' :: rest => run op' >> run_block rest
            end) body)
  end.

(** The object after a sequence of calls, exceptions caught in between. *)
Definition run_all (ops : list operation) (self : t) : t :=
  foldl (λ s op, (run op s).1) self ops.

(** ** Further methods *)

(** [__getattr__(v)], which Python calls for a name that is no attribute of
    the object: the plugin of that name. *)
Definition __getattr__ (v : string) : M t P :=
  λ self, match get_plugin v self with
          | (self', Raise (KeyError _)) => (self', Raise (AttributeError v))
          | r => r
          end.

(** [_adjust_condition_list(conditions)]; the result is of the class of
    [conditions]. *)
Definition _adjust_condition_list (conditions : list ast) : M t (list ast) :=
  let* self := get in
  match _global_condition self with
  | None => ret conditions
  | Some g =>
      if bool_decide (length conditions = 0) then ret [g]
      else
        let* _ := get_plugin "solver_engine" in
        let* c := _adjust_condition (Some (And conditions)) in
        ret (option_list c)
  end.

(** [detect_loops(n=3)], given [self.history.bbl_addrs]. *)
Definition detect_loops (bbl_addrs : list Z) (n : Z) : Z :=
  let addr_strs := py.hex <$> bbl_addrs in
  if (Z.of_nat (length addr_strs) <? n)%Z then 0%Z
  else
    let bigstr := py.join addr_strs in
    let c := py.join (py.slice_from (- n - 0) addr_strs) in
    (Z.of_nat (py.count bigstr c) - 1)%Z.

End State.
Arguments t P : clear implicits.
End SimState.

(* ===================================================================== *)
(** * 7. Collaborators of the engine                                      *)
(* ===================================================================== *)

(** ** pyvex: statements and blocks *)

Inductive IRExpr : Type :=
| RdTmp (tmp : nat)
| Const (value : Z)
| OtherExpr (tag : string).

Inductive IRStmt : Type :=
| IMark (addr : Z) (len : nat) (delta : Z)
| Exit (guard : IRExpr) (dst : Z) (jk : string)
| Dirty (tmp : Z) (cee_name : string)
| OtherStmt (tag : string).

Definition is_IMark (stmt : IRStmt) : bool :=
  match stmt with IMark _ _ _ => true | _ => false end.

Module IRSB.
(** A lifted block.  [id] is the identity of the Python object: two blocks
    are the same instance exactly when their [id]s agree. *)
Record t : Type := Build {
  id : nat;
  statements : list IRStmt;
  size : Z;
  next : IRExpr;
  jumpkind : string;
  direct_next : bool;
}.
Definition with_id (n : nat) (b : t) : t :=
  Build n (statements b) (size b) (next b) (jumpkind b) (direct_next b).
End IRSB.

(** The translated form of a statement ([SimIRStmt]): what the engine reads
    of it. *)
Record SimIRStmt : Type := {
  stmt_guard : ast;
  stmt_target : ast;
  stmt_jumpkind : string;
  stmt_actions : list ast;
}.

(** ** cachetools: [LRUCache]

    Entries are kept least recently used first.  Every entry has size 1. *)
Module LRUCache.
Section Cache.
Context {K : Type} `{EqDecision K} {V : Type}.

Record t : Type := Build {
  maxsize : nat;
  entries : list (K * V);
}.

(** [LRUCache(maxsize=n)] *)
Definition new (n : nat) : t := Build n [].

Fixpoint assoc (k : K) (l : list (K * V)) : option V :=
  match l with
  | [] => None
  | (k', v) :: l' => if decide (k' = k) then Some v else assoc k l'
  end.

Definition without (k : K) (l : list (K * V)) : list (K * V) :=
  filter (λ kv, kv.1 ≠ k) l.

(** [k in cache]: no effect on the order *)
Definition contains (k : K) (c : t) : bool :=
  bool_decide (is_Some (assoc k (entries c))).

(** [cache[k]]: the value, and the cache with [k] now most recently used;
    [None] is a [KeyError] *)
Definition getitem (k : K) (c : t) : option (V * t) :=
  match assoc k (entries c) with
  | Some v => Some (v, Build (maxsize c) (without k (entries c) ++ [(k, v)]))
  | None => None
  end.

(** [cache[k] = v]: a value larger than the cache is refused; a new key
    first evicts least recently used entries until there is room. *)
Definition setitem (k : K) (v : V) (c : t) : result t :=
  if bool_decide (maxsize c < 1) then Raise (ValueError "value too large")
  else if contains k c
  then Ok (Build (maxsize c) (without k (entries c) ++ [(k, v)]))
  else Ok (Build (maxsize c)
             (drop (length (entries c) + 1 - maxsize c) (entries c) ++ [(k, v)])).

End Cache.
Arguments t K V : clear implicits.
End LRUCache.

(** ** What the engine calls outside its file *)

(** The scratch plugin ([state.scratch]): the attributes the engine reads
    and writes. *)
Record SimStateScratch : Type := {
  guard : ast;
  ins_addr : Z;
  stmt_idx : nat;
  num_insns : Z;
  dirty_addrs : gset Z;
  sim_procedure : option string;
  scratch_irsb : option nat;        (* the block being run, by identity *)
}.

Definition set_guard (g : ast) (sc : SimStateScratch) : SimStateScratch :=
  Build_SimStateScratch g (ins_addr sc) (stmt_idx sc) (num_insns sc)
    (dirty_addrs sc) (sim_procedure sc) (scratch_irsb sc).
Definition set_ins_addr (a : Z) (sc : SimStateScratch) : SimStateScratch :=
  Build_SimStateScratch (guard sc) a (stmt_idx sc) (num_insns sc)
    (dirty_addrs sc) (sim_procedure sc) (scratch_irsb sc).
Definition set_stmt_idx (i : nat) (sc : SimStateScratch) : SimStateScratch :=
  Build_SimStateScratch (guard sc) (ins_addr sc) i (num_insns sc)
    (dirty_addrs sc) (sim_procedure sc) (scratch_irsb sc).
Definition set_num_insns (n : Z) (sc : SimStateScratch) : SimStateScratch :=
  Build_SimStateScratch (guard sc) (ins_addr sc) (stmt_idx sc) n
    (dirty_addrs sc) (sim_procedure sc) (scratch_irsb sc).
Definition set_dirty_addrs (d : gset Z) (sc : SimStateScratch) : SimStateScratch :=
  Build_SimStateScratch (guard sc) (ins_addr sc) (stmt_idx sc) (num_insns sc)
    d (sim_procedure sc) (scratch_irsb sc).
Definition set_sim_procedure (p : option string) (sc : SimStateScratch) : SimStateScratch :=
  Build_SimStateScratch (guard sc) (ins_addr sc) (stmt_idx sc) (num_insns sc)
    (dirty_addrs sc) p (scratch_irsb sc).
Definition set_scratch_irsb (b : option nat) (sc : SimStateScratch) : SimStateScratch :=
  Build_SimStateScratch (guard sc) (ins_addr sc) (stmt_idx sc) (num_insns sc)
    (dirty_addrs sc) (sim_procedure sc) b.

(** A plugin object that can serve as [state.scratch]: its attributes can
    be read and assigned, and reading gives what was assigned. *)
Class ScratchPlugin (P : Type) : Type := {
  scratch_get : P → SimStateScratch;
  scratch_set : SimStateScratch → P → P;
  scratch_get_set : ∀ sc p, scratch_get (scratch_set sc p) = sc;
}.

(** The index under which an exit is recorded: a statement index or
    ['default']. *)
Inductive exit_index : Type :=
| exit_at (i : nat)
| exit_default.

(** The memory image, pyvex, the statement translator and the successor
    collector.  [C] is the type of memory images ([cle] memory objects), [Q]
    the type of [SimSuccessors] objects. *)
Class EngineCollaborators (P C Q : Type) : Type := {
  (** [clemory._arch] *)
  clemory_arch : C → Arch;
  (** [clemory.read_bytes_c(addr)]; [None] is a [KeyError] *)
  clemory_read_bytes_c : C → Z → option (string * Z);
  (** the [_memory_backer] of the state's memory (of its global region
      under [o.ABSTRACT_MEMORY]) *)
  state_memory_backer : SimState.t P → C;
  (** [state.memory.permissions(addr)]: [Ok None] for symbolic
      permissions, [Ok (Some p)] for the concrete value [p] *)
  memory_permissions : SimState.t P → Z → result (option Z);
  (** [addr in state.memory] *)
  memory_contains : SimState.t P → Z → bool;
  (** [state.se.any_str(state.memory.load(addr, n, inspect=False))] *)
  memory_load_str : SimState.t P → Z → Z → string;
  (** [chr(state.se.any_int(state.memory.load(addr, 1, inspect=False)))] *)
  memory_load_chr : SimState.t P → Z → Ascii.ascii;
  (** [state.se.any_int(state._ip)] *)
  concrete_ip : SimState.t P → Z;
  (** [pyvex.IRSB(buff, addr, arch, num_bytes=..., num_inst=...,
      bytes_offset=..., traceflags=..., opt_level=...)]; [None] is a
      [PyVEXError] *)
  pyvex_IRSB : string → Z → Arch → Z → option Z → Z → Z → Z → option IRSB.t;
  (** [translate_stmt(stmt, state)]: the state after the statement's
      effect and the translated statement, or the exception raised *)
  translate_stmt : IRStmt → SimState.t P → SimState.t P * result (option SimIRStmt);
  (** [successors.add_successor(state, target, guard, jumpkind,
      exit_stmt_idx=..., exit_ins_addr=...)] *)
  add_successor : Q → SimState.t P → ast → ast → string → exit_index → Z → Q;
  (** the address a [SimSuccessors] object was made for *)
  successors_addr : Q → Z;
  (** [history.extend_actions(actions)] *)
  history_extend_actions : P → list ast → P;
  (** [history.recent_ins_addrs.append(addr)] *)
  history_append_ins_addr : P → Z → P;
  (** [history.recent_block_count = n] *)
  history_set_recent_block_count : P → nat → P;
  (** [history.add_event('resilience', ...)] for an unsupported dirty call *)
  history_add_resilience_event : P → string → P;
  (** [scratch.store_tmp(tmp, Unconstrained("unsupported_dirty_" + name,
      tyenv.sizeof(tmp)), None, None)] *)
  scratch_store_unconstrained_tmp : P → Z → string → P;
  (** everything [_handle_irsb] does after its statement loop: the
      default exit when [has_default_exit], return emulation and the
      call-less redirection over the recorded successors, and the fallback
      successor of an emptied whitelist; given the instruction addresses
      collected by the loop *)
  finish_irsb : IRSB.t → bool → option (list nat) → list Z →
                SimState.t P → Q → SimState.t P * Q * result unit;
  (** [successors.sort = successors.description = 'IRSB'] *)
  successors_set_sort : Q → string → Q;
  (** [successors.artifacts[...] = ...] for the four block artifacts *)
  successors_set_artifacts : Q → IRSB.t → Q;
  (** [successors.processed = True] *)
  successors_set_processed : Q → Q;
}.

(* ===================================================================== *)
(** * 8. [SimEngineVEX] (engines/vex/engine.py)                           *)
(* ===================================================================== *)

Definition VEX_IRSB_MAX_SIZE : Z := 400.
Definition VEX_IRSB_MAX_INST : Z := 99.

Module SimEngineVEX.
Section Engine.
Context {P C Q : Type}.
Context `{!StatePlugin P, !Collaborators P, !ScratchPlugin P, !EngineCollaborators P C Q}.

(** [(addr, insn_bytes, size, num_inst, thumb, opt_level)] *)
Definition cache_key : Type := Z * option string * Z * option Z * Z * Z.

(** The attributes of an engine object.  [objects] counts the blocks
    constructed so far and names the next one. *)
Record t : Type := Build {
  _stop_points : option (gset Z);
  _use_cache : bool;
  _default_opt_level : Z;
  _support_selfmodifying_code : bool;
  _single_step : bool;
  _cache_size : nat;
  _block_cache : LRUCache.t cache_key IRSB.t;
  _cache_hit_count : nat;
  _cache_miss_count : nat;
  objects : nat;
}.

Definition set_single_step (b : bool) (e : t) : t :=
  Build (_stop_points e) (_use_cache e) (_default_opt_level e)
    (_support_selfmodifying_code e) b (_cache_size e) (_block_cache e)
    (_cache_hit_count e) (_cache_miss_count e) (objects e).
Definition set_block_cache (c : LRUCache.t cache_key IRSB.t) (e : t) : t :=
  Build (_stop_points e) (_use_cache e) (_default_opt_level e)
    (_support_selfmodifying_code e) (_single_step e) (_cache_size e) c
    (_cache_hit_count e) (_cache_miss_count e) (objects e).
Definition count_hit (e : t) : t :=
  Build (_stop_points e) (_use_cache e) (_default_opt_level e)
    (_support_selfmodifying_code e) (_single_step e) (_cache_size e) (_block_cache e)
    (S (_cache_hit_count e)) (_cache_miss_count e) (objects e).
Definition count_miss (e : t) : t :=
  Build (_stop_points e) (_use_cache e) (_default_opt_level e)
    (_support_selfmodifying_code e) (_single_step e) (_cache_size e) (_block_cache e)
    (_cache_hit_count e) (S (_cache_miss_count e)) (objects e).
Definition count_object (e : t) : t :=
  Build (_stop_points e) (_use_cache e) (_default_opt_level e)
    (_support_selfmodifying_code e) (_single_step e) (_cache_size e) (_block_cache e)
    (_cache_hit_count e) (_cache_miss_count e) (S (objects e)).

(** [__init__(stop_points=None, use_cache=True, cache_size=10000,
    default_opt_level=1, support_selfmodifying_code=False,
    single_step=False)] *)
Definition init (stop_points : option (gset Z)) (use_cache : bool) (cache_size : nat)
    (default_opt_level : Z) (support_selfmodifying_code single_step : bool) : t :=
  Build stop_points use_cache default_opt_level support_selfmodifying_code
    single_step cache_size (LRUCache.new cache_size) 0 0 0.

(** [clear_cache()] *)
Definition clear_cache (e : t) : t :=
  Build (_stop_points e) (_use_cache e) (_default_opt_level e)
    (_support_selfmodifying_code e) (_single_step e) (_cache_size e)
    (LRUCache.new (_cache_size e)) 0 0 (objects e).

(** The objects a call works on: the engine, the state handed in (if any)
    and the successors object. *)
Record world : Type := World {
  engine : t;
  state : option (SimState.t P);
  successors : Q;
}.

Definition on_engine (f : t → t) : M world unit :=
  modify (λ w, World (f (engine w)) (state w) (successors w)).
Definition on_successors (f : Q → Q) : M world unit :=
  modify (λ w, World (engine w) (state w) (f (successors w))).
Definition put_state (s : SimState.t P) : M world unit :=
  modify (λ w, World (engine w) (Some s) (successors w)).

(** A method of the state, called on the state of the world. *)
Definition on_state {A} (m : M (SimState.t P) A) : M world A :=
  λ w, match state w with
       | Some s => let '(s', r) := m s in (World (engine w) (Some s') (successors w), r)
       | None => (w, Raise (AttributeError "'NoneType' object has no attribute"))
       end.

(** ** Lifting *)

(** [_first_stoppoint(irsb)] *)
Fixpoint first_stoppoint_from (stop_points : gset Z) (first_imark : bool)
    (stmts : list IRStmt) : option Z :=
  match stmts with
  | [] => None
  | IMark addr _ delta :: rest =>
      if negb first_imark && bool_decide (addr + delta ∈ stop_points)%Z
      then Some (addr + delta)%Z
      else first_stoppoint_from stop_points false rest
  | _ :: rest => first_stoppoint_from stop_points first_imark rest
  end.

Definition _first_stoppoint (e : t) (irsb : IRSB.t) : option Z :=
  match _stop_points e with
  | None => None
  | Some stop_points => first_stoppoint_from stop_points true (IRSB.statements irsb)
  end.

(** [len(s)] *)
Definition len (s : string) : Z := Z.of_nat (String.length s).

(** The loop of [_load_bytes] that collects the readable addresses from
    [addr] on, stopping at the first unreadable one. *)
Fixpoint good_addrs (s : SimState.t P) (addr : Z) (n : nat) : list Z :=
  match n with
  | O => []
  | S n' => if memory_contains s addr then addr :: good_addrs s (addr + 1)%Z n' else []
  end.

(** [''.join(chr(...) for i in good_addrs)] *)
Definition join_chrs (s : SimState.t P) (addrs : list Z) : string :=
  foldr (λ a rest, String (memory_load_chr s a) rest) EmptyString addrs.

(** [_load_bytes(addr, max_size, state, clemory)] *)
Definition _load_bytes (e : t) (addr max_size : Z) (state : option (SimState.t P))
    (clemory : option C) : result (string * Z) :=
  match (match clemory, state with
         | Some c, _ => Ok c
         | None, None =>
             Raise (SimEngineError "state and clemory cannot both be None in _load_bytes().")
         | None, Some s => Ok (state_memory_backer s)
         end) with
  | Raise x => Raise x
  | Ok clemory =>
      let smc :=
        match state with
        | None => _support_selfmodifying_code e
        | Some s =>
            match memory_permissions s addr with
            | Ok None => true
            | Ok (Some p) => Z.testbit p 1
            | Raise _ => true
            end
        end in
      let '(buff, size) :=
        if negb smc || is_none state
        then default (EmptyString, 0%Z) (clemory_read_bytes_c clemory addr)
        else (EmptyString, 0%Z) in
      let '(buff, size) :=
        match state with
        | Some s =>
            if (size =? 0)%Z then
              if memory_contains s addr && memory_contains s (addr + max_size - 1)%Z
              then (memory_load_str s addr max_size, max_size)
              else
                let buff := join_chrs s (good_addrs s addr (Z.to_nat max_size)) in
                (buff, len buff)
            else (buff, size)
        | None => (buff, size)
        end in
      Ok (buff, Z.min max_size size)
  end.

(** Phase 1 of [lift]: the size and instruction caps in force. *)
Definition effective_size (size : option Z) : Z :=
  match size with
  | Some n => Z.min n VEX_IRSB_MAX_SIZE
  | None => VEX_IRSB_MAX_SIZE
  end.

Definition effective_num_inst (single_step : bool) (num_inst : option Z) : option Z :=
  match num_inst with
  | Some n => Some (Z.min n VEX_IRSB_MAX_INST)
  | None => if single_step then Some 1%Z else None
  end.

(** The truth value of a string or of [None]. *)
Definition truthy (s : option string) : bool :=
  match s with
  | Some (String _ _) => true
  | _ => false
  end.

(** What phases 0 to 2 of [lift] settle. *)
Record prepared : Type := Prepared {
  p_arch : Arch;
  p_addr : Z;
  p_size : Z;
  p_num_inst : option Z;
  p_thumb : Z;
  p_opt_level : Z;
}.

(** [state.options.remove(o.OPTIMIZE_IR)] *)
Definition remove_optimize_ir : M world unit :=
  on_state (modify (SimState.set_options (λ opts, opts ∖ {[o.OPTIMIZE_IR]}))).

(** [arch], else [clemory._arch], else [state.arch] *)
Definition resolve_arch (arch : option Arch) (clemory : option C)
    (st : option (SimState.t P)) : option Arch :=
  match arch, clemory, st with
  | Some a, _, _ => Some a
  | None, Some c, _ => Some (clemory_arch c)
  | None, None, Some s => Some (SimState.arch s)
  | None, None, None => None
  end.

(** [addr], else the state's instruction pointer *)
Definition resolve_addr (addr : option Z) (st : option (SimState.t P)) : option Z :=
  match addr, st with
  | Some a, _ => Some a
  | None, Some s => Some (concrete_ip s)
  | None, None => None
  end.

(** [state and o.OPTIMIZE_IR in state.options] *)
Definition optimize_ir_set (st : option (SimState.t P)) : bool :=
  match st with
  | Some s => has_option o.OPTIMIZE_IR (SimState.options s)
  | None => false
  end.

(** The optimization level before self-modifying code is considered. *)
Definition default_opt_level (opt_level : option Z) (st : option (SimState.t P))
    (e : t) : Z :=
  match opt_level with
  | Some l => l
  | None => if optimize_ir_set st then 1%Z else _default_opt_level e
  end.

(** Phase 2 of [lift]: the address and the thumb flag. *)
Definition normalize_thumb (arch : Arch) (addr : Z) (thumb : bool) : Z * Z :=
  let thumb := (if thumb then 1 else 0)%Z in
  if is_ArchARM arch then
    let thumb := if (addr mod 2 =? 1)%Z then 1%Z else thumb in
    (if (thumb =? 0)%Z then addr else Z.land addr (Z.lnot 1), thumb)
  else (addr, 0%Z).

(** Phases 0 (sanity check), 1 (parameter defaults) and 2 (thumb
    normalization) of [lift]. *)
Definition lift_prepare (clemory : option C) (insn_bytes : option string)
    (arch : option Arch) (addr size num_inst : option Z) (thumb : bool)
    (opt_level : option Z) : M world prepared :=
  let* w := get in
  if is_none (state w) && is_none clemory && negb (truthy insn_bytes)
  then raise (ValueError "Must provide state or clemory or insn_bytes!")
  else if is_none (state w) && is_none clemory && is_none arch
  then raise (ValueError "Must provide state or clemory or arch!")
  else if is_none addr && is_none (state w)
  then raise (ValueError "Must provide state or addr!")
  else
    match resolve_arch arch clemory (state w), resolve_addr addr (state w) with
    | Some arch, Some addr =>
        (if String.prefix "MIPS" (name arch) && _single_step (engine w)
         then on_engine (set_single_step false) else ret tt) >>
        let* w := get in
        let size := effective_size size in
        let num_inst := effective_num_inst (_single_step (engine w)) num_inst in
        let opt_level := default_opt_level opt_level (state w) (engine w) in
        let* opt_level :=
          (if _support_selfmodifying_code (engine w) && (0 <? opt_level)%Z
           then (if optimize_ir_set (state w) then remove_optimize_ir else ret tt) >>
                ret 0%Z
           else ret opt_level) in
        let '(addr, thumb) := normalize_thumb arch addr thumb in
        ret (Prepared arch addr size num_inst thumb opt_level)
    | _, _ => raise (AttributeError "'NoneType' object has no attribute")
    end.

Definition cache_contains (key : cache_key) : M world bool :=
  λ w, (w, Ok (LRUCache.contains key (_block_cache (engine w)))).

(** [self._block_cache[key]] *)
Definition cache_getitem (key : cache_key) : M world IRSB.t :=
  let* w := get in
  match LRUCache.getitem key (_block_cache (engine w)) with
  | Some (irsb, c) => on_engine (set_block_cache c) >> ret irsb
  | None => raise (KeyError "cache_key")
  end.

(** [self._block_cache[key] = irsb] *)
Definition cache_setitem (key : cache_key) (irsb : IRSB.t) : M world unit :=
  let* w := get in
  match LRUCache.setitem key irsb (_block_cache (engine w)) with
  | Ok c => on_engine (set_block_cache c)
  | Raise x => raise x
  end.

(** One call of [pyvex.IRSB(...)]: a new block object, or the translation
    error that [lift] turns a [PyVEXError] into. *)
Definition new_IRSB (buff : string) (p : prepared) (size : Z) (traceflags : Z)
  : M world IRSB.t :=
  match pyvex_IRSB buff (p_addr p + p_thumb p) (p_arch p) size (p_num_inst p)
          (p_thumb p) traceflags (p_opt_level p) with
  | Some irsb =>
      let* w := get in
      on_engine count_object >> ret (IRSB.with_id (objects (engine w)) irsb)
  | None => raise (SimTranslationError "Translation error")
  end.

(** Phases 4 (get bytes) and 5 (call into pyvex) of [lift], with the size
    and the cache key that phase 3 left. *)
Definition lift_fresh (clemory : option C) (insn_bytes : option string)
    (p : prepared) (size : Z) (traceflags : Z) (key : cache_key) : M world IRSB.t :=
  let* w := get in
  match (match insn_bytes with
         | Some b => Ok (b, len b)
         | None => _load_bytes (engine w) (p_addr p) size (state w) clemory
         end) with
  | Raise x => raise x
  | Ok (buff, size) =>
      if negb (truthy (Some buff)) || (size =? 0)%Z
      then raise (SimEngineError "No bytes in memory for block starting at addr.")
      else
        let* irsb := new_IRSB buff p size traceflags in
        let* w := get in
        let* irsb :=
          match _first_stoppoint (engine w) irsb with
          | Some stop_point => new_IRSB buff p (stop_point - p_addr p) traceflags
          | None => ret irsb
          end in
        (if _use_cache (engine w) then cache_setitem key irsb else ret tt) >>
        ret irsb
  end.

Definition key_of (insn_bytes : option string) (p : prepared) (size : Z) : cache_key :=
  (p_addr p, insn_bytes, size, p_num_inst p, p_thumb p, p_opt_level p).

(** Phase 3 (check cache) of [lift], falling through to phases 4 and 5. *)
Definition lift_prepared (clemory : option C) (insn_bytes : option string)
    (p : prepared) (traceflags : Z) : M world IRSB.t :=
  let cache_key := key_of insn_bytes p (p_size p) in
  let* w := get in
  let* hit := cache_contains cache_key in
  if _use_cache (engine w) && hit then
    on_engine count_hit >>
    let* irsb := cache_getitem cache_key in
    let* w := get in
    match _first_stoppoint (engine w) irsb with
    | None => ret irsb
    | Some stop_point =>
        let size := (stop_point - p_addr p)%Z in
        let cache_key := key_of insn_bytes p size in
        let* hit := cache_contains cache_key in
        if (hit : bool) then on_engine count_hit >> cache_getitem cache_key
        else
          on_engine count_miss >>
          lift_fresh clemory insn_bytes p size traceflags cache_key
    end
  else
    on_engine count_miss >>
    lift_fresh clemory insn_bytes p (p_size p) traceflags cache_key.

(** [lift(state=..., clemory=..., insn_bytes=..., arch=..., addr=...,
    size=..., num_inst=..., traceflags=..., thumb=..., opt_level=...)];
    the [state] argument is the state of the world. *)
Definition lift (clemory : option C) (insn_bytes : option string)
    (arch : option Arch) (addr size num_inst : option Z) (traceflags : Z)
    (thumb : bool) (opt_level : option Z) : M world IRSB.t :=
  let* p := lift_prepare clemory insn_bytes arch addr size num_inst thumb opt_level in
  lift_prepared clemory insn_bytes p traceflags.

(** ** Running a block *)

(** [try: body except ...: handler]; [handler e] is [None] for an
    exception no clause names. *)
Definition try_except {S A} (body : M S A) (handler : exn → option (M S A)) : M S A :=
  λ s, match body s with
       | (s', Raise e) =>
           match handler e with
           | Some h => h s'
           | None => (s', Raise e)
           end
       | r => r
       end.

(** [state.scratch] *)
Definition scratch : M world SimStateScratch :=
  let* p := on_state (SimState.get_plugin "scratch") in ret (scratch_get p).

(** An assignment to attributes of [state.scratch] *)
Definition scratch_update (f : SimStateScratch → SimStateScratch) : M world unit :=
  on_state (SimState.call_plugin "scratch" (λ p, scratch_set (f (scratch_get p)) p)).

(** [translate_stmt(stmt, state)] *)
Definition translate (stmt : IRStmt) : M world (option SimIRStmt) :=
  λ w, match state w with
       | Some s =>
           let '(s', r) := translate_stmt stmt s in
           (World (engine w) (Some s') (successors w), r)
       | None => (w, Raise (AttributeError "'NoneType' object has no attribute"))
       end.

(** [state.copy()] *)
Definition copy_state : M world (SimState.t P) :=
  λ w, match state w with
       | Some s => (w, SimState.copy s)
       | None => (w, Raise (AttributeError "'NoneType' object has no attribute"))
       end.

(** [successors.add_successor(exit_state, s_stmt.target, s_stmt.guard,
    s_stmt.jumpkind, exit_stmt_idx=state.scratch.stmt_idx,
    exit_ins_addr=state.scratch.ins_addr)] *)
Definition add_exit_successor (exit_state : SimState.t P) (s_stmt : SimIRStmt)
  : M world unit :=
  let* sc := scratch in
  on_successors (λ q, add_successor q exit_state (stmt_target s_stmt)
                        (stmt_guard s_stmt) (stmt_jumpkind s_stmt)
                        (exit_at (stmt_idx sc)) (ins_addr sc)).

(** [state.scratch.guard = claripy.And(state.scratch.guard, c)] *)
Definition conjoin_guard (c : ast) : M world unit :=
  let* sc := scratch in
  scratch_update (set_guard (And [guard sc; c])).

(** The part of [_handle_statement] that handles a conditional exit, given
    the translated statement. *)
Definition handle_exit (s_stmt : option SimIRStmt) : M world unit :=
  let* exit_state := copy_state in
  let* ignore := on_state (SimState.option_on o.IGNORE_EXIT_GUARDS) in
  match s_stmt with
  | None => raise (AttributeError "'NoneType' object has no attribute 'target'")
  | Some ss =>
      if negb ignore then
        add_exit_successor exit_state ss >>
        let cont_condition := Not (stmt_guard ss) in
        on_state (SimState.add_constraints [cont_condition] false) >>
        conjoin_guard cont_condition
      else
        add_exit_successor exit_state ss >>
        conjoin_guard (Not (stmt_guard ss))
  end.

(** The part of [_handle_statement] that handles an instruction mark. *)
Definition handle_imark (addr : Z) (len : nat) (delta : Z) : M world unit :=
  let ins_addr := (addr + delta)%Z in
  scratch_update (set_ins_addr ins_addr) >>
  let* sc := scratch in
  if existsb (λ subaddr, bool_decide (Z.of_nat subaddr + addr ∈ dirty_addrs sc)%Z)
             (seq 0 len)
  then raise SimReliftException
  else
    let* sc := scratch in
    scratch_update (set_num_insns (num_insns sc + 1)) >>
    on_state (SimState._inspect "instruction" BP_BEFORE (kw_instruction ins_addr)) >>
    on_state (SimState.call_plugin "history"
                (λ h, history_append_ins_addr h ins_addr)).

(** [_handle_statement(state, successors, stmt)] *)
Definition _handle_statement (stmt : IRStmt) : M world unit :=
  (match stmt with
   | IMark addr len delta => handle_imark addr len delta
   | _ => ret tt
   end) >>
  let* s_stmt := translate stmt in
  (match s_stmt with
   | Some ss =>
       on_state (SimState.call_plugin "history"
                   (λ h, history_extend_actions h (stmt_actions ss)))
   | None => ret tt
   end) >>
  match stmt with
  | Exit _ _ _ => handle_exit s_stmt
  | _ => ret tt
  end.

(** The adjustment of [skip_stmts] under [o.SUPER_FASTPATH]: walking the
    statements from the last, the index at which the fourth instruction
    mark is met. *)
Fixpoint fastpath_skip (backwards : list (nat * IRStmt)) (imark_counter skip_stmts : nat)
  : nat :=
  match backwards with
  | [] => skip_stmts
  | (i, stmt) :: rest =>
      let imark_counter := if is_IMark stmt then S imark_counter else imark_counter in
      if 4 <=? imark_counter then Nat.max skip_stmts i
      else fastpath_skip rest imark_counter skip_stmts
  end.

(** [enumerate(ss)] *)
Definition enumerate {A} (l : list A) : list (nat * A) := imap (λ i x, (i, x)) l.

(** The handler of [UnsupportedDirtyError] in the statement loop. *)
Definition bypass_dirty (stmt : IRStmt) (e : exn) : M world unit :=
  let* bypass := on_state (SimState.option_on o.BYPASS_UNSUPPORTED_IRDIRTY) in
  if negb bypass then raise e
  else
    match stmt with
    | Dirty tmp cee_name =>
        (if bool_decide (tmp = 4294967295 ∨ tmp = -1)%Z then ret tt
         else on_state (SimState.call_plugin "scratch"
                          (λ p, scratch_store_unconstrained_tmp p tmp cee_name))) >>
        on_state (SimState.call_plugin "history"
                    (λ h, history_add_resilience_event h cee_name))
    | _ => raise (AttributeError "tmp")
    end.

(** The statement loop of [_handle_irsb]; returns [insn_addrs] and
    [has_default_exit]. *)
Fixpoint statement_loop (num_stmts skip_stmts : nat) (last_stmt : option nat)
    (whitelist : option (list nat)) (stmts : list (nat * IRStmt))
    (insn_addrs : list Z) (has_default_exit : bool) : M world (list Z * bool) :=
  match stmts with
  | [] => ret (insn_addrs, has_default_exit)
  | (stmt_idx, stmt) :: rest =>
      let* insn_addrs :=
        match stmt with
        | IMark addr _ delta =>
            (match last insn_addrs with
             | Some a =>
                 on_state (SimState._inspect "instruction" BP_AFTER (kw_instruction a))
             | None => ret tt
             end) >>
            ret (insn_addrs ++ [(addr + delta)%Z])
        | _ => ret insn_addrs
        end in
      let continue :=
        statement_loop num_stmts skip_stmts last_stmt whitelist rest insn_addrs
          has_default_exit in
      if stmt_idx <? skip_stmts then continue
      else if match last_stmt with Some l => l <? stmt_idx | None => false end
      then continue
      else if match whitelist with
              | Some wl => negb (bool_decide (stmt_idx ∈ wl))
              | None => false
              end
      then continue
      else
        let* go_on :=
          try_except
            (scratch_update (set_stmt_idx stmt_idx) >>
             on_state (SimState._inspect "statement" BP_BEFORE (kw_statement stmt_idx)) >>
             _handle_statement stmt >>
             on_state (SimState._inspect "statement" BP_AFTER kw_none) >>
             ret true)
            (λ e, match e with
                  | UnsupportedDirtyError _ => Some (bypass_dirty stmt e >> ret true)
                  | SimSolverError _ | SimMemoryAddressError _ => Some (ret false)
                  | _ => None
                  end) in
        if (go_on : bool) then
          (if (num_stmts - 1 <=? stmt_idx) && nonempty insn_addrs
           then match last insn_addrs with
                | Some a =>
                    on_state (SimState._inspect "instruction" BP_AFTER (kw_instruction a))
                | None => ret tt
                end
           else ret tt) >>
          continue
        else ret (insn_addrs, false)
  end.

(** [_handle_irsb(state, successors, irsb, skip_stmts, last_stmt,
    whitelist)] *)
Definition _handle_irsb (irsb : IRSB.t) (skip_stmts : nat) (last_stmt : option nat)
    (whitelist : option (list nat)) : M world unit :=
  let ss := IRSB.statements irsb in
  let num_stmts := length ss in
  on_successors (λ q, successors_set_artifacts q irsb) >>
  let has_default_exit :=
    match last_stmt with Some l => num_stmts <=? l | None => false end in
  let* fast := on_state (SimState.option_on o.SUPER_FASTPATH) in
  let skip_stmts :=
    if (fast : bool) then fastpath_skip (reverse (enumerate ss)) 0 skip_stmts
    else skip_stmts in
  let* (insn_addrs, has_default_exit) :=
    statement_loop num_stmts skip_stmts last_stmt whitelist (enumerate ss) []
      has_default_exit in
  scratch_update (set_stmt_idx num_stmts) >>
  λ w, match state w with
       | Some s =>
           let '(s', q', r) :=
             finish_irsb irsb has_default_exit whitelist insn_addrs s (successors w) in
           (World (engine w) (Some s') q', r)
       | None => (w, Raise (AttributeError "'NoneType' object has no attribute"))
       end.

(** The permission check of [_process] under [o.STRICT_PAGE_ACCESS]. *)
Definition check_execute_permission (addr : Z) : M world unit :=
  let* strict := on_state (SimState.option_on o.STRICT_PAGE_ACCESS) in
  if negb strict then ret tt
  else
    let* w := get in
    match state w with
    | None => raise (AttributeError "'NoneType' object has no attribute")
    | Some s =>
        match memory_permissions s addr with
        | Raise (KeyError _) | Raise (SimMemoryError _) =>
            raise (SimSegfaultError addr "exec-miss")
        | Raise e => raise e
        | Ok None => ret tt
        | Ok (Some perms) =>
            if negb (Z.testbit perms 2) && has_option o.ENABLE_NX (SimState.options s)
            then raise (SimSegfaultError addr "non-executable")
            else ret tt
        end
    end.

(** The head of a round of the loop of [_process], up to the [try]: the
    block to run (lifted unless one is at hand), refused when empty, the
    permission check, and the scratch bookkeeping. *)
Definition enter_block (irsb : option IRSB.t) (addr : Z) (insn_bytes : option string)
    (size num_inst : option Z) (traceflags : Z) (thumb : bool) (opt_level : option Z)
  : M world IRSB.t :=
  let* irsb :=
    match irsb with
    | Some b => ret b
    | None => lift None insn_bytes None (Some addr) size num_inst traceflags
                thumb opt_level
    end in
  if (IRSB.size irsb =? 0)%Z
  then raise (SimIRSBError "Empty IRSB passed to SimIRSB.")
  else
    check_execute_permission addr >>
    scratch_update (set_scratch_irsb (Some (IRSB.id irsb))) >>
    ret irsb.

(** The handler of [SimReliftException] when no [insn_bytes] were given:
    reads where to resume and clears the dirty addresses. *)
Definition prepare_relift : M world SimStateScratch :=
  let* sc := scratch in
  scratch_update (set_dirty_addrs ∅) >> ret sc.

(** The [while True] loop of [_process], run for at most [fuel] rounds;
    [None] when the rounds run out. *)
Fixpoint process_loop (fuel : nat) (irsb : option IRSB.t) (addr : Z)
    (skip_stmts : nat) (last_stmt : option nat) (whitelist : option (list nat))
    (insn_bytes : option string) (size num_inst : option Z) (traceflags : Z)
    (thumb : bool) (opt_level : option Z) (w : world) : option (world * result unit) :=
  match fuel with
  | O => None
  | S fuel' =>
      match enter_block irsb addr insn_bytes size num_inst traceflags thumb
              opt_level w with
      | (w1, Raise e) => Some (w1, Raise e)
      | (w1, Ok irsb) =>
          match _handle_irsb irsb skip_stmts last_stmt whitelist w1 with
          | (w2, Raise SimReliftException) =>
              if negb (is_none insn_bytes)
              then Some (w2, Raise (SimEngineError
                                      "You cannot pass self-modifying code as insn_bytes!!!"))
              else
                match prepare_relift w2 with
                | (w3, Raise e) => Some (w3, Raise e)
                | (w3, Ok sc) =>
                    let new_ip := ins_addr sc in
                    process_loop fuel' None new_ip skip_stmts last_stmt whitelist
                      insn_bytes
                      ((λ n, n - (new_ip - addr))%Z <$> size)
                      ((λ n, n - num_insns sc)%Z <$> num_inst)
                      traceflags thumb opt_level w3
                end
          | (w2, Raise e) => Some (w2, Raise e)
          | (w2, Ok _) => Some (w2, Ok tt)
          end
      end
  end.

(** What [_process] does before its loop; returns [successors.addr]. *)
Definition process_setup : M world Z :=
  on_successors (λ q, successors_set_sort q "IRSB") >>
  on_state (SimState.call_plugin "history"
              (λ h, history_set_recent_block_count h 1)) >>
  scratch_update (set_guard ctrue) >>
  scratch_update (set_sim_procedure None) >>
  let* w := get in
  let addr := successors_addr (successors w) in
  on_state (SimState._inspect "irsb" BP_BEFORE (kw_address addr)) >>
  ret addr.

(** [_process(state, successors, irsb=None, skip_stmts=0,
    last_stmt=99999999, whitelist=None, insn_bytes=None, size=None,
    num_inst=None, traceflags=0, thumb=False, opt_level=None)]: [state] and
    [successors] are those of the world. *)
Definition _process (fuel : nat) (irsb : option IRSB.t) (skip_stmts : nat)
    (last_stmt : option nat) (whitelist : option (list nat))
    (insn_bytes : option string) (size num_inst : option Z) (traceflags : Z)
    (thumb : bool) (opt_level : option Z) (w : world) : option (world * result unit) :=
  match process_setup w with
  | (w0, Raise e) => Some (w0, Raise e)
  | (w0, Ok addr) =>
      match process_loop fuel irsb addr skip_stmts last_stmt whitelist insn_bytes
              size num_inst traceflags thumb opt_level w0 with
      | None => None
      | Some (w1, Raise e) => Some (w1, Raise e)
      | Some (w1, Ok _) =>
          Some ((on_state (SimState._inspect "irsb" BP_AFTER kw_none) >>
                 on_successors successors_set_processed) w1)
      end
  end.

(** ** Cache set-up and pickling *)

(** [_initialize_block_cache()] *)
Definition _initialize_block_cache (e : t) : t :=
  Build (_stop_points e) (_use_cache e) (_default_opt_level e)
    (_support_selfmodifying_code e) (_single_step e) (_cache_size e)
    (LRUCache.new (_cache_size e)) 0 0 (objects e).

(** The entries that [__getstate__] adds to the dictionary of the base
    class and [__setstate__] reads from it. *)
Record pickled : Type := Pickled {
  s_stop_points : option (gset Z);
  s_use_cache : bool;
  s_default_opt_level : Z;
  s_support_selfmodifying_code : bool;
  s_single_step : bool;
  s_cache_size : nat;
}.

(** [__getstate__()] *)
Definition __getstate__ (e : t) : pickled :=
  Pickled (_stop_points e) (_use_cache e) (_default_opt_level e)
    (_support_selfmodifying_code e) (_single_step e) (_cache_size e).

(** [__setstate__(state)], on the object being unpickled, which has no
    cache and no counters until [_initialize_block_cache] makes them;
    [next_object] is the number of blocks constructed so far. *)
Definition __setstate__ (state : pickled) (next_object : nat) : t :=
  _initialize_block_cache
    (Build (s_stop_points state) (s_use_cache state) (s_default_opt_level state)
       (s_support_selfmodifying_code state) (s_single_step state) (s_cache_size state)
       (LRUCache.new 0) 0 0 next_object).

End Engine.
Arguments t : clear implicits.
Arguments world P Q : clear implicits.
End SimEngineVEX.


(* ===================================================================== *)
(** * 9. [Instruction] (pyvex/lifting/util/instr_helper.py)               *)
(* ===================================================================== *)

Module Instruction.

(** What the methods below raise: [ParseError] for a fixed bit that does
    not match, [ValueError], the [ZeroDivisionError] of a division, and
    whatever the bit stream raises. *)
Inductive error : Type :=
| ParseError (format_bit instruction_bit : Ascii.ascii)
| ValueError (msg : string)
| ZeroDivisionError
| StreamError (msg : string).

Inductive res (A : Type) : Type :=
| Done (a : A)
| Fail (e : error).
Arguments Done {A} a.
Arguments Fail {A} e.

(** The bit stream handed to an instruction ([bitstring.ConstBitStream]):
    the three reads [parse] makes.  A peek leaves the stream where it is. *)
Class BitStream (B : Type) : Type := {
  (** [bitstrm.peek("bin:%d" % n)] *)
  peek_bin : nat → B → res string;
  (** [bitstring.Bits(uint=bitstrm.peek("uintle:%d" % n), length=n).bin] *)
  peek_uintle_bin : nat → B → res string;
  (** [bitstrm.read('hex:%d' % n)]: the stream after the read and the
      digits *)
  read_hex : nat → B → B * res string;
}.

(** [archinfo.Arch]: what the class reads of it. *)
Record arch : Type := Arch {
  instruction_endness : string;
  byte_width : Z;
}.

(** [c in '01'] *)
Definition is_bit (c : Ascii.ascii) : bool :=
  bool_decide (c = "0"%char ∨ c = "1"%char).

(** [c in string.ascii_letters] *)
Definition is_ascii_letter (c : Ascii.ascii) : bool :=
  let n := Ascii.nat_of_ascii c in
  ((97 <=? n) && (n <=? 122)) || ((65 <=? n) && (n <=? 90)).

(** [{c : '' for c in self.bin_format if c in string.ascii_letters}] *)
Fixpoint empty_fields (bin_format : string) : gmap Ascii.ascii string :=
  match bin_format with
  | EmptyString => ∅
  | String c rest =>
      if is_ascii_letter c then <[c := EmptyString]> (empty_fields rest)
      else empty_fields rest
  end.

(** The loop of [parse] over [zip(self.bin_format, instr_bits)].  The key
    of [data[c] += b] is present, [c] being a letter of the format. *)
Fixpoint match_bits (bin_format instr_bits : string) (data : gmap Ascii.ascii string)
  : res (gmap Ascii.ascii string) :=
  match bin_format, instr_bits with
  | String c bin_format', String b instr_bits' =>
      if is_bit c then
        if bool_decide (b ≠ c) then Fail (ParseError c b)
        else match_bits bin_format' instr_bits' data
      else if is_ascii_letter c then
        match_bits bin_format' instr_bits'
          (<[c := default EmptyString (data !! c) +:+ String b EmptyString]> data)
      else Fail (ValueError ("Invalid bin_format character " +:+ String c EmptyString))
  | _, _ => Done data
  end.

Section Parse.
Context {B : Type} `{!BitStream B}.

(** [parse(bitstrm)] of the base class, whose [match_instruction] accepts
    everything and which has no [_extra_parsing]: the stream after the
    call, and [data] with [self.rawbits]. *)
Definition parse (bin_format : string) (a : arch) (bitstrm : B)
  : B * res (gmap Ascii.ascii string * string) :=
  let numbits := String.length bin_format in
  match (if String.eqb (instruction_endness a) "Iend_LE"
         then peek_uintle_bin numbits bitstrm
         else peek_bin numbits bitstrm) with
  | Fail e => (bitstrm, Fail e)
  | Done instr_bits =>
      match match_bits bin_format instr_bits (empty_fields bin_format) with
      | Fail e => (bitstrm, Fail e)
      | Done data =>
          match read_hex numbits bitstrm with
          | (bitstrm', Done rawbits) => (bitstrm', Done (data, rawbits))
          | (bitstrm', Fail e) => (bitstrm', Fail e)
          end
      end
  end.

End Parse.

(** [self.bitwidth], set by [__init__] to [len(self.bin_format)] *)
Definition bitwidth (bin_format : string) : Z := Z.of_nat (String.length bin_format).

(** The property [bytewidth] *)
Definition bytewidth (bin_format : string) (a : arch) : res Z :=
  if (byte_width a =? 0)%Z then Fail ZeroDivisionError
  else if negb (bitwidth bin_format mod byte_width a =? 0)%Z
  then Fail (ValueError "Instruction is not a multiple of bytes wide!")
  else Done (bitwidth bin_format / byte_width a)%Z.

End Instruction.

(* ===================================================================== *)
(** * 10. [Blob] (cle/backends/blob.py)                                   *)
(* ===================================================================== *)

Module Blob.

(** [CLEError], or an exception of the file object or of the memory. *)
Inductive error : Type :=
| CLEError (msg : string)
| OtherError (msg : string).

Inductive res (A : Type) : Type :=
| Done (a : A)
| Fail (e : error).
Arguments Done {A} a.
Arguments Fail {A} e.

(** The file object [binary_stream] (of type [F]) and the memory object
    [memory] (of type [M]) that [Backend.__init__] provides. *)
Class Backing (F M : Type) : Type := {
  (** [binary_stream.seek(0, 2)] followed by [binary_stream.tell()] *)
  stream_end : F → Z;
  (** [binary_stream.seek(file_offset)] followed by
      [binary_stream.read(size)] *)
  stream_read : F → Z → Z → res string;
  (** [memory.add_backer(mem_addr, string)] *)
  add_backer : M → Z → string → res M;
}.

Section Blob.
Context {A F M : Type} `{!Backing F M}.

(** What [Backend.__init__(path, **kwargs)] leaves in the object. *)
Record backend : Type := Backend {
  b_arch : option A;
  b_custom_entry_point : option Z;
  b_binary_stream : F;
  b_memory : M;
}.

Record t : Type := Build {
  pic : bool;
  arch : A;
  _custom_entry_point : Z;
  _entry : Z;
  _max_addr : Z;
  _min_addr : Z;
  os : string;
  binary_stream : F;
  memory : M;
}.

(** [_load(file_offset, mem_addr, size)] *)
Definition _load (file_offset mem_addr size : Z) (self : t) : res t :=
  match stream_read (binary_stream self) file_offset size with
  | Fail e => Fail e
  | Done string =>
      match add_backer (memory self) mem_addr string with
      | Fail e => Fail e
      | Done memory' =>
          Done (Build (pic self) (arch self) (_custom_entry_point self) (_entry self)
                  (Z.max (Z.of_nat (String.length string) + mem_addr) (_max_addr self))
                  (Z.min mem_addr (_min_addr self))
                  (os self) (binary_stream self) memory')
      end
  end.

(** The segments [__init__] loads: those given; else the file from
    [custom_offset] on, at address 0; else the whole file at address 0. *)
Definition segments_to_load (stream : F) (custom_offset : option Z)
    (segments : option (list (Z * Z * Z))) : list (Z * Z * Z) :=
  match custom_offset, segments with
  | Some _, Some segments => segments
  | Some custom_offset, None => [(custom_offset, 0, stream_end stream - custom_offset)%Z]
  | None, Some segments => segments
  | None, None => [(0, 0, stream_end stream)%Z]
  end.

(** [for file_offset, mem_addr, size in segments: self._load(...)] *)
Fixpoint load_all (segments : list (Z * Z * Z)) (self : t) : res t :=
  match segments with
  | [] => Done self
  | (file_offset, mem_addr, size) :: rest =>
      match _load file_offset mem_addr size self with
      | Fail e => Fail e
      | Done self' => load_all rest self'
      end
  end.

(** [__init__(path, custom_offset=None, segments=None, **kwargs)], after
    the constructor of [Backend] has run. *)
Definition init (b : backend) (custom_offset : option Z)
    (segments : option (list (Z * Z * Z))) : res t :=
  match b_arch b with
  | None => Fail (CLEError "Must specify custom_arch when loading blob!")
  | Some arch =>
      let custom_entry_point := default 0%Z (b_custom_entry_point b) in
      load_all (segments_to_load (b_binary_stream b) custom_offset segments)
        (Build true arch custom_entry_point custom_entry_point 0 (2 ^ 64) "unknown"
           (b_binary_stream b) (b_memory b))
  end.

(** The properties [min_addr] and [max_addr] *)
Definition min_addr (self : t) : Z := _min_addr self.
Definition max_addr (self : t) : Z := _max_addr self.

End Blob.
Arguments backend A F M : clear implicits.
Arguments t A F M : clear implicits.
End Blob.

(* ===================================================================== *)
(** * 11. A reference universe of collaborators                            *)
(* ===================================================================== *)

(** The smallest collaborators that satisfy the interfaces, used to run the
    definitions on concrete states.  A plugin is its class name, the
    expressions it was handed (the constraints of a solver, the actions of
    a history) and, for use as [state.scratch], the scratch attributes.
    The lifter decodes two-byte instructions; a memory image is empty; a
    successors object lists the successors added to it. *)
Module Reference.

Definition fresh_scratch : SimStateScratch :=
  Build_SimStateScratch ctrue 0 0 0 ∅ None None.

Record plugin : Type := Plugin {
  cls : string;
  held : list ast;
  attrs : SimStateScratch;
}.

Definition make (c : string) (l : list ast) : plugin := Plugin c l fresh_scratch.

Definition is_literal (b : bool) (e : ast) : bool :=
  match e with
  | BoolV b' => Bool.eqb b b'
  | _ => false
  end.

Definition symbolic (e : ast) : bool :=
  match e with
  | BoolV _ | BVV _ _ => false
  | _ => true
  end.

#[global] Instance plugin_contract : StatePlugin plugin := {|
  plugin_class := cls;
  plugin_new c := make c [];
  default_plugins n :=
    if bool_decide (n ∈ ["solver_engine"; "history"; "scratch"; "globals";
                         "inspector"; "memory"; "registers"])
    then Some (make n []) else None;
  plugin_init_state p := p;
  plugin_copy p := p;
  plugin_merge p others conditions ancestor :=
    (Plugin (cls p) (held p ++ concat (held <$> others)) (attrs p),
     nonempty (concat (held <$> others)));
  plugin_widen p others := (p, true);
|}.

#[global] Instance collaborators : Collaborators plugin := {|
  se_add se cs := (Plugin (cls se) (held se ++ cs) (attrs se), cs);
  se_simplify se a := a;
  se_is_false := is_literal false;
  se_is_true := is_literal true;
  se_symbolic := symbolic;
  se_satisfiable se extra := negb (existsb (is_literal false) (held se ++ extra));
  se_constraint_to_si se a := [];
  se_downsize se := se;
  vsa_is_false := is_literal false;
  vsa_is_true := is_literal true;
  has_variables := symbolic;
  registers_replace_all r old new := r;
  memory_replace_all m old new := m;
  inspect_action i event when kw := i;
  inspect_added_constraints i := None;
  history_add_action h c := Plugin (cls h) (held h ++ [c]) (attrs h);
  history_set_parent h parent := h;
  modes m :=
    if bool_decide (m = "symbolic")
    then Some {[o.SYMBOLIC; o.TRACK_CONSTRAINTS]}
    else if bool_decide (m = "static")
    then Some {[o.ABSTRACT_SOLVER; o.ABSTRACT_MEMORY]}
    else None;
  new_memory c memory_id := make c [];
|}.

#[global] Instance scratch_plugin : ScratchPlugin plugin := {|
  scratch_get := attrs;
  scratch_set sc p := Plugin (cls p) (held p) sc;
  scratch_get_set sc p := eq_refl;
|}.

(** A successors object: its address, what was added to it, and whether the
    engine has marked it processed. *)
Record successors : Type := Successors {
  q_addr : Z;
  added : list (SimState.t plugin * ast * ast * string * exit_index * Z);
  processed : bool;
}.

(** The instruction marks of a block of [n] two-byte instructions. *)
Fixpoint imarks (addr : Z) (n : nat) : list IRStmt :=
  match n with
  | O => []
  | S n' => IMark addr 2 0 :: imarks (addr + 2) n'
  end.

(** Decodes [min(num_bytes, len(buff)) / 2] instructions, at most
    [num_inst]; fails on an empty range. *)
Definition decode (buff : string) (addr : Z) (arch : Arch) (num_bytes : Z)
    (num_inst : option Z) (bytes_offset traceflags opt_level : Z) : option IRSB.t :=
  let available := Z.min num_bytes (Z.of_nat (String.length buff)) in
  let n := Z.to_nat (available / 2) in
  let n := match num_inst with Some k => Nat.min n (Z.to_nat k) | None => n end in
  if bool_decide (n = 0) then None
  else Some (IRSB.Build 0 (imarks addr n) (2 * Z.of_nat n)
               (Const (addr + 2 * Z.of_nat n)) "Ijk_Boring" true).

(** An exit on temporary [t] is guarded by the symbolic boolean [t<n>]; an
    exit on a constant by the constant's truth value; a dirty call is
    unsupported; anything else has no effect. *)
Definition translate (stmt : IRStmt) (s : SimState.t plugin)
  : SimState.t plugin * result (option SimIRStmt) :=
  match stmt with
  | Exit (RdTmp n) dst jk =>
      (s, Ok (Some (Build_SimIRStmt (BoolS ("t" +:+ pretty n)) (BVV dst 64) jk [])))
  | Exit (Const v) dst jk =>
      (s, Ok (Some (Build_SimIRStmt (BoolV (negb (v =? 0)%Z)) (BVV dst 64) jk [])))
  | Exit (OtherExpr _) _ _ => (s, Raise (SimSolverError "unsupported guard"))
  | Dirty _ name => (s, Raise (UnsupportedDirtyError name))
  | _ => (s, Ok None)
  end.

#[global] Instance engine_collaborators
  : EngineCollaborators plugin unit successors := {|
  clemory_arch c := Build_Arch "AMD64" false;
  clemory_read_bytes_c c addr := None;
  state_memory_backer s := tt;
  memory_permissions s addr := Ok (Some 7%Z);
  memory_contains s addr := false;
  memory_load_str s addr n := EmptyString;
  memory_load_chr s addr := Ascii.zero;
  concrete_ip s := 0%Z;
  pyvex_IRSB := decode;
  translate_stmt := translate;
  add_successor q st target guard jk idx ia :=
    Successors (q_addr q) (added q ++ [(st, target, guard, jk, idx, ia)]) (processed q);
  successors_addr := q_addr;
  history_extend_actions h actions := Plugin (cls h) (held h ++ actions) (attrs h);
  history_append_ins_addr h a := h;
  history_set_recent_block_count h n := h;
  history_add_resilience_event h name := h;
  scratch_store_unconstrained_tmp p tmp name := p;
  finish_irsb irsb has_default_exit whitelist insn_addrs s q := (s, q, Ok tt);
  successors_set_sort q sort := q;
  successors_set_artifacts q irsb := q;
  successors_set_processed q := Successors (q_addr q) (added q) true;
|}.

(** A state of architecture [arch_name] holding the default memory and
    registers, the given solver constraints and a scratch plugin. *)
Definition state_with (arch_name : string) (opts : gset string) (constraints : list ast)
    (sc : SimStateScratch) : SimState.t plugin :=
  SimState.Build (Build_Arch arch_name false) opts (Some "symbolic")
    {[ "memory" := make "SimSymbolicMemory" [];
       "registers" := make "SimSymbolicMemory" [];
       "solver_engine" := make "solver_engine" constraints;
       "scratch" := Plugin "scratch" [] sc ]}
    None true None [].

(** The options of the symbolic mode. *)
Definition symbolic_options : gset string := {[o.SYMBOLIC; o.TRACK_CONSTRAINTS]}.

Definition state (arch_name : string) (opts : gset string) (constraints : list ast)
  : SimState.t plugin :=
  state_with arch_name opts constraints fresh_scratch.

(** An engine as [SimEngineVEX()] makes it, with the given stop points and
    cache size. *)
Definition engine (stop_points : option (gset Z)) (cache_size : nat) : SimEngineVEX.t :=
  SimEngineVEX.init stop_points true cache_size 1 false false.

(** The world of a call on state [s], with a fresh successors object for
    address [addr]. *)
Definition world (e : SimEngineVEX.t) (s : option (SimState.t plugin)) (addr : Z)
  : SimEngineVEX.world plugin successors :=
  SimEngineVEX.World e s (Successors addr [] false).

(** The scratch guard of the state of a world. *)
Definition guard_of (w : SimEngineVEX.world plugin successors) : option ast :=
  s ← SimEngineVEX.state w; p ← SimState.plugins s !! "scratch"; Some (guard (attrs p)).

(** The constraints the solver of the state of a world holds. *)
Definition constraints_of (w : SimEngineVEX.world plugin successors) : option (list ast) :=
  s ← SimEngineVEX.state w; p ← SimState.plugins s !! "solver_engine"; Some (held p).



(** A block of two instructions at 4096 and 4098, and a world whose state
    has written address 4097 while running it. *)
Definition two_instructions : IRSB.t :=
  IRSB.Build 0 [IMark 4096 2 0; IMark 4098 2 0] 4 (Const 4100) "Ijk_Boring" true.

Definition self_modified_world : SimEngineVEX.world plugin successors :=
  world (engine None 10)
    (Some (state_with "AMD64" symbolic_options []
             (set_dirty_addrs {[4097%Z]} fresh_scratch))) 4096.

(** A string of [n] bytes. *)
Fixpoint bytes (n : nat) : string :=
  match n with
  | O => EmptyString
  | S n' => String Ascii.zero (bytes n')
  end.

End Reference.

(** Reference collaborators of [Instruction] and [Blob]: a bit stream is
    the string of the ['0'] and ['1'] still to be read; a file is the
    string of its bytes; a memory is the list of its backers. *)
Module ReferenceStreams.

(** The first [n] characters of [s], when it has that many. *)
Fixpoint take_chars (n : nat) (s : string) : option string :=
  match n, s with
  | O, _ => Some EmptyString
  | S n', String c s' => String c <$> take_chars n' s'
  | S _, EmptyString => None
  end.

Fixpoint drop_chars (n : nat) (s : string) : string :=
  match n, s with
  | S n', String _ s' => drop_chars n' s'
  | _, _ => s
  end.

(** The bytes of a string of bits, last byte first. *)
Fixpoint reverse_bytes (fuel : nat) (bits : string) : string :=
  match fuel, bits with
  | S fuel', String _ _ =>
      reverse_bytes fuel' (drop_chars 8 bits) +:+ default bits (take_chars 8 bits)
  | _, _ => EmptyString
  end.

(** The value of a string of bits. *)
Definition bits_value (bits : string) : N :=
  foldl (λ acc c, (2 * acc + (if Ascii.eqb c "1" then 1 else 0))%N) 0%N
    (String.list_ascii_of_string bits).

(** The hexadecimal digits of a string of bits, four bits to a digit. *)
Fixpoint hex_of_bits (fuel : nat) (bits : string) : string :=
  match fuel, bits with
  | S fuel', String _ _ =>
      String (py.hex_digit (bits_value (default bits (take_chars 4 bits))))
        (hex_of_bits fuel' (drop_chars 4 bits))
  | _, _ => EmptyString
  end.

#[global] Instance bit_stream : Instruction.BitStream string := {|
  Instruction.peek_bin n bits :=
    match take_chars n bits with
    | Some head => Instruction.Done head
    | None => Instruction.Fail (Instruction.StreamError "ReadError")
    end;
  Instruction.peek_uintle_bin n bits :=
    match take_chars n bits with
    | Some head =>
        if bool_decide (n = 0 ∨ n `mod` 8 ≠ 0)
        then Instruction.Fail (Instruction.StreamError "InterpretError")
        else Instruction.Done (reverse_bytes n head)
    | None => Instruction.Fail (Instruction.StreamError "ReadError")
    end;
  Instruction.read_hex n bits :=
    match take_chars n bits with
    | Some head =>
        if bool_decide (n `mod` 4 ≠ 0)
        then (bits, Instruction.Fail (Instruction.StreamError "InterpretError"))
        else (drop_chars n bits, Instruction.Done (hex_of_bits n head))
    | None => (bits, Instruction.Fail (Instruction.StreamError "ReadError"))
    end;
|}.

(** [size] bytes of [file] from [offset] on, fewer at the end of the file;
    all of them for a negative [size]. *)
Definition read_at (file : string) (offset size : Z) : Blob.res string :=
  if (offset <? 0)%Z then Blob.Fail (Blob.OtherError "IOError")
  else
    let rest := drop_chars (Z.to_nat offset) file in
    Blob.Done (if (size <? 0)%Z then rest
               else default rest (take_chars (Z.to_nat size) rest)).

#[global] Instance backing : Blob.Backing string (list (Z * string)) := {|
  Blob.stream_end file := Z.of_nat (String.length file);
  Blob.stream_read := read_at;
  Blob.add_backer memory mem_addr data := Blob.Done (memory ++ [(mem_addr, data)]);
|}.

End ReferenceStreams.

(* THEOREMS *)

(* ===================================================================== *)
(** * Properties of [SimStateGlobals]                                         *)
(* ===================================================================== *)

Section GlobalsFacts.
Context {K : Type} `{Countable K} {V : Type}.
Implicit Types (self other : SimStateGlobals.t K V) (k : K).

(** The value the first of [ms] holding [k] maps it to. *)
Definition first_writer k (ms : list (SimStateGlobals.t K V)) : option V :=
  foldr (λ m r, match SimStateGlobals.getitem m k with
                | Some v => Some v
                | None => r
                end) None ms.

Lemma globals_merge_keys_lookup other (l : list K) self k :
  SimStateGlobals.getitem (foldl (SimStateGlobals.merge_key other) self l) k =
  match SimStateGlobals.getitem self k with
  | Some v => Some v
  | None => if bool_decide (k ∈ l) then SimStateGlobals.getitem other k else None
  end.
Proof.
  revert self. induction l as [|a l IH]; intros self; simpl.
  - by destruct (SimStateGlobals.getitem self k).
  - rewrite IH. clear IH.
    unfold SimStateGlobals.merge_key, SimStateGlobals.contains,
      SimStateGlobals.getitem, SimStateGlobals.setitem; simpl.
    destruct (decide (k = a)) as [->|Hne].
    + rewrite (bool_decide_eq_true_2 (a ∈ a :: l)); [|by left].
      case_bool_decide as Ha.
      * destruct Ha as [v Hv]. by rewrite Hv.
      * apply eq_None_not_Some in Ha. rewrite Ha.
        destruct (SimStateGlobals.backer other !! a) as [v|] eqn:Ho; simpl.
        -- by rewrite lookup_insert_eq.
        -- rewrite Ha. by case_bool_decide.
    + assert (bool_decide (k ∈ a :: l) = bool_decide (k ∈ l)) as ->.
      { apply bool_decide_ext. rewrite elem_of_cons.
        split; [intros [?|?]; [congruence|done] | by right]. }
      case_bool_decide as Ha; [done|].
      destruct (SimStateGlobals.backer other !! a) as [v|]; simpl; [|done].
      by rewrite lookup_insert_ne.
Qed.

Lemma globals_merge_other_lookup self other k :
  SimStateGlobals.getitem (SimStateGlobals.merge_other self other) k =
  match SimStateGlobals.getitem self k with
  | Some v => Some v
  | None => SimStateGlobals.getitem other k
  end.
Proof.
  unfold SimStateGlobals.merge_other. rewrite globals_merge_keys_lookup.
  destruct (SimStateGlobals.getitem self k); [done|].
  case_bool_decide as Hk; [done|].
  unfold SimStateGlobals.getitem, SimStateGlobals.keys in *.
  destruct (SimStateGlobals.backer other !! k) as [v|] eqn:Hv; [|done].
  exfalso. apply Hk. apply list_elem_of_fmap. exists (k, v). split; [done|].
  by apply elem_of_map_to_list.
Qed.

Lemma globals_merge_fold_lookup others self k :
  SimStateGlobals.getitem (foldl SimStateGlobals.merge_other self others) k =
  first_writer k (self :: others).
Proof.
  revert self. induction others as [|other others IH]; intros self; simpl.
  - by destruct (SimStateGlobals.getitem self k).
  - rewrite IH. simpl. rewrite globals_merge_other_lookup.
    by destruct (SimStateGlobals.getitem self k).
Qed.

Lemma globals_ext self self' :
  (∀ k, SimStateGlobals.getitem self' k = SimStateGlobals.getitem self k) →
  self' = self.
Proof.
  destruct self as [m], self' as [m']. unfold SimStateGlobals.getitem. simpl.
  intros Hk. f_equal. by apply map_eq.
Qed.

(** C10.  [SimStateGlobals.merge] changes the receiver only by adding keys
    it lacks: a key the receiver holds keeps its value; every key ends up
    with the value of the first of receiver, others[0], others[1], ... that
    holds it; and the method returns [True] whatever happened, also when
    every key of the others was already present and the receiver is
    unchanged. *)
Theorem globals_merge_first_writer_wins self (others : list (SimStateGlobals.t K V))
    (merge_conditions : list ast) (common_ancestor : option (SimStateGlobals.t K V)) :
  let r := SimStateGlobals.merge self others merge_conditions common_ancestor in
  (∀ k v, SimStateGlobals.getitem self k = Some v →
          SimStateGlobals.getitem r.1 k = Some v)
  ∧ (∀ k, SimStateGlobals.getitem r.1 k = first_writer k (self :: others))
  ∧ r.2 = true
  ∧ (Forall (λ other, ∀ k, SimStateGlobals.contains other k →
                            SimStateGlobals.contains self k) others →
     r = (self, true)).
Proof.
  simpl. split_and!.
  - intros k v Hk. rewrite globals_merge_fold_lookup. simpl. by rewrite Hk.
  - intros k. apply globals_merge_fold_lookup.
  - done.
  - intros Hall. unfold SimStateGlobals.merge. f_equal.
    apply globals_ext. intros k. rewrite globals_merge_fold_lookup. simpl.
    destruct (SimStateGlobals.getitem self k) as [v|] eqn:Hs; [done|].
    induction Hall as [|other others Ho _ IH]; simpl; [done|].
    rewrite IH.
    destruct (SimStateGlobals.getitem other k) as [v|] eqn:Hv; [|done].
    exfalso.
    assert (SimStateGlobals.contains self k) as Hc.
    { apply Ho. unfold SimStateGlobals.contains, SimStateGlobals.getitem in *.
      rewrite Hv. by apply bool_decide_pack. }
    unfold SimStateGlobals.contains, SimStateGlobals.getitem in *.
    apply bool_decide_unpack in Hc. rewrite Hs in Hc. by destruct Hc.
Qed.

End GlobalsFacts.

(** [{"a": 1}] merged with [{"a": 2, "b": 3}] and [{"b": 4}]. *)
Example globals_merge_example :
  SimStateGlobals.merge
    (SimStateGlobals.Build {["a" := 1]})
    [SimStateGlobals.Build {["a" := 2; "b" := 3]};
     SimStateGlobals.Build {["b" := 4]}] [] None
  = (SimStateGlobals.Build (K := string) {["a" := 1; "b" := 3]}, true).
Proof. vm_compute. reflexivity. Qed.

(** Merging with nothing still reports a change. *)
Example globals_merge_nothing_example :
  SimStateGlobals.merge (SimStateGlobals.Build (K := string) {["a" := 1]}) [] [] None
  = (SimStateGlobals.Build {["a" := 1]}, true).
Proof. reflexivity. Qed.

(* ===================================================================== *)
(** * Stepwise reasoning about methods                                    *)
(* ===================================================================== *)

Section Steps.
Context {S : Type} (R : S → S → Prop) `{!PreOrder R}.

(** Every run of [m] takes the object to an [R]-related one, whether it
    returns or raises. *)
Definition steps {A} (m : M S A) : Prop := ∀ s, R s (m s).1.

Lemma steps_ret {A} (a : A) : steps (ret a).
Proof. intros s. reflexivity. Qed.

Lemma steps_raise {A} e : steps (raise (A := A) e).
Proof. intros s. reflexivity. Qed.

Lemma steps_get : steps get.
Proof. intros s. reflexivity. Qed.

Lemma steps_modify f : (∀ s, R s (f s)) → steps (modify f).
Proof. intros Hf s. apply Hf. Qed.

Lemma steps_bind {A B} (m : M S A) (k : A → M S B) :
  steps m → (∀ a, steps (k a)) → steps (bind m k).
Proof.
  intros Hm Hk s. unfold bind. specialize (Hm s).
  destruct (m s) as [s' [a|e]]; simpl in *; [|done].
  etrans; [exact Hm|apply Hk].
Qed.

Lemma steps_for_each {A} (xs : list A) body :
  (∀ x, steps (body x)) → steps (for_each xs body).
Proof.
  intros Hb. induction xs as [|x xs IH]; simpl.
  - apply steps_ret.
  - apply steps_bind; [apply Hb|intros _; apply IH].
Qed.

Lemma steps_try_finally {A} (body : M S A) cleanup :
  steps body → (∀ s, R s (cleanup s)) → steps (try_finally body cleanup).
Proof.
  intros Hb Hc s. unfold try_finally. specialize (Hb s).
  destruct (body s) as [s' r]; simpl in *. etrans; [exact Hb|apply Hc].
Qed.

End Steps.

Ltac steps_tac :=
  repeat match goal with
    | |- steps ?R (ret _) => apply (steps_ret R)
    | |- steps ?R (raise _) => apply (steps_raise R)
    | |- steps ?R get => apply (steps_get R)
    | |- steps ?R (for_each _ _) => apply (steps_for_each R); intros ?
    | |- steps ?R (bind _ _) => apply (steps_bind R); [|intros ?]
    | |- steps ?R (modify _) => apply (steps_modify R); intros ?
    | |- steps _ (if ?b then _ else _) => destruct b
    | |- steps _ (match ?x with _ => _ end) => destruct x
    | |- steps _ (let '(_, _) := ?x in _) => destruct x
    | |- steps _ _ => progress (lazy zeta)
    end.

(* ===================================================================== *)
(** * Properties of [SimState]                                            *)
(* ===================================================================== *)

Section StateFacts.
Context {P : Type} `{!StatePlugin P, !Collaborators P}.
Implicit Types (s self : SimState.t P).

(** ** Methods that only touch plugins *)

Section PluginSteps.
Context (R : SimState.t P → SimState.t P → Prop) `{!PreOrder R}.
Context (R_plugins : ∀ f s, R s (SimState.set_plugins f s)).

Lemma steps_option_on opt : steps R (SimState.option_on opt).
Proof. intros s. reflexivity. Qed.

Lemma steps_has_plugin n : steps R (SimState.has_plugin n).
Proof. intros s. reflexivity. Qed.

Lemma steps_register_plugin n p : steps R (SimState.register_plugin n p).
Proof. unfold SimState.register_plugin. steps_tac. apply R_plugins. Qed.

Lemma steps_get_plugin n : steps R (SimState.get_plugin n).
Proof. unfold SimState.get_plugin. steps_tac. apply steps_register_plugin. Qed.

Lemma steps_release_plugin n : steps R (SimState.release_plugin n).
Proof. unfold SimState.release_plugin. steps_tac. apply R_plugins. Qed.

Lemma steps_call_plugin n f : steps R (SimState.call_plugin n f).
Proof.
  unfold SimState.call_plugin. steps_tac; [apply steps_get_plugin|apply R_plugins].
Qed.

Lemma steps_inspect ev w kw : steps R (SimState._inspect ev w kw).
Proof.
  unfold SimState._inspect. steps_tac;
    [apply steps_has_plugin|apply steps_call_plugin].
Qed.

Lemma steps_inspect_getattr d : steps R (SimState._inspect_getattr_added_constraints d).
Proof.
  unfold SimState._inspect_getattr_added_constraints. steps_tac;
    [apply steps_has_plugin|apply steps_get_plugin].
Qed.

Lemma steps_simplify a : steps R (SimState.simplify a).
Proof. unfold SimState.simplify. steps_tac. apply steps_get_plugin. Qed.

Lemma steps_simplify_all args : steps R (SimState.simplify_all args).
Proof.
  induction args as [|a args IH]; simpl; steps_tac; [apply steps_simplify|apply IH].
Qed.

Lemma steps_add_constraints_track args action :
  steps R (SimState.add_constraints_track args action).
Proof.
  unfold SimState.add_constraints_track.
  steps_tac;
    first [ apply steps_option_on | apply steps_simplify_all | apply steps_inspect
          | apply steps_inspect_getattr | apply steps_get_plugin
          | apply steps_call_plugin | apply R_plugins ].
Qed.

Lemma steps_downsize : steps R SimState.downsize.
Proof.
  unfold SimState.downsize. steps_tac; [apply steps_has_plugin|apply steps_call_plugin].
Qed.

Lemma steps_explicit_conditions mcs : steps R (SimState.explicit_conditions mcs).
Proof.
  induction mcs as [|mc mcs IH]; simpl; steps_tac; [apply steps_get_plugin|apply IH].
Qed.

Lemma steps_merge_branch_conditions n others mcs :
  steps R (SimState.merge_branch_conditions n others mcs).
Proof.
  unfold SimState.merge_branch_conditions.
  steps_tac; first [apply steps_option_on|apply steps_explicit_conditions|apply steps_get_plugin].
Qed.

Lemma steps_merge_body n others mcs ca wl kwargs :
  steps R (SimState.merge_body n others mcs ca wl kwargs).
Proof.
  unfold SimState.merge_body.
  steps_tac; first [apply steps_merge_branch_conditions|apply steps_get_plugin].
Qed.

End PluginSteps.

(** ** What a method leaves alone *)

(** The object differs at most in its plugins. *)
Definition only_plugins s s' : Prop :=
  SimState.arch s' = SimState.arch s
  ∧ SimState.options s' = SimState.options s
  ∧ SimState._satisfiable s' = SimState._satisfiable s
  ∧ SimState._global_condition s' = SimState._global_condition s.

(** The flag is not raised again: once false, it is false afterwards. *)
Definition flag_falls s s' : Prop :=
  SimState._satisfiable s = false → SimState._satisfiable s' = false.

#[local] Instance only_plugins_preorder : PreOrder only_plugins.
Proof.
  split.
  - intros s. by unfold only_plugins.
  - intros s1 s2 s3 (?&?&?&?) (?&?&?&?). unfold only_plugins. split_and!; congruence.
Qed.

#[local] Instance flag_falls_preorder : PreOrder flag_falls.
Proof.
  split.
  - intros s Hf. exact Hf.
  - intros s1 s2 s3 H12 H23 Hf. by apply H23, H12.
Qed.

Lemma only_plugins_set_plugins f s : only_plugins s (SimState.set_plugins f s).
Proof. by destruct s. Qed.

Lemma get_plugin_cases n s :
  (∃ p, SimState.plugins s !! n = Some p ∧ SimState.get_plugin n s = (s, Ok p))
  ∨ (∃ d, SimState.plugins s !! n = None ∧ default_plugins n = Some d
          ∧ SimState.get_plugin n s =
            (SimState.set_plugins (insert n (plugin_init_state d)) s,
             Ok (plugin_init_state d)))
  ∨ (SimState.plugins s !! n = None ∧ default_plugins n = None
     ∧ SimState.get_plugin n s = (s, Raise (KeyError n))).
Proof.
  unfold SimState.get_plugin, bind, get, ret, raise. simpl.
  destruct (SimState.plugins s !! n) as [p|] eqn:Hp.
  - left. by exists p.
  - destruct (default_plugins n) as [d|] eqn:Hd.
    + right; left. exists d. done.
    + right; right. done.
Qed.

(** Once fetched, a plugin is registered. *)
Lemma get_plugin_registered n s s' p :
  SimState.get_plugin n s = (s', Ok p) → SimState.plugins s' !! n = Some p.
Proof.
  destruct (get_plugin_cases n s) as [(q&Hq&E)|[(d&Hn&Hd&E)|(Hn&Hd&E)]];
    rewrite E; intros [= <- <-]; [done|].
  destruct s; simpl. apply lookup_insert_eq.
Qed.

Lemma get_plugin_only_plugins n s :
  only_plugins s (SimState.get_plugin n s).1.
Proof. apply (steps_get_plugin only_plugins), only_plugins_set_plugins. Qed.

(** ** The satisfiability flag *)

(** An argument that the loop under [o.ABSTRACT_SOLVER] finds false. *)
Definition found_false_abstract (arg : ast) : bool :=
  se_is_false arg || (negb (se_is_true arg) && vsa_is_false arg).

(** The mode in which [satisfiable] answers from the flag. *)
Definition approximate_mode s : bool :=
  has_option o.ABSTRACT_SOLVER (SimState.options s)
  || negb (has_option o.SYMBOLIC (SimState.options s)).

(** What [add_constraints] is to find false among its arguments, by mode. *)
Definition found_false s (args : list ast) : bool :=
  if has_option o.ABSTRACT_SOLVER (SimState.options s)
  then existsb found_false_abstract args
  else if negb (has_option o.SYMBOLIC (SimState.options s))
  then existsb se_is_false args
  else false.

Lemma init_flag a pl m opts add_o rem_o os s :
  SimState.init a pl m opts add_o rem_o os = Ok s →
  SimState._satisfiable s = true ∧ SimState._global_condition s = None.
Proof.
  unfold SimState.init.
  destruct (match opts with Some o0 => Some o0 | None => _ end); [|done].
  by intros [= <-].
Qed.

Lemma satisfiable_extra_spec extras s :
  match SimState.satisfiable_extra extras s with
  | (s', Ok early) =>
      only_plugins s s'
      ∧ early = (if existsb se_is_false extras then Some false else None)
  | (s', Raise e) =>
      s' = s ∧ e = KeyError "solver_engine" ∧ extras ≠ []
      ∧ SimState.plugins s !! "solver_engine" = None
      ∧ default_plugins (P := P) "solver_engine" = None
  end.
Proof.
  revert s. induction extras as [|e rest IH]; intros s; simpl.
  - split; [reflexivity|done].
  - unfold bind at 1.
    destruct (get_plugin_cases "solver_engine" s)
      as [(q&Hq&E)|[(d&Hn&Hd&E)|(Hn&Hd&E)]]; rewrite E.
    + destruct (se_is_false e); simpl; [split; [reflexivity|done]|].
      specialize (IH s). destruct (SimState.satisfiable_extra rest s) as [s' [early|x]].
      * done.
      * destruct IH as (_&_&_&Hnone&_). congruence.
    + destruct (se_is_false e); simpl.
      { split; [apply only_plugins_set_plugins|done]. }
      set (s1 := SimState.set_plugins _ s).
      assert (SimState.plugins s1 !! "solver_engine" = Some (plugin_init_state d)) as H1.
      { subst s1. destruct s; simpl. apply lookup_insert_eq. }
      specialize (IH s1). destruct (SimState.satisfiable_extra rest s1) as [s' [early|x]].
      * destruct IH as [Ho ->]. split; [|done].
        etrans; [apply only_plugins_set_plugins|exact Ho].
      * destruct IH as (_&_&_&Hnone&_). congruence.
    + done.
Qed.

Lemma satisfiable_approximate extras s :
  approximate_mode s = true →
  match SimState.satisfiable extras s with
  | (s', Ok b) =>
      only_plugins s s'
      ∧ b = (if existsb se_is_false extras then false else SimState._satisfiable s)
  | (s', Raise e) =>
      s' = s ∧ e = KeyError "solver_engine" ∧ extras ≠ []
      ∧ SimState.plugins s !! "solver_engine" = None
      ∧ default_plugins (P := P) "solver_engine" = None
  end.
Proof.
  unfold approximate_mode, SimState.satisfiable, SimState.option_on, bind at 1 2.
  intros ->. unfold bind.
  pose proof (satisfiable_extra_spec extras s) as Hx.
  destruct (SimState.satisfiable_extra extras s) as [s' [early|x]]; [|done].
  destruct Hx as [Ho ->]. destruct (existsb se_is_false extras); simpl.
  - done.
  - split; [done|]. destruct Ho as (_&_&Hf&_). done.
Qed.

Lemma satisfiable_symbolic extras s :
  approximate_mode s = false →
  SimState.satisfiable extras s =
  match SimState.get_plugin "solver_engine" s with
  | (s', Ok se) => (s', Ok (se_satisfiable se extras))
  | (s', Raise e) => (s', Raise e)
  end.
Proof.
  unfold approximate_mode, SimState.satisfiable, SimState.option_on, bind at 1 2.
  intros ->. unfold bind, ret.
  by destruct (SimState.get_plugin "solver_engine" s) as [s' [se|x]].
Qed.

(** The flag after a run that leaves everything but the plugins alone. *)
Lemma steps_only_plugins_flag {A} (m : M (SimState.t P) A) s :
  steps only_plugins m →
  SimState._satisfiable (m s).1 = SimState._satisfiable s
  ∧ SimState.options (m s).1 = SimState.options s.
Proof. intros Hm. destruct (Hm s) as (_&?&?&_). done. Qed.

Lemma add_constraints_nonsymbolic_flag args s :
  match SimState.add_constraints_nonsymbolic args s with
  | (s', Ok _) =>
      SimState._satisfiable s' =
      (if existsb se_is_false args then false else SimState._satisfiable s)
  | (s', Raise _) => SimState._satisfiable s' = SimState._satisfiable s
  end.
Proof.
  revert s. induction args as [|arg rest IH]; intros s; simpl; [done|].
  unfold bind at 1.
  pose proof (get_plugin_only_plugins "solver_engine" s) as (_&_&Hf&_).
  destruct (SimState.get_plugin "solver_engine" s) as [s1 [se|x]]; simpl in *; [|done].
  destruct (se_is_false arg); simpl; [done|].
  specialize (IH s1). rewrite Hf in IH. exact IH.
Qed.

Lemma steps_abstract_apply se arg :
  steps only_plugins
    (for_each (se_constraint_to_si se arg) (λ '(original_expr, constrained_si),
       if negb (has_variables original_expr) then ret tt
       else
         SimState.call_plugin "registers"
           (λ r, registers_replace_all r original_expr constrained_si) >>
         SimState.call_plugin "memory"
           (λ m, memory_replace_all m original_expr constrained_si))).
Proof.
  steps_tac; apply (steps_call_plugin only_plugins), only_plugins_set_plugins.
Qed.

Lemma add_constraints_abstract_flag args s :
  match SimState.add_constraints_abstract args s with
  | (s', Ok _) =>
      SimState._satisfiable s' =
      (if existsb found_false_abstract args then false else SimState._satisfiable s)
  | (s', Raise _) => SimState._satisfiable s' = SimState._satisfiable s
  end.
Proof.
  revert s. induction args as [|arg rest IH]; intros s; simpl; [done|].
  unfold found_false_abstract at 1.
  unfold bind at 1.
  pose proof (get_plugin_only_plugins "solver_engine" s) as (_&_&Hf&_).
  destruct (SimState.get_plugin "solver_engine" s) as [s1 [se|x]]; simpl in *; [|done].
  destruct (se_is_false arg); simpl; [done|].
  unfold bind at 1.
  pose proof (get_plugin_only_plugins "solver_engine" s1) as (_&_&Hf1&_).
  destruct (SimState.get_plugin "solver_engine" s1) as [s2 [se2|x]]; simpl in *;
    [|congruence].
  destruct (se_is_true arg); simpl.
  { specialize (IH s2). rewrite Hf1, Hf in IH. exact IH. }
  destruct (vsa_is_false arg); simpl; [done|].
  destruct (vsa_is_true arg); simpl.
  { specialize (IH s2). rewrite Hf1, Hf in IH. exact IH. }
  unfold bind at 1.
  pose proof (get_plugin_only_plugins "solver_engine" s2) as (_&_&Hf2&_).
  destruct (SimState.get_plugin "solver_engine" s2) as [s3 [se3|x]]; simpl in *;
    [|congruence].
  unfold bind at 1.
  pose proof (steps_abstract_apply se3 arg s3) as (_&_&Hf3&_).
  match goal with
  | |- context [for_each ?l ?b s3] => destruct (for_each l b s3) as [s4 [[]|x]]
  end; simpl in *; [|congruence].
  specialize (IH s4). rewrite Hf3, Hf2, Hf1, Hf in IH. exact IH.
Qed.

(** The flag after [add_constraints]: in the two approximate modes a
    returning call clears it exactly when an argument is found false; a
    call that raises, and any call in the ordinary mode, leaves it as it
    was. *)
Lemma add_constraints_flag args action s :
  match SimState.add_constraints args action s with
  | (s', Ok _) =>
      SimState._satisfiable s' =
      (if found_false s args then false else SimState._satisfiable s)
  | (s', Raise _) => SimState._satisfiable s' = SimState._satisfiable s
  end.
Proof.
  unfold SimState.add_constraints. unfold bind at 1.
  pose proof (steps_only_plugins_flag (SimState.add_constraints_track args action) s
                (steps_add_constraints_track only_plugins only_plugins_set_plugins _ _))
    as [Hf Ho].
  destruct (SimState.add_constraints_track args action s) as [s1 [[]|x]];
    simpl in *; [|done].
  unfold SimState.option_on, bind at 1 2. unfold found_false. rewrite Ho.
  destruct args as [|a args].
  { simpl. rewrite !andb_false_r. simpl. rewrite Hf. by repeat case_match. }
  change (nonempty (a :: args)) with true. rewrite !andb_true_r.
  destruct (has_option o.ABSTRACT_SOLVER (SimState.options s)).
  - pose proof (add_constraints_abstract_flag (a :: args) s1) as H1.
    destruct (SimState.add_constraints_abstract (a :: args) s1) as [s2 [[]|x]];
      rewrite Hf in H1; exact H1.
  - destruct (has_option o.SYMBOLIC (SimState.options s)); cbn [negb andb].
    + unfold ret. simpl. done.
    + pose proof (add_constraints_nonsymbolic_flag (a :: args) s1) as H1.
      destruct (SimState.add_constraints_nonsymbolic (a :: args) s1) as [s2 [[]|x]];
        rewrite Hf in H1; exact H1.
Qed.

(** ** Every method, stepwise *)

Section RunSteps.
Context (R : SimState.t P → SimState.t P → Prop) `{!PreOrder R}.
Context (R_plugins : ∀ f s, R s (SimState.set_plugins f s)).
Context (R_flag : ∀ s, R s (SimState.set_satisfiable false s)).
Context (R_options : ∀ f s, R s (SimState.set_options f s)).
Context (R_mode : ∀ m s, R s (SimState.set_mode_field m s)).
Context (R_condition : ∀ c s, R s (SimState.set_global_condition c s)).

Lemma steps_add_constraints_abstract args :
  steps R (SimState.add_constraints_abstract args).
Proof.
  induction args as [|arg rest IH]; simpl; steps_tac;
    first [ apply (steps_get_plugin R) | apply (steps_call_plugin R) | apply R_flag
          | exact IH | idtac ]; done.
Qed.

Lemma steps_add_constraints_nonsymbolic args :
  steps R (SimState.add_constraints_nonsymbolic args).
Proof.
  induction args as [|arg rest IH]; simpl; steps_tac;
    first [ by apply (steps_get_plugin R) | apply R_flag | exact IH ].
Qed.

Lemma steps_add_constraints args action :
  steps R (SimState.add_constraints args action).
Proof.
  unfold SimState.add_constraints. steps_tac;
    first [ by apply (steps_add_constraints_track R) | apply (steps_option_on R)
          | apply steps_add_constraints_abstract
          | apply steps_add_constraints_nonsymbolic ].
Qed.

Lemma steps_satisfiable_extra extras : steps R (SimState.satisfiable_extra extras).
Proof.
  induction extras as [|e rest IH]; simpl; steps_tac;
    first [ by apply (steps_get_plugin R) | exact IH ].
Qed.

Lemma steps_satisfiable extras : steps R (SimState.satisfiable extras).
Proof.
  unfold SimState.satisfiable. steps_tac;
    first [ apply (steps_option_on R) | apply steps_satisfiable_extra
          | by apply (steps_get_plugin R) | intros s; reflexivity ].
Qed.

Lemma steps_set_mode m : steps R (SimState.set_mode m).
Proof.
  unfold SimState.set_mode. steps_tac; first [apply R_mode|apply R_options].
Qed.

Lemma steps_with_condition {A} c (body : M (SimState.t P) A) :
  steps R body → steps R (SimState.with_condition c body).
Proof.
  intros Hb s. unfold SimState.with_condition.
  apply (steps_try_finally R); [|apply R_condition].
  steps_tac; first [ by apply (steps_get_plugin R) | apply R_condition | exact Hb ].
Qed.

Lemma steps_discard {A} (m : M (SimState.t P) A) :
  steps R m → steps R (SimState.discard m).
Proof. intros Hm. unfold SimState.discard. by steps_tac. Qed.

Lemma steps_run : ∀ op, steps R (SimState.run op).
Proof.
  fix IH 1. intros [args action|extra|n|n p|n|a| |m| |n others mcs ca wl kw|others|c body];
    simpl.
  - apply steps_add_constraints.
  - apply steps_discard, steps_satisfiable.
  - by apply steps_discard, (steps_get_plugin R).
  - by apply steps_discard, (steps_register_plugin R).
  - by apply (steps_release_plugin R).
  - by apply steps_discard, (steps_simplify R).
  - by apply (steps_downsize R).
  - apply steps_set_mode.
  - intros s. reflexivity.
  - by apply steps_discard, (steps_merge_body R).
  - intros s. reflexivity.
  - apply steps_with_condition.
    induction body as [|op' rest IHb].
    + apply (steps_ret R).
    + apply (steps_bind R); [apply IH|intros _; exact IHb].
Qed.

Lemma steps_run_all ops s : R s (SimState.run_all ops s).
Proof.
  unfold SimState.run_all. revert s.
  induction ops as [|op ops IHo]; intros s; simpl; [reflexivity|].
  etrans; [apply (steps_run op s)|apply IHo].
Qed.

End RunSteps.

(** C6.  The satisfiability flag [_satisfiable]:
    - a freshly constructed state has it true;
    - in abstract-solver mode, or without the symbolic option,
      [satisfiable] answers false as soon as an extra constraint is
      decidably false and otherwise answers the flag, whatever the solver's
      own [satisfiable] would say (the only other outcome is the [KeyError]
      of a state that has no solver plugin and cannot default-construct
      one);
    - [add_constraints] clears it exactly when, in one of these two modes,
      an added constraint is found false, and leaves it alone otherwise;
    - over any sequence of method calls on the state, once false it stays
      false. *)
Theorem satisfiable_flag_only_falls :
  (∀ a pl m opts add_o rem_o os s,
     SimState.init (P := P) a pl m opts add_o rem_o os = Ok s →
     SimState._satisfiable s = true)
  ∧ (∀ extras s,
       approximate_mode s = true →
       match SimState.satisfiable extras s with
       | (s', Ok b) =>
           SimState._satisfiable s' = SimState._satisfiable s
           ∧ b = (if existsb se_is_false extras then false
                  else SimState._satisfiable s)
       | (s', Raise e) =>
           s' = s ∧ e = KeyError "solver_engine" ∧ extras ≠ []
           ∧ SimState.plugins s !! "solver_engine" = None
           ∧ default_plugins (P := P) "solver_engine" = None
       end)
  ∧ (∀ args action s,
       match SimState.add_constraints args action s with
       | (s', Ok _) =>
           SimState._satisfiable s' =
           (if found_false s args then false else SimState._satisfiable s)
       | (s', Raise _) => SimState._satisfiable s' = SimState._satisfiable s
       end)
  ∧ (∀ ops s,
       SimState._satisfiable s = false →
       SimState._satisfiable (SimState.run_all ops s) = false).
Proof.
  split_and!.
  - intros a pl m opts add_o rem_o os s Hi. by apply init_flag in Hi as [? _].
  - intros extras s Ha. pose proof (satisfiable_approximate extras s Ha) as Hs.
    destruct (SimState.satisfiable extras s) as [s' [b|e]]; [|done].
    destruct Hs as [(_&_&Hf&_) ->]. done.
  - apply add_constraints_flag.
  - intros ops s. apply (steps_run_all flag_falls); intros; intros Hf; first [exact Hf|reflexivity].
Qed.

(** ** The global condition *)

Lemma set_global_condition_same s :
  SimState.set_global_condition (SimState._global_condition s) s = s.
Proof. by destruct s. Qed.

(** C9.  [with_condition] nests and always restores.  Whatever the body
    does and whether it returns or raises, the state leaves the scope with
    the global condition it entered with, and the body's outcome is the
    scope's outcome.  The body runs under [c] when no condition was
    active, and under the conjunction of the active condition with [c]
    otherwise (fetching the solver to build the conjunction is the only
    thing that can fail before the body runs, and then too the condition
    is as before). *)
Theorem with_condition_nests_and_restores {A} (c : ast)
    (body : M (SimState.t P) A) s :
  SimState._global_condition (SimState.with_condition c body s).1
  = SimState._global_condition s
  ∧ match SimState._global_condition s with
    | None =>
        SimState.with_condition c body s =
        (let '(s', r) := body (SimState.set_global_condition (Some c) s) in
         (SimState.set_global_condition None s', r))
    | Some old =>
        match SimState.get_plugin "solver_engine" s with
        | (s1, Ok _) =>
            SimState.with_condition c body s =
            (let '(s', r) :=
               body (SimState.set_global_condition (Some (And [old; c])) s1) in
             (SimState.set_global_condition (Some old) s', r))
        | (_, Raise e) => SimState.with_condition c body s = (s, Raise e)
        end
    end.
Proof.
  split.
  - unfold SimState.with_condition, try_finally.
    match goal with |- context [let '(_, _) := ?m s in _] => destruct (m s) end.
    by destruct t.
  - unfold SimState.with_condition, try_finally.
    destruct (SimState._global_condition s) as [old|] eqn:Hg.
    + unfold bind, modify, ret.
      destruct (get_plugin_cases "solver_engine" s)
        as [(q&Hq&E)|[(d&Hn&Hd&E)|(Hn&Hd&E)]]; rewrite !E; simpl.
      * done.
      * done.
      * rewrite <- Hg. by rewrite set_global_condition_same.
    + unfold bind, modify, ret. simpl. done.
Qed.

(** Two nested scopes, entered with no condition active and with a solver
    plugin at hand: the body runs under the conjunction, and the state ends
    with no condition. *)
Lemma with_condition_nested {A} (c1 c2 : ast) (body : M (SimState.t P) A) s se :
  SimState._global_condition s = None →
  SimState.plugins s !! "solver_engine" = Some se →
  SimState.with_condition c1 (SimState.with_condition c2 body) s =
  (let '(s', r) :=
     body (SimState.set_global_condition (Some (And [c1; c2])) s) in
   (SimState.set_global_condition None s', r)).
Proof.
  intros Hg Hse.
  destruct (with_condition_nests_and_restores c1 (SimState.with_condition c2 body) s)
    as [_ H1]. rewrite Hg in H1. rewrite H1. clear H1.
  set (s1 := SimState.set_global_condition (Some c1) s).
  destruct (with_condition_nests_and_restores c2 body s1) as [_ H2].
  assert (SimState.get_plugin "solver_engine" s1 = (s1, Ok se)) as E.
  { destruct (get_plugin_cases "solver_engine" s1)
      as [(q&Hq&E)|[(d&Hn&Hd&E)|(Hn&Hd&E)]].
    - rewrite E. subst s1. destruct s; simpl in *. congruence.
    - subst s1. destruct s; simpl in *. congruence.
    - subst s1. destruct s; simpl in *. congruence. }
  change (SimState._global_condition s1) with (Some c1) in H2.
  rewrite E in H2. rewrite H2.
  assert (SimState.set_global_condition (Some (And [c1; c2])) s1
          = SimState.set_global_condition (Some (And [c1; c2])) s) as ->.
  { subst s1. by destruct s. }
  destruct (body _) as [s' r]. by destruct s'.
Qed.

(** ** Copying *)

(** Apart from the default memory and register file, the plugins of a copy
    are the copies of the plugins, registered. *)
Lemma copy_plugins_lookup self c n :
  SimState.copy self = Ok c → n ≠ "memory" → n ≠ "registers" →
  SimState.plugins c !! n =
  plugin_init_state <$> (plugin_copy <$> SimState.plugins self !! n).
Proof.
  unfold SimState.copy, SimState.init, SimState._copy_plugins.
  destruct (SimState._global_condition self); [done|]. simpl.
  intros [= <-] Hm Hr. simpl.
  repeat case_match; rewrite ?lookup_insert_ne by done;
    by rewrite !lookup_fmap.
Qed.

Lemma copy_fresh self c :
  SimState.copy self = Ok c →
  SimState._satisfiable c = true ∧ SimState._global_condition c = None
  ∧ SimState.arch c = SimState.arch self
  ∧ SimState.options c = SimState.options self.
Proof.
  unfold SimState.copy, SimState.init.
  destruct (SimState._global_condition self); [done|]. simpl.
  intros [= <-]. simpl. split_and!; [done..|].
  by rewrite union_empty_r_L, difference_empty_L.
Qed.

(** ** Widening *)

(** What holds of the frame of [widen] throughout the plugin loop, given
    the solver and unicorn plugins [se] and [uc] of the fresh copy. *)
Definition widen_invariant (se uc : option P) (fr : SimState.widen_frame) : Prop :=
  SimState.plugins (SimState.widened fr) !! "solver_engine" = se
  ∧ SimState.plugins (SimState.widened fr) !! "unicorn" = uc
  ∧ (∀ p b, (p, b) ∈ SimState.widen_calls fr → p ≠ "solver_engine" ∧ p ≠ "unicorn")
  ∧ (SimState.widening_occurred fr = true ↔ ∃ p, (p, true) ∈ SimState.widen_calls fr).

Definition keeps {S} (I : S → Prop) (a b : S) : Prop := I a → I b.

#[local] Instance keeps_preorder {S} (I : S → Prop) : PreOrder (keeps I).
Proof.
  split; [intros a Ha; exact Ha|]. intros a b c Hab Hbc Ha. by apply Hbc, Hab.
Qed.

Lemma widen_plugin_keeps se uc others p :
  steps (keeps (widen_invariant se uc)) (SimState.widen_plugin others p).
Proof.
  intros fr. unfold SimState.widen_plugin.
  case_bool_decide as Hp; [by intros ?|].
  unfold bind, get, put, raise. simpl.
  destruct (SimState.plugins (SimState.widened fr) !! p) as [ours|];
    [|by intros ?].
  destruct (SimState.plugins_named p others) as [theirs|]; [|by intros ?].
  destruct (plugin_widen ours theirs) as [ours' b]. simpl.
  assert (p ≠ "solver_engine" ∧ p ≠ "unicorn") as [Hse Huc].
  { split; intros ->; apply Hp; set_solver. }
  intros (H1&H2&H3&H4). unfold widen_invariant. simpl.
  destruct fr as [w occ calls]; simpl in *. split_and!.
  - destruct w; simpl in *. by rewrite lookup_insert_ne.
  - destruct w; simpl in *. by rewrite lookup_insert_ne.
  - intros q c [Hin|Hin%list_elem_of_singleton]%elem_of_app; [by eapply H3|].
    by injection Hin as -> ->.
  - split.
    + intros Ho. destruct b.
      * exists p. apply elem_of_app. right. by apply list_elem_of_singleton.
      * apply H4 in Ho as [q Hq]. exists q. apply elem_of_app. by left.
    + intros [q [Hin|Hin%list_elem_of_singleton]%elem_of_app].
      * destruct b; [done|]. apply H4. by exists q.
      * by injection Hin as -> <-.
Qed.

(** C7.  [widen] never calls the [widen] method of the solver plugin (nor
    of the unicorn plugin): no call it makes names either, on runs that
    return and on runs that raise alike.  When it returns, the solver
    plugin of the widened state is the one [copy] gave it, that is the
    registered copy of the receiver's, and the returned flag is true
    exactly when one of the calls made, all to other plugins, returned
    true. *)
Theorem widen_skips_solver self (others : list (SimState.t P)) :
  let r := SimState.widen_traced self others in
  (∀ p b, (p, b) ∈ r.1 → p ≠ "solver_engine" ∧ p ≠ "unicorn")
  ∧ match r.2 with
    | Ok (w, occurred) =>
        (∃ c, SimState.copy self = Ok c
              ∧ SimState.plugins w !! "solver_engine"
                = SimState.plugins c !! "solver_engine"
              ∧ SimState.plugins w !! "unicorn" = SimState.plugins c !! "unicorn")
        ∧ SimState.plugins w !! "solver_engine"
          = plugin_init_state <$>
              (plugin_copy <$> SimState.plugins self !! "solver_engine")
        ∧ (occurred = true ↔
           ∃ p, (p, true) ∈ r.1 ∧ p ≠ "solver_engine" ∧ p ≠ "unicorn")
    | Raise _ => True
    end.
Proof.
  cbv zeta. unfold SimState.widen_traced.
  destruct (SimState.plugin_sets_differ others); [split; [set_solver|done]|].
  destruct (SimState.architectures_differ others); [split; [set_solver|done]|].
  destruct (SimState.copy self) as [c|e] eqn:Hc; [|split; [set_solver|done]].
  set (fr0 := SimState.WidenFrame c false []).
  pose proof (steps_for_each
                (keeps (widen_invariant (SimState.plugins c !! "solver_engine")
                                        (SimState.plugins c !! "unicorn")))
                (map_to_list (SimState.plugins self)).*1
                (SimState.widen_plugin others)
                (widen_plugin_keeps _ _ others) fr0) as Hinv.
  destruct (for_each _ _ fr0) as [fr r]. simpl in Hinv |- *.
  destruct Hinv as (H1&H2&H3&H4).
  { unfold widen_invariant, fr0. simpl. split_and!; [done|done|set_solver|].
    split; [done|]. intros [p Hp]. set_solver. }
  split; [exact H3|].
  destruct r as [[]|e]; [|done]. split_and!.
  - by exists c.
  - rewrite H1. by apply copy_plugins_lookup.
  - rewrite H4. split.
    + intros [p Hp]. exists p. split; [done|]. by eapply H3.
    + intros (p&Hp&_). by exists p.
Qed.

(** ** Merging *)

Lemma bind_Ok_inv {S A B} (m : M S A) (k : A → M S B) (x x' : S) (b : B) :
  bind m k x = (x', Ok b) → ∃ a y, m x = (y, Ok a) ∧ k a y = (x', Ok b).
Proof.
  unfold bind. destruct (m x) as [y [a|e]]; [|done]. intros Hk. by exists a, y.
Qed.

(** A returning [merge_into] ends with the call of [add_constraints] on
    the disjunction of the branch conditions. *)
Lemma merge_into_constrains h names (others : list (SimState.t P)) conditions ca m m' occ :
  SimState.merge_into h names others conditions ca m = (m', Ok occ) →
  ∃ m0, SimState.add_constraints [Or conditions] false m0 = (m', Ok tt).
Proof.
  unfold SimState.merge_into.
  intros (?&m1&_&H1)%bind_Ok_inv.
  apply bind_Ok_inv in H1 as (occ'&m2&_&H2).
  apply bind_Ok_inv in H2 as (se&m3&_&H3).
  apply bind_Ok_inv in H3 as ([]&m4&H4&H5).
  injection H5 as <- _. by exists m3.
Qed.

(** The conditions made for [n] others: one comparison of the discriminant
    with each of 0, ..., n. *)
Definition discriminant_conditions (merge_flag : ast) (n : nat) : list ast :=
  (λ i, Eq merge_flag (BVV (Z.of_nat i) 16)) <$> seq 0 (n + 1).

Lemma merge_branch_conditions_fresh counter (others : list (SimState.t P)) self :
  SimState.merge_branch_conditions counter others None self =
  match SimState.get_plugin "solver_engine" self with
  | (self', Ok _) =>
      (self', Ok (S counter,
                  discriminant_conditions (BVS (SimState.state_merge_name counter) 16)
                    (length others)))
  | (self', Raise e) => (self', Raise e)
  end.
Proof.
  unfold SimState.merge_branch_conditions, SimState.option_on, bind, ret. simpl.
  by destruct (SimState.get_plugin "solver_engine" self) as [self' [se|e]].
Qed.

Lemma state_merge_name_inj : Inj (=) (=) SimState.state_merge_name.
Proof.
  intros n1 n2 Hn. unfold SimState.state_merge_name in Hn.
  apply (inj (String.app "state_merge_")) in Hn. by apply (inj pretty) in Hn.
Qed.

(** C1.  A returning [merge] that is given no merge conditions has taken
    the next value of [merge_counter] to name one discriminant variable (a
    name no other counter value yields), returns exactly [len(others)+1]
    branch conditions, the i-th comparing the discriminant with [i], and
    hands back the merged state as [add_constraints] left it when called
    with the disjunction of these conditions. *)
Theorem merge_synthesizes_discriminant counter self (others : list (SimState.t P))
    (common_ancestor : option (SimState.t P)) (plugin_whitelist : option (list string)) :
  let merge_flag := BVS (SimState.state_merge_name counter) 16 in
  match SimState.merge counter self others None common_ancestor plugin_whitelist [] with
  | (counter', _, Ok (merged, conditions, _)) =>
      counter' = S counter
      ∧ (∀ n, SimState.state_merge_name n = SimState.state_merge_name counter →
              n = counter)
      ∧ length conditions = length others + 1
      ∧ (∀ i, i < length others + 1 →
              conditions !! i = Some (Eq merge_flag (BVV (Z.of_nat i) 16)))
      ∧ ∃ m0, SimState.add_constraints [Or conditions] false m0 = (merged, Ok tt)
  | (_, _, Raise _) => True
  end.
Proof.
  cbv zeta. unfold SimState.merge, SimState.merge_counter_after, SimState.merge_body.
  change (nonempty (@nil string)) with false. cbv iota.
  unfold bind at 1. rewrite merge_branch_conditions_fresh.
  destruct (SimState.get_plugin "solver_engine" self) as [self1 [se|e]]; [|done].
  destruct (SimState.architectures_differ others); [done|].
  unfold bind, get, raise, ret.
  destruct (SimState.all_plugin_names self1 others) as [names|e]; [|done].
  destruct (SimState.copy self1) as [merged0|e]; [|done].
  destruct (SimState.get_plugin "history" self1) as [self2 [h|e]]; [|done].
  match goal with
  | |- context [SimState.merge_into ?a ?b ?c ?d ?e ?f] =>
      destruct (SimState.merge_into a b c d e f) as [merged [occ|e']] eqn:Hm
  end; [|done].
  split_and!.
  - done.
  - intros n Hn. by apply state_merge_name_inj in Hn.
  - unfold discriminant_conditions. by rewrite length_fmap, length_seq.
  - intros i Hi. unfold discriminant_conditions.
    rewrite list_lookup_fmap, lookup_seq_lt by done. done.
  - by eapply merge_into_constrains.
Qed.

Lemma bind_run {S A B} (m : M S A) (k : A → M S B) (x y : S) (a : A) :
  m x = (y, Ok a) → bind m k x = k a y.
Proof. intros Hm. unfold bind. by rewrite Hm. Qed.

Lemma inspect_absent ev w kw s :
  SimState.plugins s !! "inspector" = None →
  SimState._inspect ev w kw s = (s, Ok tt).
Proof.
  intros Hi. unfold SimState._inspect, SimState.has_plugin, bind. rewrite Hi.
  rewrite bool_decide_eq_false_2; [done|]. by intros [? ?].
Qed.

Lemma inspect_getattr_absent d s :
  SimState.plugins s !! "inspector" = None →
  SimState._inspect_getattr_added_constraints d s = (s, Ok d).
Proof.
  intros Hi. unfold SimState._inspect_getattr_added_constraints,
    SimState.has_plugin, bind.
  rewrite Hi. rewrite bool_decide_eq_false_2; [done|]. by intros [? ?].
Qed.

(** X30. With constraint tracking on, no inspector and no simplification,
    in the ordinary (symbolic) mode, [add_constraints] hands its arguments
    to the solver by [se.add] and changes nothing else of the state: the
    flag, the options and every other plugin are as before. *)
Lemma add_constraints_tracked args s se :
  nonempty args = true →
  SimState.options s = {[o.SYMBOLIC; o.TRACK_CONSTRAINTS]} →
  SimState.plugins s !! "inspector" = None →
  SimState.plugins s !! "solver_engine" = Some se →
  SimState.add_constraints args false s =
  (SimState.set_plugins (insert "solver_engine" (se_add se args).1) s, Ok tt).
Proof.
  intros Hargs Ho Hi Hse.
  assert (SimState.get_plugin "solver_engine" s = (s, Ok se)) as Hget.
  { unfold SimState.get_plugin, bind, get, ret. cbv beta. by rewrite Hse. }
  set (opts := {[o.SYMBOLIC; o.TRACK_CONSTRAINTS]} : gset string) in *.
  assert (∀ opt b s0, SimState.options s0 = opts → has_option opt opts = b →
            SimState.option_on opt s0 = (s0, Ok b)) as Hopt.
  { intros opt b s0 H0 <-. unfold SimState.option_on. by rewrite H0. }
  set (s' := SimState.set_plugins (insert "solver_engine" (se_add se args).1) s).
  assert (SimState.plugins s' !! "inspector" = None) as Hi'.
  { subst s'. destruct s; cbn [SimState.set_plugins SimState.plugins] in *.
    by rewrite lookup_insert_ne. }
  assert (SimState.options s' = opts) as Ho' by (subst s'; by destruct s).
  assert (SimState.add_constraints_track args false s = (s', Ok tt)) as Htrack.
  { unfold SimState.add_constraints_track.
    rewrite (bind_run _ _ s s true) by (by apply Hopt).
    rewrite Hargs. cbn [andb].
    rewrite (bind_run _ _ s s false) by (by apply Hopt).
    rewrite (bind_run _ _ s s args) by done.
    rewrite (bind_run _ _ s s tt) by (by apply inspect_absent).
    rewrite (bind_run _ _ s s args) by (by apply inspect_getattr_absent).
    rewrite (bind_run _ _ s s se) by done.
    subst s'. destruct (se_add se args) as [se' added]. cbn [fst].
    rewrite (bind_run _ _ s _ tt) by done.
    rewrite (bind_run _ _ _ _ tt) by (by apply inspect_absent).
    by rewrite (bind_run _ _ _ _ false) by (by apply Hopt). }
  unfold SimState.add_constraints.
  rewrite (bind_run _ _ s s' tt) by done.
  rewrite (bind_run _ _ s' s' false) by (by apply Hopt).
  by rewrite (bind_run _ _ s' s' true) by (by apply Hopt).
Qed.

End StateFacts.

(** ** The architecture check of [merge] and [widen] *)

Section ArchitectureCheck.
Context {P : Type} `{!StatePlugin P, !Collaborators P}.

(** The check passes exactly when there is at least one other state and
    the others agree on the architecture name; the receiver takes no part
    in it. *)
Lemma architectures_differ_spec (others : list (SimState.t P)) :
  SimState.architectures_differ others = false ↔
  others ≠ [] ∧ ∃ a, Forall (λ other, name (SimState.arch other) = a) others.
Proof.
  unfold SimState.architectures_differ.
  set (names := (λ other : SimState.t P, name (SimState.arch other)) <$> others).
  rewrite negb_false_iff, Nat.eqb_eq. split.
  - intros Hsize. apply size_1_elem_of in Hsize as [a Ha]. split.
    + intros ->. subst names. simpl in Ha.
      assert (a ∈ (∅ : gset string)) as Hin by (rewrite Ha; set_solver).
      set_solver.
    + exists a. apply Forall_forall. intros other Hin.
      assert (name (SimState.arch other) ∈ (list_to_set names : gset string)) as Hn.
      { apply elem_of_list_to_set. subst names. apply list_elem_of_fmap.
        by exists other. }
      rewrite Ha in Hn. by apply elem_of_singleton in Hn.
  - intros [Hne [a Hall]].
    assert ((list_to_set names : gset string) = {[a]}) as ->.
    { apply set_eq. intros x. rewrite elem_of_list_to_set, elem_of_singleton.
      subst names. rewrite list_elem_of_fmap. split.
      - intros (other & -> & Hin). rewrite Forall_forall in Hall. by apply Hall.
      - intros ->. destruct others as [|other others]; [done|].
        exists other. split; [|by left]. symmetry. by apply (Forall_inv Hall). }
    apply size_singleton.
Qed.

End ArchitectureCheck.

(** C3 (the code departs from the claim).  A receiver of architecture X86
    merged with one other state of architecture ARMEL: the two differ, the
    architecture check finds nothing wrong, and [merge] returns a merged
    state.  With no other state at all the same check fails, although a
    single participant trivially shares one architecture. *)
Theorem merge_ignores_receiver_architecture :
  let opts := Reference.symbolic_options in
  let self := Reference.state "X86" opts [] in
  let other := Reference.state "ARMEL" opts [] in
  name (SimState.arch self) ≠ name (SimState.arch other)
  ∧ SimState.architectures_differ [other] = false
  ∧ is_Ok (SimState.merge 0 self [other] None None None []).2 = true
  ∧ (SimState.merge 0 self [] None None None []).2
    = Raise (SimMergeError "Unable to merge due to different architectures.").
Proof. cbv zeta. split_and!; [done|by vm_compute..]. Qed.

(** ** Runs on reference states *)

(** Merging two reference states: the solver of the merged state ends
    with the disjunction of the two branch conditions. *)
Example merge_reference_example :
  let opts := Reference.symbolic_options in
  let flag := BVS "state_merge_7" 16 in
  match SimState.merge 7 (Reference.state "AMD64" opts [BoolS "a"])
          [Reference.state "AMD64" opts [BoolS "b"]] None None None [] with
  | (counter, _, Ok (merged, conditions, occurred)) =>
      counter = 8
      ∧ conditions = [Eq flag (BVV 0 16); Eq flag (BVV 1 16)]
      ∧ Reference.held <$> SimState.plugins merged !! "solver_engine"
        = Some [BoolS "a"; BoolS "b"; Or conditions]
      ∧ occurred = true
  | _ => False
  end.
Proof. by vm_compute. Qed.

(** Widening a reference state, every plugin of which reports a change:
    scratch, memory and registers are widened, the solver is not, and its
    constraints are those of the receiver. *)
Example widen_reference_example :
  let opts := Reference.symbolic_options in
  match SimState.widen_traced (Reference.state "AMD64" opts [BoolS "a"])
          [Reference.state "AMD64" opts [BoolS "b"]] with
  | (calls, Ok (w, occurred)) =>
      calls = [("scratch", true); ("memory", true); ("registers", true)]
      ∧ occurred = true
      ∧ Reference.held <$> SimState.plugins w !! "solver_engine" = Some [BoolS "a"]
  | _ => False
  end.
Proof. by vm_compute. Qed.

(* ===================================================================== *)
(** * Properties of [SimEngineVEX]                                        *)
(* ===================================================================== *)

Section EngineFacts.
Context {P C Q : Type}.
Context `{!StatePlugin P, !Collaborators P, !ScratchPlugin P, !EngineCollaborators P C Q}.
Implicit Types (w : SimEngineVEX.world P Q) (e : SimEngineVEX.t) (p : SimEngineVEX.prepared).

(** ** The caps of [lift] *)




Lemma on_engine_state f w :
  SimEngineVEX.on_engine f w
  = (SimEngineVEX.World (f (SimEngineVEX.engine w)) (SimEngineVEX.state w)
       (SimEngineVEX.successors w), Ok tt).
Proof. done. Qed.

(** What phases 0 to 2 return, when they return. *)
Lemma lift_prepare_Ok (clemory : option C) insn_bytes arch addr size num_inst thumb
    opt_level w w' p :
  SimEngineVEX.lift_prepare clemory insn_bytes arch addr size num_inst thumb opt_level w
  = (w', Ok p) →
  SimEngineVEX.p_size p = SimEngineVEX.effective_size size
  ∧ SimEngineVEX.p_num_inst p
    = SimEngineVEX.effective_num_inst
        (SimEngineVEX._single_step (SimEngineVEX.engine w')) num_inst.
Proof.
  unfold SimEngineVEX.lift_prepare.
  intros (w0 & y0 & [= <- <-] & H)%bind_Ok_inv.
  destruct (_ && _ && negb _); [done|].
  destruct (_ && _ && is_none arch); [done|].
  destruct (is_none addr && _); [done|].
  destruct (SimEngineVEX.resolve_arch _ _ _) as [arch'|]; [|done].
  destruct (SimEngineVEX.resolve_addr _ _) as [addr'|]; [|done].
  apply bind_Ok_inv in H as ([] & y1 & _ & H).
  apply bind_Ok_inv in H as (w1 & y2 & [= <- <-] & H).
  apply bind_Ok_inv in H as (ol & y3 & Hopt & H).
  assert (SimEngineVEX.engine y3 = SimEngineVEX.engine y1) as He.
  { destruct (_ && (0 <? _)%Z); [|by injection Hopt as <-].
    apply bind_Ok_inv in Hopt as ([] & y4 & Hrm & [= <- _]).
    destruct (SimEngineVEX.optimize_ir_set _); [|by injection Hrm as <-].
    unfold SimEngineVEX.remove_optimize_ir, SimEngineVEX.on_state in Hrm.
    destruct (SimEngineVEX.state y1); [|done].
    unfold modify in Hrm. by injection Hrm as <-. }
  destruct (SimEngineVEX.normalize_thumb _ _ _). injection H as <- <-; cbn.
  by rewrite He.
Qed.


(** ** Conditional exits *)

Lemma on_state_run {A} (m : M (SimState.t P) A) w s s' r :
  SimEngineVEX.state w = Some s → m s = (s', r) →
  SimEngineVEX.on_state m w
  = (SimEngineVEX.World (SimEngineVEX.engine w) (Some s') (SimEngineVEX.successors w), r).
Proof. intros Hs Hm. unfold SimEngineVEX.on_state. by rewrite Hs, Hm. Qed.

Lemma world_eta w s :
  SimEngineVEX.state w = Some s →
  SimEngineVEX.World (SimEngineVEX.engine w) (Some s) (SimEngineVEX.successors w) = w.
Proof. intros <-. by destruct w. Qed.

Lemma get_plugin_present n s (pl : P) :
  SimState.plugins s !! n = Some pl → SimState.get_plugin n s = (s, Ok pl).
Proof.
  intros Hn. unfold SimState.get_plugin, bind, get, ret. cbv beta. by rewrite Hn.
Qed.

Lemma scratch_run w s (pl : P) :
  SimEngineVEX.state w = Some s → SimState.plugins s !! "scratch" = Some pl →
  SimEngineVEX.scratch w = (w, Ok (scratch_get pl)).
Proof.
  intros Hs Hp. unfold SimEngineVEX.scratch.
  rewrite (bind_run _ _ w w pl); [done|].
  rewrite (on_state_run _ w s s (Ok pl) Hs (get_plugin_present _ _ _ Hp)).
  by rewrite world_eta.
Qed.

Lemma scratch_update_run f w s (pl : P) :
  SimEngineVEX.state w = Some s → SimState.plugins s !! "scratch" = Some pl →
  SimEngineVEX.scratch_update f w
  = (SimEngineVEX.World (SimEngineVEX.engine w)
       (Some (SimState.set_plugins
                (insert "scratch" (scratch_set (f (scratch_get pl)) pl)) s))
       (SimEngineVEX.successors w), Ok tt).
Proof.
  intros Hs Hp. unfold SimEngineVEX.scratch_update.
  apply (on_state_run _ w s _ _ Hs).
  unfold SimState.call_plugin.
  by rewrite (bind_run _ _ s s pl) by (by apply get_plugin_present).
Qed.



(** ** Re-lifting *)

(** An instruction mark over an address that the running block has written
    raises the re-lift signal. *)
Lemma handle_imark_relifts addr len delta w s (pl : P) subaddr :
  SimEngineVEX.state w = Some s →
  SimState.plugins s !! "scratch" = Some pl →
  subaddr < len →
  (Z.of_nat subaddr + addr)%Z ∈ dirty_addrs (scratch_get pl) →
  (SimEngineVEX.handle_imark addr len delta w).2 = Raise SimReliftException.
Proof.
  intros Hs Hp Hlt Hd. unfold SimEngineVEX.handle_imark.
  rewrite (bind_run _ _ _ _ tt (scratch_update_run _ w s pl Hs Hp)).
  set (pl' := scratch_set _ pl). set (s' := SimState.set_plugins _ s).
  set (w' := SimEngineVEX.World _ _ _).
  assert (SimState.plugins s' !! "scratch" = Some pl') as Hp'.
  { subst s'. destruct s; cbn. apply lookup_insert_eq. }
  rewrite (bind_run _ _ w' w' (scratch_get pl')) by (by eapply scratch_run).
  subst pl'. rewrite scratch_get_set. cbn [dirty_addrs set_ins_addr].
  assert (existsb (λ i, bool_decide ((Z.of_nat i + addr)%Z ∈ dirty_addrs (scratch_get pl)))
            (seq 0 len) = true) as ->; [|done].
  apply existsb_exists. exists subaddr. split.
  - apply in_seq. lia.
  - by apply bool_decide_eq_true_2.
Qed.

(** C5.  A [_process] call that was given [insn_bytes] and whose block run
    raises the re-lift signal ends at once with [SimEngineError]: the error
    is raised in the handler of the signal, which no clause of [_process]
    encloses, so it is the outcome of the call, whatever the number of
    rounds allowed. *)
Theorem relift_with_insn_bytes_is_rejected fuel irsb skip_stmts last_stmt whitelist
    (insn_bytes : string) size num_inst traceflags thumb opt_level w w0 addr w1 b w2 :
  SimEngineVEX.process_setup w = (w0, Ok addr) →
  SimEngineVEX.enter_block irsb addr (Some insn_bytes) size num_inst traceflags thumb
    opt_level w0 = (w1, Ok b) →
  SimEngineVEX._handle_irsb b skip_stmts last_stmt whitelist w1
  = (w2, Raise SimReliftException) →
  SimEngineVEX._process (S fuel) irsb skip_stmts last_stmt whitelist (Some insn_bytes)
    size num_inst traceflags thumb opt_level w
  = Some (w2, Raise (SimEngineError
                       "You cannot pass self-modifying code as insn_bytes!!!")).
Proof.
  intros Hsetup Henter Hrun. unfold SimEngineVEX._process. rewrite Hsetup.
  cbn [SimEngineVEX.process_loop]. rewrite Henter, Hrun. done.
Qed.

(** Without [insn_bytes] the same signal starts another round at the
    instruction that raised it, with the caps reduced by what was run. *)
Lemma relift_without_insn_bytes_retries fuel irsb skip_stmts last_stmt whitelist
    size num_inst traceflags thumb opt_level w0 addr w1 b w2 w3 sc :
  SimEngineVEX.enter_block irsb addr None size num_inst traceflags thumb
    opt_level w0 = (w1, Ok b) →
  SimEngineVEX._handle_irsb b skip_stmts last_stmt whitelist w1
  = (w2, Raise SimReliftException) →
  SimEngineVEX.prepare_relift w2 = (w3, Ok sc) →
  SimEngineVEX.process_loop (S fuel) irsb addr skip_stmts last_stmt whitelist None
    size num_inst traceflags thumb opt_level w0
  = SimEngineVEX.process_loop fuel None (ins_addr sc) skip_stmts last_stmt whitelist None
      ((λ n, n - (ins_addr sc - addr))%Z <$> size)
      ((λ n, n - num_insns sc)%Z <$> num_inst) traceflags thumb opt_level w3.
Proof.
  intros Henter Hrun Hprep. cbn [SimEngineVEX.process_loop].
  by rewrite Henter, Hrun, Hprep.
Qed.

End EngineFacts.

(** ** Runs of the engine on reference worlds *)



(** The theorem on re-lifting with [insn_bytes], on a world whose state
    has written into the second byte of the first instruction of the block
    it is given. *)
Lemma relift_with_insn_bytes_witness :
  ∃ w2,
    SimEngineVEX._process 1 (Some Reference.two_instructions) 0 (Some 10) None
      (Some "abcd") None None 0 false None Reference.self_modified_world
    = Some (w2, Raise (SimEngineError
                         "You cannot pass self-modifying code as insn_bytes!!!")).
Proof.
  eexists.
  eapply (relift_with_insn_bytes_is_rejected 0 (Some Reference.two_instructions) 0
            (Some 10) None "abcd" None None 0 false None Reference.self_modified_world).
  - match goal with
    | |- ?l = _ => let v := eval vm_compute in l in change l with v
    end. reflexivity.
  - match goal with
    | |- ?l = _ => let v := eval vm_compute in l in change l with v
    end. reflexivity.
  - match goal with
    | |- ?l = _ => let v := eval vm_compute in l in change l with v
    end. reflexivity.
Defined.

(* ===================================================================== *)
(** * Properties of the block cache                                       *)
(* ===================================================================== *)

Section CacheFacts.
Context {K : Type} `{EqDecision K} {V : Type}.
Implicit Types (k : K) (v : V) (l : list (K * V)) (c : LRUCache.t K V).











End CacheFacts.

(* ===================================================================== *)
(** * Lifting twice                                                       *)
(* ===================================================================== *)

Section LiftFacts.
Context {P C Q : Type}.
Context `{!StatePlugin P, !Collaborators P, !ScratchPlugin P, !EngineCollaborators P C Q}.
Implicit Types (w : SimEngineVEX.world P Q) (e : SimEngineVEX.t)
  (p : SimEngineVEX.prepared) (b : IRSB.t) (key : SimEngineVEX.cache_key).


(** The engines agree on everything but the cache, the counters and the
    number of blocks made. *)
Definition same_settings e e' : Prop :=
  SimEngineVEX._stop_points e' = SimEngineVEX._stop_points e
  ∧ SimEngineVEX._use_cache e' = SimEngineVEX._use_cache e
  ∧ SimEngineVEX._default_opt_level e' = SimEngineVEX._default_opt_level e
  ∧ SimEngineVEX._support_selfmodifying_code e'
    = SimEngineVEX._support_selfmodifying_code e
  ∧ SimEngineVEX._single_step e' = SimEngineVEX._single_step e.


#[local] Instance same_settings_preorder : PreOrder same_settings.
Proof.
  split.
  - intros e. by unfold same_settings.
  - intros e1 e2 e3 (?&?&?&?&?) (?&?&?&?&?). unfold same_settings.
    split_and!; congruence.
Qed.


Lemma new_IRSB_Ok buff p size traceflags w w' b :
  SimEngineVEX.new_IRSB buff p size traceflags w = (w', Ok b) →
  w' = SimEngineVEX.World (SimEngineVEX.count_object (SimEngineVEX.engine w))
         (SimEngineVEX.state w) (SimEngineVEX.successors w).
Proof.
  unfold SimEngineVEX.new_IRSB. destruct (pyvex_IRSB _ _ _ _ _ _ _ _); [|done].
  intros (w0 & y & [= <- <-] & Hb)%bind_Ok_inv.
  apply bind_Ok_inv in Hb as ([] & y' & [= <-] & [= <- _]). done.
Qed.

Lemma cache_setitem_Ok key b w w' :
  SimEngineVEX.cache_setitem key b w = (w', Ok tt) →
  ∃ c, LRUCache.setitem key b (SimEngineVEX._block_cache (SimEngineVEX.engine w)) = Ok c
       ∧ w' = SimEngineVEX.World (SimEngineVEX.set_block_cache c (SimEngineVEX.engine w))
                (SimEngineVEX.state w) (SimEngineVEX.successors w).
Proof.
  unfold SimEngineVEX.cache_setitem.
  intros (w0 & y & [= <- <-] & Hb)%bind_Ok_inv.
  destruct (LRUCache.setitem _ _ _) as [c|x]; [|done].
  injection Hb as <-. by exists c.
Qed.






(** ** The same inputs give the same key *)










End LiftFacts.


(* ===================================================================== *)
(** * Further properties                                                  *)
(* ===================================================================== *)

Section FurtherFacts.
Context {P C Q : Type}.
Context `{!StatePlugin P, !Collaborators P, !ScratchPlugin P, !EngineCollaborators P C Q}.

(** X1. When [insn_bytes] is given, phase 4 of [lift] replaces the size
    by the length of [insn_bytes]: a fresh lift that returns has asked
    pyvex for that many bytes, and returns the same block and leaves the
    same world whatever size phase 1 settled, so the cap of
    [VEX_IRSB_MAX_SIZE] does not bound it. *)
Theorem insn_bytes_override_size (clemory : option C) buff (p : SimEngineVEX.prepared)
    size traceflags key (w w' : SimEngineVEX.world P Q) b :
  SimEngineVEX.lift_fresh clemory (Some buff) p size traceflags key w = (w', Ok b) →
  is_Some (pyvex_IRSB buff (SimEngineVEX.p_addr p + SimEngineVEX.p_thumb p)
             (SimEngineVEX.p_arch p) (SimEngineVEX.len buff) (SimEngineVEX.p_num_inst p)
             (SimEngineVEX.p_thumb p) traceflags (SimEngineVEX.p_opt_level p))
  ∧ ∀ size',
      SimEngineVEX.lift_fresh clemory (Some buff) p size' traceflags key w = (w', Ok b).
Proof.
  intros Hrun. split; [|intros size'; exact Hrun].
  unfold SimEngineVEX.lift_fresh in Hrun.
  apply bind_Ok_inv in Hrun as (w0 & y & [= <- <-] & H).
  destruct (_ || _); [done|].
  apply bind_Ok_inv in H as (b0 & y1 & Hnew & _).
  unfold SimEngineVEX.new_IRSB in Hnew.
  destruct (pyvex_IRSB _ _ _ _ _ _ _ _); [by eexists|done].
Qed.

(** X2. [copy()] builds a new state object: whenever no global condition
    is pending it returns, and the copy's satisfiability flag is true,
    also when the receiver's flag has fallen. *)
Theorem copy_raises_satisfiable_flag (self : SimState.t P) :
  SimState._global_condition self = None →
  ∃ c, SimState.copy self = Ok c
       ∧ SimState._satisfiable c = true
       ∧ SimState.arch c = SimState.arch self
       ∧ SimState.options c = SimState.options self.
Proof.
  intros Hnone. unfold SimState.copy, SimState.init. rewrite Hnone. simpl.
  eexists. split; [done|]. simpl. split_and!; [done..|].
  by rewrite union_empty_r_L, difference_empty_L.
Qed.

End FurtherFacts.

(** The theorem on [insn_bytes], on 404 bytes and a size of 10: the block
    holds all 202 instructions. *)
Lemma insn_bytes_override_size_witness :
  let w := Reference.world (Reference.engine None 10)
             (Some (Reference.state "AMD64" Reference.symbolic_options [])) 4096 in
  let p := SimEngineVEX.Prepared (Build_Arch "AMD64" false) 4096 10 None 0 0 in
  let key := SimEngineVEX.key_of (Some (Reference.bytes 404)) p 10 in
  ∃ w' b,
    SimEngineVEX.lift_fresh (C := unit) None (Some (Reference.bytes 404)) p 10 0 key w
    = (w', Ok b)
    ∧ IRSB.size b = 404%Z
    ∧ ∀ size',
        SimEngineVEX.lift_fresh (C := unit) None (Some (Reference.bytes 404)) p size' 0
          key w = (w', Ok b).
Proof.
  intros w p key.
  assert (∃ w' b,
            SimEngineVEX.lift_fresh (C := unit) None (Some (Reference.bytes 404)) p 10 0
              key w = (w', Ok b) ∧ IRSB.size b = 404%Z)
    as (w' & b & Hrun & Hsize).
  { eexists _, _. split.
    - match goal with
      | |- ?l = _ => let v := eval vm_compute in l in change l with v
      end. reflexivity.
    - vm_compute. reflexivity. }
  exists w', b. split; [exact Hrun|]. split; [exact Hsize|].
  exact (proj2 (insn_bytes_override_size None (Reference.bytes 404) p 10 0 key w w' b Hrun)).
Defined.

(** The theorem on [copy()], on a state whose flag has fallen. *)
Lemma copy_raises_satisfiable_flag_witness :
  let self := SimState.set_satisfiable false
                (Reference.state "AMD64" Reference.symbolic_options []) in
  SimState._satisfiable self = false
  ∧ ∃ c, SimState.copy self = Ok c
         ∧ SimState._satisfiable c = true
         ∧ SimState.arch c = SimState.arch self
         ∧ SimState.options c = SimState.options self.
Proof.
  intros self. split; [reflexivity|].
  apply (copy_raises_satisfiable_flag self). reflexivity.
Defined.

(* ===================================================================== *)
(** * Further properties of [SimStateGlobals]                             *)
(* ===================================================================== *)

Section GlobalsDictionary.
Context {K : Type} `{Countable K} {V : Type}.
Implicit Types (self other : SimStateGlobals.t K V) (k : K) (v : V).

(** X3. The plugin is a dictionary: an assignment is read back by
    [self[k]] and by [get] and leaves every other key alone; on a missing
    key [self[k]] and [del self[k]] raise [KeyError] where [get] returns its
    default; a deletion removes that key only; and assigning a new key and
    deleting it again restores the plugin. *)
Theorem globals_item_access self k v (alt : option V) :
  SimStateGlobals.getitem (SimStateGlobals.setitem self k v) k = Some v
  ∧ SimStateGlobals.get (SimStateGlobals.setitem self k v) k alt = Some v
  ∧ SimStateGlobals.contains (SimStateGlobals.setitem self k v) k = true
  ∧ (∀ k', k' ≠ k →
       SimStateGlobals.getitem (SimStateGlobals.setitem self k v) k'
       = SimStateGlobals.getitem self k')
  ∧ match SimStateGlobals.__delitem__ self k with
    | None =>
        SimStateGlobals.getitem self k = None
        ∧ SimStateGlobals.contains self k = false
        ∧ SimStateGlobals.get self k alt = alt
        ∧ SimStateGlobals.__delitem__ (SimStateGlobals.setitem self k v) k = Some self
    | Some self' =>
        SimStateGlobals.get self k alt = SimStateGlobals.getitem self k
        ∧ is_Some (SimStateGlobals.getitem self k)
        ∧ SimStateGlobals.getitem self' k = None
        ∧ SimStateGlobals.__delitem__ self' k = None
        ∧ ∀ k', k' ≠ k →
            SimStateGlobals.getitem self' k' = SimStateGlobals.getitem self k'
    end.
Proof.
  destruct self as [m].
  unfold SimStateGlobals.getitem, SimStateGlobals.get, SimStateGlobals.setitem,
    SimStateGlobals.contains, SimStateGlobals.__delitem__; simpl.
  rewrite !lookup_insert_eq. split_and!; [done|done| |..].
  - apply bool_decide_eq_true_2. by eexists.
  - intros k' Hne. by rewrite lookup_insert_ne.
  - destruct (m !! k) as [v0|] eqn:Hk; simpl.
    + rewrite lookup_delete_eq. split_and!; [done|by eexists|done|done|].
      intros k' Hne. by rewrite lookup_delete_ne.
    + split_and!; [done|done|done|].
      f_equal. f_equal. by rewrite delete_insert_eq, delete_id.
Qed.

Lemma first_writer_None k self (others : list (SimStateGlobals.t K V)) :
  first_writer k (self :: others) = None → first_writer k others = None.
Proof. simpl. by destruct (SimStateGlobals.getitem self k). Qed.

(** X4. Merging is idempotent and only ever adds keys: the keys after a
    merge are those of the receiver and of the others, and merging the
    same others into the result again changes nothing. *)
Theorem globals_merge_idempotent self (others : list (SimStateGlobals.t K V))
    (merge_conditions : list ast) (common_ancestor : option (SimStateGlobals.t K V)) :
  let merged := (SimStateGlobals.merge self others merge_conditions common_ancestor).1 in
  (SimStateGlobals.merge merged others merge_conditions common_ancestor).1 = merged
  ∧ ∀ k, SimStateGlobals.contains merged k
         = SimStateGlobals.contains self k
           || existsb (λ other, SimStateGlobals.contains other k) others.
Proof.
  simpl. split.
  - apply globals_ext. intros k. rewrite !globals_merge_fold_lookup.
    change (first_writer k (?x :: others)) with
      (match SimStateGlobals.getitem x k with
       | Some v => Some v
       | None => first_writer k others
       end) at 1.
    rewrite globals_merge_fold_lookup.
    destruct (first_writer k (self :: others)) as [v|] eqn:Hw; [done|].
    by apply first_writer_None in Hw.
  - intros k. unfold SimStateGlobals.contains at 1 2.
    change (SimStateGlobals.backer ?x !! k) with (SimStateGlobals.getitem x k).
    rewrite globals_merge_fold_lookup. simpl.
    destruct (SimStateGlobals.getitem self k) as [v|] eqn:Hs; simpl; [done|].
    induction others as [|other others IH]; simpl; [done|].
    unfold SimStateGlobals.contains at 1.
    change (SimStateGlobals.backer other !! k) with (SimStateGlobals.getitem other k).
    destruct (SimStateGlobals.getitem other k) as [v|]; simpl; [done|].
    by rewrite IH.
Qed.

End GlobalsDictionary.

(* ===================================================================== *)
(** * Further properties of [SimState]                                    *)
(* ===================================================================== *)

Section PluginFacts.
Context {P : Type} `{!StatePlugin P, !Collaborators P}.
Implicit Types (s self : SimState.t P).

(** X5. A registered plugin is bound to the state and found again:
    [register_plugin] returns the initialised plugin, after which
    [get_plugin] returns that same plugin without changing the state and
    [has_plugin] holds; [release_plugin] never raises, after it
    [has_plugin] fails; releasing a name that is not registered changes
    nothing, so that registering a new name and releasing it restores the
    state. *)
Theorem plugin_register_get_release name (plugin : P) s :
  let p := plugin_init_state plugin in
  let s1 := (SimState.register_plugin name plugin s).1 in
  let s2 := (SimState.release_plugin name s1).1 in
  SimState.register_plugin name plugin s = (s1, Ok p)
  ∧ SimState.get_plugin name s1 = (s1, Ok p)
  ∧ SimState.has_plugin name s1 = (s1, Ok true)
  ∧ SimState.release_plugin name s1 = (s2, Ok tt)
  ∧ SimState.has_plugin name s2 = (s2, Ok false)
  ∧ (∀ n, n ≠ name → SimState.plugins s2 !! n = SimState.plugins s !! n)
  ∧ (SimState.plugins s !! name = None →
     s2 = s ∧ SimState.release_plugin name s = (s, Ok tt)).
Proof.
  destruct s as [a opts m pl os f g ipc].
  unfold SimState.register_plugin, SimState.release_plugin, SimState.get_plugin,
    SimState.has_plugin, bind, modify, ret, get; simpl.
  rewrite lookup_insert_eq, lookup_delete_eq. split_and!; try done.
  - intros n Hn. by rewrite lookup_delete_ne, lookup_insert_ne.
  - intros Hnone. unfold SimState.set_plugins; simpl.
    by rewrite delete_insert_eq, delete_id.
Qed.

(** X6. A plugin that is asked for and not registered is made on demand,
    once: [get_plugin] registers the default plugin of that name, and a
    second call returns the same plugin and leaves the state as the first
    left it.  A name with no default is a [KeyError] from [get_plugin] and
    an [AttributeError] from attribute access, and the state is
    unchanged. *)
Theorem get_plugin_on_demand name s :
  match SimState.plugins s !! name, default_plugins name with
  | Some p, _ =>
      SimState.get_plugin name s = (s, Ok p)
      ∧ SimState.__getattr__ name s = (s, Ok p)
  | None, Some d =>
      let s1 := SimState.set_plugins (insert name (plugin_init_state d)) s in
      SimState.get_plugin name s = (s1, Ok (plugin_init_state d))
      ∧ SimState.get_plugin name s1 = (s1, Ok (plugin_init_state d))
      ∧ SimState.__getattr__ name s = (s1, Ok (plugin_init_state d))
      ∧ SimState.has_plugin name s1 = (s1, Ok true)
  | None, None =>
      SimState.get_plugin name s = (s, Raise (KeyError name))
      ∧ SimState.__getattr__ name s = (s, Raise (AttributeError name))
      ∧ SimState.has_plugin name s = (s, Ok false)
  end.
Proof.
  unfold SimState.__getattr__.
  destruct (get_plugin_cases name s) as [(q&Hq&E)|[(d&Hn&Hd&E)|(Hn&Hd&E)]].
  - rewrite Hq, E. done.
  - rewrite Hn, Hd, E. simpl. split_and!; [done| |done|].
    + apply get_plugin_present. destruct s; simpl. apply lookup_insert_eq.
    + unfold SimState.has_plugin. destruct s; simpl. by rewrite lookup_insert_eq.
  - rewrite Hn, Hd, E. split_and!; [done|done|].
    unfold SimState.has_plugin. by rewrite Hn.
Qed.

(** [set_mode] assigns the mode before it looks the mode up: for a
    known mode the options become those of the mode; for an unknown mode
    the call raises [KeyError] and leaves the state with the new mode and
    the old options.  Nothing else of the state changes. *)
Lemma set_mode_assigns_mode_first (m : string) s :
  let s' := (SimState.set_mode m s).1 in
  SimState.mode s' = Some m
  ∧ SimState.plugins s' = SimState.plugins s
  ∧ SimState._satisfiable s' = SimState._satisfiable s
  ∧ SimState._global_condition s' = SimState._global_condition s
  ∧ match modes m with
    | Some opts =>
        (SimState.set_mode m s).2 = Ok tt ∧ SimState.options s' = opts
    | None =>
        (SimState.set_mode m s).2 = Raise (KeyError m)
        ∧ SimState.options s' = SimState.options s
    end.
Proof.
  unfold SimState.set_mode, bind, modify, raise. simpl.
  destruct (modes m); by destruct s.
Qed.


End PluginFacts.

(** ** Strings *)

Section StringFacts.
Implicit Types (s t u sub : string).

Lemma str_app_nil_r s : s +:+ "" = s.
Proof. induction s as [|a s IH]; [done|]. exact (f_equal (String a) IH). Qed.

Lemma str_app_assoc s t u : (s +:+ t) +:+ u = s +:+ (t +:+ u).
Proof. induction s as [|a s IH]; [done|]. exact (f_equal (String a) IH). Qed.

Lemma str_length_app s t : String.length (s +:+ t) = String.length s + String.length t.
Proof. induction s as [|a s IH]; [done|]. exact (f_equal S IH). Qed.

Lemma prefix_app sub t : String.prefix sub (sub +:+ t) = true.
Proof.
  induction sub as [|a sub IH]; simpl; [by destruct t|].
  by destruct (ascii_dec a a).
Qed.

Lemma prefix_length sub t : String.prefix sub t = true → String.length sub ≤ String.length t.
Proof.
  revert t. induction sub as [|a sub IH]; intros [|b t]; simpl; try done; try lia.
  destruct (ascii_dec a b); [|done]. intros Hp%IH. lia.
Qed.

Lemma join_app (l1 l2 : list string) : py.join (l1 ++ l2) = py.join l1 +:+ py.join l2.
Proof.
  induction l1 as [|x l1 IH]; simpl; [done|]. by rewrite IH, str_app_assoc.
Qed.

Lemma join_replicate_S n s : py.join (replicate (S n) s) = s +:+ py.join (replicate n s).
Proof. done. Qed.

Lemma length_join_replicate n s :
  String.length (py.join (replicate n s)) = n * String.length s.
Proof.
  induction n as [|n IH]; simpl; [done|]. by rewrite str_length_app, IH.
Qed.

(** An occurrence anywhere is counted at least once. *)
Lemma count_occurrence sub pre post : 1 ≤ py.count (pre +:+ sub +:+ post) sub.
Proof.
  unfold py.count. induction pre as [|a pre IH].
  - change ("" +:+ sub +:+ post) with (sub +:+ post).
    destruct (sub +:+ post) as [|b r] eqn:Hs.
    + destruct sub; [simpl; lia|discriminate].
    + cbn [py.count_from]. rewrite <- Hs, prefix_app. lia.
  - change (String a pre +:+ sub +:+ post) with (String a (pre +:+ sub +:+ post)).
    cbn [py.count_from]. destruct (String.prefix sub _); [lia|exact IH].
Qed.

(** Nothing is counted inside the occurrence just counted. *)
Lemma count_from_skip sub u t :
  py.count_from sub (String.length u) (u +:+ t) = py.count_from sub 0 t.
Proof. induction u as [|a u IH]; simpl; [done|exact IH]. Qed.

Lemma count_from_short sub t :
  String.length t < String.length sub → py.count_from sub 0 t = 0.
Proof.
  induction t as [|a t IH]; intros Hlen; cbn [String.length] in Hlen.
  - destruct sub; [simpl in Hlen; lia|done].
  - cbn [py.count_from]. destruct (String.prefix sub (String a t)) eqn:Hp.
    + apply prefix_length in Hp. cbn [String.length] in Hp. lia.
    + apply IH. lia.
Qed.

Lemma count_step sub t :
  sub ≠ "" → py.count_from sub 0 (sub +:+ t) = S (py.count_from sub 0 t).
Proof.
  destruct sub as [|a sub]; [done|]. intros _.
  change (String a sub +:+ t) with (String a (sub +:+ t)).
  cbn [py.count_from].
  change (String a (sub +:+ t)) with (String a sub +:+ t). rewrite prefix_app.
  f_equal. simpl. rewrite Nat.sub_0_r. apply count_from_skip.
Qed.

Lemma count_self s : py.count s s = 1.
Proof.
  destruct s as [|a s]; [done|].
  unfold py.count. rewrite <- (str_app_nil_r (String a s)) at 2.
  by rewrite count_step.
Qed.

(** A string repeated [k] times holds [k / n] occurrences of its [n]-fold
    repetition. *)
Lemma count_replicate s n k :
  s ≠ "" → 0 < n →
  py.count (py.join (replicate k s)) (py.join (replicate n s)) = k / n.
Proof.
  intros Hs Hn. unfold py.count.
  assert (py.join (replicate n s) ≠ "") as Hsub.
  { destruct n as [|n]; [lia|]. rewrite join_replicate_S.
    destruct s; [done|discriminate]. }
  assert (0 < String.length s) as Hlen.
  { destruct s; [done|simpl; lia]. }
  induction (lt_wf k) as [k _ IH].
  destruct (decide (k < n)) as [Hlt|Hge].
  - rewrite Nat.div_small by done. apply count_from_short.
    rewrite !length_join_replicate. by apply Nat.mul_lt_mono_pos_r.
  - replace k with (n + (k - n)) at 1 by lia.
    rewrite replicate_add, join_app, count_step by done.
    rewrite IH by lia.
    replace k with ((k - n) + 1 * n) at 2 by lia.
    rewrite Nat.div_add by lia. lia.
Qed.

Lemma hex_digits_nonempty fuel n acc : py.hex_digits fuel n acc ≠ "".
Proof.
  revert n acc. induction fuel as [|fuel IH]; intros n acc; simpl; [done|].
  destruct (n / 16 =? 0)%N; [done|apply IH].
Qed.

Lemma hex_nonempty x : py.hex x ≠ "".
Proof. destruct x; simpl; [done|apply hex_digits_nonempty|done]. Qed.

End StringFacts.

Section ConditionFacts.
Context {P : Type} `{!StatePlugin P, !Collaborators P}.
Implicit Types (s self : SimState.t P).

Lemma eval_And_cons v (x : ast) (l : list ast) :
  eval v (And (x :: l))
  = match eval v x, eval v (And l) with
    | Some a, Some b => Some (a && b)
    | _, _ => None
    end.
Proof. done. Qed.

Lemma copy_Ok self :
  SimState._global_condition self = None → ∃ c, SimState.copy self = Ok c.
Proof.
  intros Hnone. unfold SimState.copy, SimState.init. rewrite Hnone. simpl. by eexists.
Qed.

Lemma widen_loop_raises (others : list (SimState.t P)) p names fr :
  p ∈ names → p ∉ ["solver_engine"; "unicorn"] →
  SimState.plugins_named p others = None →
  ∃ fr' q, for_each names (SimState.widen_plugin others) fr = (fr', Raise (KeyError q))
           ∧ q ∈ names ∧ q ∉ ["solver_engine"; "unicorn"].
Proof.
  intros Hin Hskip Hnone. revert fr.
  induction names as [|x names IH]; intros fr; [by apply elem_of_nil in Hin|].
  cbn [for_each]. unfold bind.
  destruct (SimState.widen_plugin others x fr) as [fr1 [[]|e]] eqn:Hx.
  - assert (p ∈ names) as Hin'.
    { apply elem_of_cons in Hin as [Heq|Hin]; [|done]. subst x. exfalso.
      unfold SimState.widen_plugin in Hx.
      rewrite bool_decide_eq_false_2 in Hx by done.
      unfold bind, get in Hx. rewrite Hnone in Hx.
      by destruct (SimState.plugins (SimState.widened fr) !! p). }
    destruct (IH Hin' fr1) as (fr' & q & E & Hq & Hq'). exists fr', q.
    split_and!; [done|by apply elem_of_cons; right|done].
  - exists fr1, x. unfold SimState.widen_plugin in Hx.
    case_bool_decide as Hsk; [done|]. unfold bind, get in Hx.
    destruct (SimState.plugins (SimState.widened fr) !! x) as [ours|];
      [destruct (SimState.plugins_named x others) as [theirs|]|].
    + by destruct (plugin_widen ours theirs).
    + injection Hx as <- <-. split_and!; [done|by apply elem_of_cons; left|done].
    + injection Hx as <- <-. split_and!; [done|by apply elem_of_cons; left|done].
Qed.

(** X9. [widen] compares the plugin sets of the others with one another
    and not with the receiver's: when the others agree with one another but
    one of them lacks a plugin that the receiver holds (other than the
    solver and unicorn, which are skipped), the call passes the check and
    then fails with a [KeyError] on a plugin name of the receiver instead
    of the [SimMergeError] of the check. *)
Theorem widen_ignores_receiver_plugins self (others : list (SimState.t P)) p other :
  SimState.plugin_sets_differ others = false →
  SimState.architectures_differ others = false →
  SimState._global_condition self = None →
  is_Some (SimState.plugins self !! p) →
  p ∉ ["solver_engine"; "unicorn"] →
  other ∈ others →
  SimState.plugins other !! p = None →
  ∃ q, SimState.widen self others = Raise (KeyError q)
       ∧ is_Some (SimState.plugins self !! q)
       ∧ q ∉ ["solver_engine"; "unicorn"].
Proof.
  intros Hsets Harch Hcond [pl Hp] Hskip Hother Hlack.
  unfold SimState.widen, SimState.widen_traced. rewrite Hsets, Harch.
  destruct (copy_Ok self Hcond) as [w ->].
  assert (SimState.plugins_named p others = None) as Hnone.
  { apply mapM_None. apply Exists_exists. by exists other. }
  assert (p ∈ (map_to_list (SimState.plugins self)).*1) as Hin.
  { apply list_elem_of_fmap. exists (p, pl). split; [done|].
    by apply elem_of_map_to_list. }
  destruct (widen_loop_raises others p _ (SimState.WidenFrame w false []) Hin Hskip Hnone)
    as (fr' & q & -> & Hq & Hq').
  exists q. split_and!; [done| |done].
  apply list_elem_of_fmap in Hq as ([q0 pl0] & -> & Hq%elem_of_map_to_list).
  by eexists.
Qed.

(** X10. A state cannot be copied or widened while a global condition is
    in force: inside a [with_condition] scope [copy()] raises
    [SimStateError], and so does [widen] once its two checks on the others
    have passed; the scope still restores the state it was entered
    with. *)
Theorem no_copy_under_condition (c : ast) (others : list (SimState.t P)) s :
  SimState._global_condition s = None →
  let refused :=
    SimStateError "global condition was not cleared before state.copy()." in
  SimState.with_condition c (λ s', (s', SimState.copy s')) s = (s, Raise refused)
  ∧ (SimState.plugin_sets_differ others = false →
     SimState.architectures_differ others = false →
     SimState.with_condition c (λ s', (s', SimState.widen s' others)) s
     = (s, Raise refused)).
Proof.
  intros Hnone. destruct s as [a opts m pl os f g ipc]. simpl in Hnone. subst g.
  unfold SimState.with_condition, try_finally, bind, modify, ret. simpl. split; [done|].
  intros Hsets Harch.
  unfold SimState.widen, SimState.widen_traced. by rewrite Hsets, Harch.
Qed.

(** X11. [_adjust_condition_list] puts the global condition in force into a
    list of conditions: without one the list is returned as it is; with
    one the result is a single condition; in both cases the conjunction of the
    result has, under every assignment, the truth value of the conjunction
    of the global condition and the given conditions. *)
Theorem adjust_condition_list_conjoins (conditions : list ast) s s' adjusted :
  SimState._adjust_condition_list conditions s = (s', Ok adjusted) →
  match SimState._global_condition s with
  | None => adjusted = conditions
  | Some g => ∃ c, adjusted = [c]
  end
  ∧ ∀ v, eval v (And adjusted)
         = eval v (And (option_list (SimState._global_condition s) ++ conditions)).
Proof.
  unfold SimState._adjust_condition_list.
  intros (s0 & y & [= <- <-] & H)%bind_Ok_inv.
  destruct (SimState._global_condition s) as [g|] eqn:Hg.
  - case_bool_decide as Hlen.
    + injection H as <- <-. split; [by eexists|].
      destruct conditions; [done|discriminate].
    + apply bind_Ok_inv in H as (se & y1 & Hget & H).
      assert (SimState._global_condition y1 = Some g) as Hg1.
      { pose proof (get_plugin_only_plugins "solver_engine" s) as (_&_&_&Ho).
        rewrite Hget in Ho. simpl in Ho. by rewrite Ho. }
      apply bind_Ok_inv in H as (c & y2 & Hadj & [= <- <-]).
      unfold SimState._adjust_condition in Hadj.
      apply bind_Ok_inv in Hadj as (s1 & y3 & [= <- <-] & Hadj).
      rewrite Hg1 in Hadj.
      apply bind_Ok_inv in Hadj as (se' & y4 & _ & [= <- <-]).
      change (option_list (Some (And [g; And conditions])))
        with [And [g; And conditions]].
      change (option_list (Some g) ++ conditions) with (g :: conditions).
      split; [by eexists|]. intros v.
      rewrite !eval_And_cons. change (eval v (And [])) with (Some true).
      destruct (eval v g) as [bg|], (eval v (And conditions)) as [bc|]; try done.
      by rewrite !andb_true_r.
  - injection H as <- <-. done.
Qed.

End ConditionFacts.

(** X12. [detect_loops] never reports a negative count, and reports none
    when asked for a window of no blocks or of more blocks than the
    history holds. *)
Theorem detect_loops_bounds (bbl_addrs : list Z) (n : Z) :
  (0 ≤ SimState.detect_loops bbl_addrs n)%Z
  ∧ SimState.detect_loops bbl_addrs 0 = 0%Z
  ∧ ((Z.of_nat (length bbl_addrs) < n)%Z → SimState.detect_loops bbl_addrs n = 0%Z).
Proof.
  unfold SimState.detect_loops. rewrite !length_fmap. split_and!.
  - case_match; [done|].
    set (strs := py.hex <$> bbl_addrs).
    assert (∃ m, py.slice_from (- n - 0) strs = drop m strs) as [m ->].
    { unfold py.slice_from. case_match; by eexists. }
    pose proof (count_occurrence (py.join (drop m strs)) (py.join (take m strs)) "") as Hc.
    rewrite str_app_nil_r, <- join_app, take_drop in Hc. lia.
  - assert ((Z.of_nat (length bbl_addrs) <? 0)%Z = false) as ->
      by (apply Z.ltb_ge; lia).
    unfold py.slice_from. simpl. rewrite drop_0, count_self. done.
  - intros Hlt. by rewrite (proj2 (Z.ltb_lt _ _) Hlt).
Qed.

(** X13. On a history that stays at one block for [k] rounds,
    [detect_loops] with a window of [n] blocks ([1 <= n <= k]) reports
    [k / n - 1] repetitions: the window is counted without overlap. *)
Theorem detect_loops_on_a_self_loop (a : Z) (n k : nat) :
  1 ≤ n → n ≤ k →
  SimState.detect_loops (replicate k a) (Z.of_nat n) = (Z.of_nat (k / n) - 1)%Z.
Proof.
  intros Hn Hk. unfold SimState.detect_loops.
  rewrite fmap_replicate, length_replicate.
  assert ((Z.of_nat k <? Z.of_nat n)%Z = false) as -> by (apply Z.ltb_ge; lia).
  unfold py.slice_from.
  assert ((- Z.of_nat n - 0 <? 0)%Z = true) as -> by (apply Z.ltb_lt; lia).
  replace (Z.to_nat (Z.of_nat (length (replicate k (py.hex a))) + (- Z.of_nat n - 0)))
    with (k - n) by (rewrite length_replicate; lia).
  rewrite drop_replicate. replace (k - (k - n)) with n by lia.
  rewrite count_replicate; [done|apply hex_nonempty|lia].
Qed.

(** The theorem on a self-loop, on five rounds at block [0x1000] and a
    window of two. *)
Lemma detect_loops_on_a_self_loop_witness :
  SimState.detect_loops [4096; 4096; 4096; 4096; 4096]%Z 2 = 1%Z.
Proof.
  apply (detect_loops_on_a_self_loop 4096 2 5); repeat constructor.
Defined.

(** The blocks [0x11] and [0x1] are visited once each, and one repetition
    of the last block is reported twice over: the addresses are run
    together without a separator. *)
Example detect_loops_without_a_loop :
  NoDup [17; 1]%Z ∧ SimState.detect_loops [17; 1]%Z 1 = 2%Z.
Proof. split; [|done]. by apply (bool_decide_unpack _). Qed.

(** The theorem on the plugin check of [widen], on a receiver with a
    scratch plugin and one other state without it. *)
Lemma widen_ignores_receiver_plugins_witness :
  let self := Reference.state "AMD64" Reference.symbolic_options [] in
  let other := SimState.set_plugins (delete "scratch") self in
  ∃ q, SimState.widen self [other] = Raise (KeyError q)
       ∧ is_Some (SimState.plugins self !! q)
       ∧ q ∉ ["solver_engine"; "unicorn"].
Proof.
  intros self other.
  apply (widen_ignores_receiver_plugins self [other] "scratch" other).
  - vm_compute. reflexivity.
  - vm_compute. reflexivity.
  - reflexivity.
  - eexists. vm_compute. reflexivity.
  - by apply (bool_decide_unpack _).
  - apply elem_of_cons. by left.
  - vm_compute. reflexivity.
Defined.

(** The theorem on copying under a condition, on a reference state. *)
Lemma no_copy_under_condition_witness :
  let s := Reference.state "AMD64" Reference.symbolic_options [] in
  let refused :=
    SimStateError "global condition was not cleared before state.copy()." in
  SimState.with_condition (BoolS "c") (λ s', (s', SimState.copy s')) s
  = (s, Raise refused)
  ∧ (SimState.plugin_sets_differ [s] = false →
     SimState.architectures_differ [s] = false →
     SimState.with_condition (BoolS "c") (λ s', (s', SimState.widen s' [s])) s
     = (s, Raise refused)).
Proof.
  intros s.
  apply (no_copy_under_condition (BoolS "c") [s] s). reflexivity.
Defined.

(** The theorem on [_adjust_condition_list], on two conditions under the
    global condition [g]. *)
Lemma adjust_condition_list_conjoins_witness :
  let s := SimState.set_global_condition (Some (BoolS "g"))
             (Reference.state "AMD64" Reference.symbolic_options []) in
  let adjusted := [And [BoolS "g"; And [BoolS "a"; BoolS "b"]]] in
  SimState._adjust_condition_list [BoolS "a"; BoolS "b"] s = (s, Ok adjusted)
  ∧ ∀ v, eval v (And adjusted) = eval v (And [BoolS "g"; BoolS "a"; BoolS "b"]).
Proof.
  intros s adjusted.
  assert (SimState._adjust_condition_list [BoolS "a"; BoolS "b"] s = (s, Ok adjusted))
    as Hrun.
  { match goal with
    | |- ?l = _ => let v := eval vm_compute in l in change l with v
    end. reflexivity. }
  split; [exact Hrun|].
  exact (proj2 (adjust_condition_list_conjoins [BoolS "a"; BoolS "b"] s s adjusted Hrun)).
Defined.

(* ===================================================================== *)
(** * Further properties of [SimEngineVEX]                                *)
(* ===================================================================== *)

(** The addresses of the instruction marks of a list of statements, in
    order. *)
Definition imark_addrs (stmts : list IRStmt) : list Z :=
  omap (λ stmt, match stmt with
                | IMark addr _ delta => Some (addr + delta)%Z
                | _ => None
                end) stmts.

Lemma clear_low_bit (x : Z) : Z.land x (Z.lnot 1) = (2 * (x / 2))%Z.
Proof.
  rewrite <- Z.ldiff_land. change 1%Z with (Z.ones 1).
  rewrite Z.ldiff_ones_r, Z.shiftr_div_pow2, Z.shiftl_mul_pow2 by lia.
  change (2 ^ 1)%Z with 2%Z. lia.
Qed.

Section StopPointFacts.
Context {P C Q : Type}.
Context `{!StatePlugin P, !Collaborators P, !ScratchPlugin P, !EngineCollaborators P C Q}.
Implicit Types (w : SimEngineVEX.world P Q) (e : SimEngineVEX.t) (p : SimEngineVEX.prepared).

Lemma first_stoppoint_from_spec (stop_points : gset Z) first_imark stmts :
  SimEngineVEX.first_stoppoint_from stop_points first_imark stmts
  = head (filter (λ a, a ∈ stop_points)
            (if first_imark then tail (imark_addrs stmts) else imark_addrs stmts)).
Proof.
  revert first_imark.
  induction stmts as [|stmt stmts IH]; intros first_imark; [by destruct first_imark|].
  destruct stmt as [addr n delta| | |]; cbn [SimEngineVEX.first_stoppoint_from];
    try (rewrite IH; done).
  change (imark_addrs (IMark addr n delta :: stmts))
    with ((addr + delta)%Z :: imark_addrs stmts).
  destruct first_imark; cbn [negb andb tail].
  - by rewrite IH.
  - case_bool_decide as Hin.
    + by rewrite filter_cons_True.
    + by rewrite filter_cons_False, IH.
Qed.

(** X14. [_first_stoppoint] returns the first instruction address of the
    block, after that of its first instruction, that is a stop point: the
    first instruction is never reported, so that a block can start at a
    stop point; with no stop points configured nothing is reported. *)
Theorem first_stoppoint_skips_first_instruction e (irsb : IRSB.t) :
  SimEngineVEX._first_stoppoint e irsb
  = match SimEngineVEX._stop_points e with
    | None => None
    | Some stop_points =>
        head (filter (λ a, a ∈ stop_points)
                (tail (imark_addrs (IRSB.statements irsb))))
    end.
Proof.
  unfold SimEngineVEX._first_stoppoint.
  destruct (SimEngineVEX._stop_points e); [|done]. apply first_stoppoint_from_spec.
Qed.

(** X15. The engine's [support_selfmodifying_code] setting plays no part in
    [_load_bytes]: with a state it is overridden by the permissions of the
    page, and without one the memory image is read whatever it says.  The
    result depends on the engine in no other way. *)
Theorem load_bytes_ignores_engine_setting e e' (addr max_size : Z)
    (st : option (SimState.t P)) (clemory : option C) :
  SimEngineVEX._load_bytes e addr max_size st clemory
  = SimEngineVEX._load_bytes e' addr max_size st clemory.
Proof.
  unfold SimEngineVEX._load_bytes.
  destruct clemory as [c|], st as [s|]; cbn [is_none]; by rewrite ?orb_true_r.
Qed.

(** Pickling an engine keeps its six settings and drops the cache:
    the engine unpickled from [__getstate__] is the one [clear_cache]
    leaves, with the stop points, cache use, optimisation level,
    self-modification support, single-stepping and cache size of the
    original, an empty cache of that size and both counters at zero. *)
Lemma pickling_keeps_settings_and_drops_cache e :
  let e' := SimEngineVEX.__setstate__ (SimEngineVEX.__getstate__ e)
              (SimEngineVEX.objects e) in
  e' = SimEngineVEX.clear_cache e
  ∧ SimEngineVEX.__getstate__ e' = SimEngineVEX.__getstate__ e
  ∧ SimEngineVEX._block_cache e' = LRUCache.new (SimEngineVEX._cache_size e)
  ∧ SimEngineVEX._cache_hit_count e' = 0
  ∧ SimEngineVEX._cache_miss_count e' = 0
  ∧ (∀ key, LRUCache.contains key (SimEngineVEX._block_cache e') = false).
Proof. by destruct e. Qed.

Lemma normalize_thumb_arm (a : Arch) (k : Z) (thumb : bool) :
  is_ArchARM a = true →
  SimEngineVEX.normalize_thumb a (2 * k + 1) thumb = ((2 * k)%Z, 1%Z)
  ∧ SimEngineVEX.normalize_thumb a (2 * k) true = ((2 * k)%Z, 1%Z)
  ∧ SimEngineVEX.normalize_thumb a (2 * k) false = ((2 * k)%Z, 0%Z).
Proof.
  intros Harm. unfold SimEngineVEX.normalize_thumb. rewrite Harm.
  assert (((2 * k + 1) mod 2 =? 1)%Z = true) as ->.
  { apply Z.eqb_eq. rewrite Z.add_comm, Z.mul_comm, Z.mod_add by lia. done. }
  assert (((2 * k) mod 2 =? 1)%Z = false) as ->.
  { apply Z.eqb_neq. rewrite Z.mul_comm, Z.mod_mul by lia. done. }
  cbn [Z.eqb]. rewrite !clear_low_bit.
  replace ((2 * k + 1) / 2)%Z with k.
  2:{ rewrite Z.add_comm, Z.mul_comm, Z.div_add by lia. done. }
  replace (2 * k / 2)%Z with k.
  2:{ rewrite Z.mul_comm, Z.div_mul by lia. done. }
  by destruct thumb.
Qed.

(** X17. Thumb mode can be asked for by the address as well as by the flag:
    on an ARM architecture, lifting at an odd address is lifting at the
    even address below it with [thumb=True], whatever flag was passed with
    the odd address; on any other architecture the flag is ignored. *)
Theorem lift_thumb_by_address_or_flag (clemory : option C) insn_bytes (a : Arch)
    size num_inst traceflags opt_level w :
  if is_ArchARM a then
    ∀ (k : Z) (thumb : bool),
      SimEngineVEX.lift clemory insn_bytes (Some a) (Some (2 * k + 1)%Z) size num_inst
        traceflags thumb opt_level w
      = SimEngineVEX.lift clemory insn_bytes (Some a) (Some (2 * k)%Z) size num_inst
          traceflags true opt_level w
  else
    ∀ (addr : Z),
      SimEngineVEX.lift clemory insn_bytes (Some a) (Some addr) size num_inst
        traceflags true opt_level w
      = SimEngineVEX.lift clemory insn_bytes (Some a) (Some addr) size num_inst
          traceflags false opt_level w.
Proof.
  destruct (is_ArchARM a) eqn:Harm.
  - intros k thumb. unfold SimEngineVEX.lift, SimEngineVEX.lift_prepare.
    cbn [is_none andb SimEngineVEX.resolve_arch SimEngineVEX.resolve_addr].
    destruct (normalize_thumb_arm a k thumb Harm) as (-> & -> & _). done.
  - intros addr. unfold SimEngineVEX.lift, SimEngineVEX.lift_prepare.
    cbn [is_none andb SimEngineVEX.resolve_arch SimEngineVEX.resolve_addr].
    unfold SimEngineVEX.normalize_thumb. by rewrite Harm.
Qed.

End StopPointFacts.

Section LiftEffects.
Context {P C Q : Type}.
Context `{!StatePlugin P, !Collaborators P, !ScratchPlugin P, !EngineCollaborators P C Q}.
Implicit Types (w : SimEngineVEX.world P Q) (e : SimEngineVEX.t)
  (p : SimEngineVEX.prepared) (b : IRSB.t).

(** The engines differ at most in the single-step setting. *)
Definition same_cache e e' : Prop :=
  SimEngineVEX._block_cache e' = SimEngineVEX._block_cache e
  ∧ SimEngineVEX._use_cache e' = SimEngineVEX._use_cache e
  ∧ SimEngineVEX._cache_hit_count e' = SimEngineVEX._cache_hit_count e
  ∧ SimEngineVEX._cache_miss_count e' = SimEngineVEX._cache_miss_count e
  ∧ SimEngineVEX.objects e' = SimEngineVEX.objects e.

(** What phases 0 to 2 leave of the engine, when they return. *)
Lemma lift_prepare_engine (clemory : option C) insn_bytes arch addr size num_inst
    thumb opt_level w wp p :
  SimEngineVEX.lift_prepare clemory insn_bytes arch addr size num_inst thumb opt_level w
  = (wp, Ok p) →
  same_cache (SimEngineVEX.engine w) (SimEngineVEX.engine wp)
  ∧ SimEngineVEX.resolve_arch arch clemory (SimEngineVEX.state w)
    = Some (SimEngineVEX.p_arch p)
  ∧ SimEngineVEX._single_step (SimEngineVEX.engine wp)
    = SimEngineVEX._single_step (SimEngineVEX.engine w)
      && negb (String.prefix "MIPS" (name (SimEngineVEX.p_arch p))).
Proof.
  unfold SimEngineVEX.lift_prepare.
  intros (w0 & y0 & [= <- <-] & H)%bind_Ok_inv.
  destruct (_ && _ && negb _); [done|].
  destruct (_ && _ && is_none arch); [done|].
  destruct (is_none addr && _); [done|].
  destruct (SimEngineVEX.resolve_arch _ _ _) as [arch'|]; [|done].
  destruct (SimEngineVEX.resolve_addr _ _) as [addr'|]; [|done].
  apply bind_Ok_inv in H as ([] & y1 & Hmips & H).
  apply bind_Ok_inv in H as (w1 & y2 & [= <- <-] & H).
  apply bind_Ok_inv in H as (ol & y3 & Hopt & H).
  destruct (SimEngineVEX.normalize_thumb _ _ _). injection H as <- <-.
  cbn [SimEngineVEX.p_arch].
  assert (SimEngineVEX.engine y3 = SimEngineVEX.engine y1) as ->.
  { destruct (_ && (0 <? _)%Z); [|by injection Hopt as <-].
    apply bind_Ok_inv in Hopt as ([] & y4 & Hrm & [= <- _]).
    destruct (SimEngineVEX.optimize_ir_set _); [|by injection Hrm as <-].
    unfold SimEngineVEX.remove_optimize_ir, SimEngineVEX.on_state in Hrm.
    destruct (SimEngineVEX.state y1); [|done].
    unfold modify in Hrm. by injection Hrm as <-. }
  destruct (String.prefix "MIPS" (name arch')),
    (SimEngineVEX._single_step (SimEngineVEX.engine w)) eqn:Hss;
    cbn [andb negb] in Hmips |- *; injection Hmips as <-;
    cbn; rewrite ?Hss; by unfold same_cache.
Qed.

(** What phases 4 and 5 do, when they return: one or two blocks are made,
    the last of which is returned; the counters and the settings stay; the
    cache is written only when it is in use. *)
Lemma lift_fresh_effect (clemory : option C) insn_bytes p size traceflags key w w' b :
  SimEngineVEX.lift_fresh clemory insn_bytes p size traceflags key w = (w', Ok b) →
  SimEngineVEX.state w' = SimEngineVEX.state w
  ∧ SimEngineVEX._cache_hit_count (SimEngineVEX.engine w')
    = SimEngineVEX._cache_hit_count (SimEngineVEX.engine w)
  ∧ SimEngineVEX._cache_miss_count (SimEngineVEX.engine w')
    = SimEngineVEX._cache_miss_count (SimEngineVEX.engine w)
  ∧ SimEngineVEX._use_cache (SimEngineVEX.engine w')
    = SimEngineVEX._use_cache (SimEngineVEX.engine w)
  ∧ SimEngineVEX.objects (SimEngineVEX.engine w) ≤ IRSB.id b
  ∧ SimEngineVEX.objects (SimEngineVEX.engine w') = S (IRSB.id b)
  ∧ (SimEngineVEX._use_cache (SimEngineVEX.engine w) = false →
     SimEngineVEX._block_cache (SimEngineVEX.engine w')
     = SimEngineVEX._block_cache (SimEngineVEX.engine w)).
Proof.
  unfold SimEngineVEX.lift_fresh.
  intros (w0 & y & [= <- <-] & H)%bind_Ok_inv.
  destruct (match insn_bytes with Some _ => _ | None => _ end) as [[buff nbytes]|x]; [|done].
  destruct (_ || _); [done|].
  apply bind_Ok_inv in H as (b0 & y1 & Hnew & H).
  pose proof Hnew as ->%new_IRSB_Ok.
  apply bind_Ok_inv in H as (w1 & y2 & [= <- <-] & H).
  apply bind_Ok_inv in H as (b1 & y3 & H1 & H).
  apply bind_Ok_inv in H as ([] & y4 & H2 & [= <- <-]).
  assert (∃ n, y3 = SimEngineVEX.World
                      (Nat.iter n SimEngineVEX.count_object (SimEngineVEX.engine w))
                      (SimEngineVEX.state w) (SimEngineVEX.successors w)
               ∧ 0 < n ∧ IRSB.id b1 + 1 = SimEngineVEX.objects (SimEngineVEX.engine w) + n)
    as (n & -> & Hn & Hid).
  { destruct (SimEngineVEX._first_stoppoint _ _).
    - pose proof H1 as ->%new_IRSB_Ok. exists 2. split_and!; [done|lia|].
      unfold SimEngineVEX.new_IRSB in H1.
      destruct (pyvex_IRSB _ _ _ _ _ _ _ _); [|done].
      apply bind_Ok_inv in H1 as (w2 & y5 & [= <- <-] & H1).
      apply bind_Ok_inv in H1 as ([] & y6 & _ & [= _ <-]). cbn. lia.
    - injection H1 as <- <-. exists 1. split_and!; [done|lia|].
      unfold SimEngineVEX.new_IRSB in Hnew.
      destruct (pyvex_IRSB _ _ _ _ _ _ _ _); [|done].
      apply bind_Ok_inv in Hnew as (w2 & y5 & [= <- <-] & Hnew).
      apply bind_Ok_inv in Hnew as ([] & y6 & _ & [= _ <-]). cbn. lia. }
  assert (∀ m, let em := Nat.iter m SimEngineVEX.count_object (SimEngineVEX.engine w) in
               SimEngineVEX._block_cache em = SimEngineVEX._block_cache (SimEngineVEX.engine w)
               ∧ SimEngineVEX._use_cache em = SimEngineVEX._use_cache (SimEngineVEX.engine w)
               ∧ SimEngineVEX._cache_hit_count em
                 = SimEngineVEX._cache_hit_count (SimEngineVEX.engine w)
               ∧ SimEngineVEX._cache_miss_count em
                 = SimEngineVEX._cache_miss_count (SimEngineVEX.engine w)
               ∧ SimEngineVEX.objects em = SimEngineVEX.objects (SimEngineVEX.engine w) + m)
    as Hiter.
  { induction m as [|m IH]; cbn zeta.
    - split_and!; [done..|]. cbn. lia.
    - cbn zeta in IH.
      change (Nat.iter (S m) SimEngineVEX.count_object (SimEngineVEX.engine w))
        with (SimEngineVEX.count_object
                (Nat.iter m SimEngineVEX.count_object (SimEngineVEX.engine w))).
      destruct (Nat.iter m SimEngineVEX.count_object (SimEngineVEX.engine w)).
      cbn in *. destruct IH as (?&?&?&?&?). split_and!; [done..|lia]. }
  destruct (Hiter n) as (Hc & Hu & Hh & Hm & Ho). cbn zeta in *.
  cbn [SimEngineVEX.engine SimEngineVEX._use_cache SimEngineVEX.count_object] in H2.
  destruct (SimEngineVEX._use_cache (SimEngineVEX.engine w)) eqn:Huse.
  - apply cache_setitem_Ok in H2 as (c & Hset & ->). cbn.
    rewrite Hu, Hh, Hm, Ho. split_and!; [done..|lia|lia|done].
  - injection H2 as <-. cbn. rewrite Hc, Hu, Hh, Hm, Ho. split_and!; [done..|lia|lia|done].
Qed.

Lemma cache_contains_run key w :
  SimEngineVEX.cache_contains key w
  = (w, Ok (LRUCache.contains key (SimEngineVEX._block_cache (SimEngineVEX.engine w)))).
Proof. done. Qed.

(** A call of phase 3 onwards that finds nothing in the cache, or does not
    look. *)
Lemma lift_prepared_miss (clemory : option C) insn_bytes p traceflags w w' b :
  SimEngineVEX._use_cache (SimEngineVEX.engine w)
  && LRUCache.contains (SimEngineVEX.key_of insn_bytes p (SimEngineVEX.p_size p))
       (SimEngineVEX._block_cache (SimEngineVEX.engine w)) = false →
  SimEngineVEX.lift_prepared clemory insn_bytes p traceflags w = (w', Ok b) →
  SimEngineVEX.state w' = SimEngineVEX.state w
  ∧ SimEngineVEX._cache_hit_count (SimEngineVEX.engine w')
    = SimEngineVEX._cache_hit_count (SimEngineVEX.engine w)
  ∧ SimEngineVEX._cache_miss_count (SimEngineVEX.engine w')
    = S (SimEngineVEX._cache_miss_count (SimEngineVEX.engine w))
  ∧ SimEngineVEX._use_cache (SimEngineVEX.engine w')
    = SimEngineVEX._use_cache (SimEngineVEX.engine w)
  ∧ SimEngineVEX.objects (SimEngineVEX.engine w) ≤ IRSB.id b
  ∧ SimEngineVEX.objects (SimEngineVEX.engine w') = S (IRSB.id b)
  ∧ (SimEngineVEX._use_cache (SimEngineVEX.engine w) = false →
     SimEngineVEX._block_cache (SimEngineVEX.engine w')
     = SimEngineVEX._block_cache (SimEngineVEX.engine w)).
Proof.
  intros Hmiss. unfold SimEngineVEX.lift_prepared. cbv zeta.
  rewrite (bind_run _ _ w w w) by done.
  rewrite (bind_run _ _ w w _ (cache_contains_run _ w)).
  rewrite Hmiss.
  rewrite (bind_run _ _ w _ tt (on_engine_state _ w)).
  intros Hfresh%lift_fresh_effect. cbn in Hfresh. exact Hfresh.
Qed.

(** X18. With the cache switched off, [lift] neither reads nor writes it:
    every call that returns counts one miss and no hit, leaves the cache
    as it was and returns a block object made during the call, so that two
    calls in a row, whatever their arguments, never return the same
    object. *)
Theorem lift_without_cache_makes_new_blocks (clemory : option C) insn_bytes arch addr
    size num_inst traceflags thumb opt_level w w1 b :
  SimEngineVEX._use_cache (SimEngineVEX.engine w) = false →
  SimEngineVEX.lift clemory insn_bytes arch addr size num_inst traceflags thumb
    opt_level w = (w1, Ok b) →
  SimEngineVEX._block_cache (SimEngineVEX.engine w1)
  = SimEngineVEX._block_cache (SimEngineVEX.engine w)
  ∧ SimEngineVEX._cache_hit_count (SimEngineVEX.engine w1)
    = SimEngineVEX._cache_hit_count (SimEngineVEX.engine w)
  ∧ SimEngineVEX._cache_miss_count (SimEngineVEX.engine w1)
    = S (SimEngineVEX._cache_miss_count (SimEngineVEX.engine w))
  ∧ SimEngineVEX.objects (SimEngineVEX.engine w) ≤ IRSB.id b
  ∧ IRSB.id b < SimEngineVEX.objects (SimEngineVEX.engine w1)
  ∧ ∀ (clemory' : option C) insn_bytes' arch' addr' size' num_inst' traceflags' thumb'
      opt_level' w2 b',
      SimEngineVEX.lift clemory' insn_bytes' arch' addr' size' num_inst' traceflags'
        thumb' opt_level' w1 = (w2, Ok b') →
      IRSB.id b' ≠ IRSB.id b.
Proof.
  intros Huse Hlift.
  assert (∀ (cl : option C) ib ar ad sz ni tf th ol wa wb bb,
            SimEngineVEX._use_cache (SimEngineVEX.engine wa) = false →
            SimEngineVEX.lift cl ib ar ad sz ni tf th ol wa = (wb, Ok bb) →
            SimEngineVEX._block_cache (SimEngineVEX.engine wb)
            = SimEngineVEX._block_cache (SimEngineVEX.engine wa)
            ∧ SimEngineVEX._cache_hit_count (SimEngineVEX.engine wb)
              = SimEngineVEX._cache_hit_count (SimEngineVEX.engine wa)
            ∧ SimEngineVEX._cache_miss_count (SimEngineVEX.engine wb)
              = S (SimEngineVEX._cache_miss_count (SimEngineVEX.engine wa))
            ∧ SimEngineVEX._use_cache (SimEngineVEX.engine wb) = false
            ∧ SimEngineVEX.objects (SimEngineVEX.engine wa) ≤ IRSB.id bb
            ∧ SimEngineVEX.objects (SimEngineVEX.engine wb) = S (IRSB.id bb)) as Hone.
  { intros cl ib ar ad sz ni tf th ol wa wb bb Hu Hl. unfold SimEngineVEX.lift in Hl.
    apply bind_Ok_inv in Hl as (p & wp & Hprep & Hrest).
    apply lift_prepare_engine in Hprep as ((Hc & Hu' & Hh & Hm & Ho) & _).
    apply lift_prepared_miss in Hrest as (_ & Hh2 & Hm2 & Hu2 & Hlo & Hhi & Hcache).
    2:{ by rewrite Hu', Hu. }
    rewrite Hu', Hu in Hu2, Hcache.
    rewrite Hcache by done. rewrite Hh2, Hm2, Hhi. rewrite <- Ho.
    split_and!; try done; congruence. }
  destruct (Hone _ _ _ _ _ _ _ _ _ _ _ _ Huse Hlift) as (Hc & Hh & Hm & Hu & Hlo & Hhi).
  split_and!; [done|done|done|done|lia|].
  intros cl ib ar ad sz ni tf th ol w2 b' Hl2.
  destruct (Hone _ _ _ _ _ _ _ _ _ _ _ _ Hu Hl2) as (_ & _ & _ & _ & Hlo2 & _). lia.
Qed.

(** The first [lift] on an empty cache is a miss: a call that returns has
    counted one miss and no hit and returns a block made during the
    call. *)
Lemma lift_on_empty_cache (clemory : option C) insn_bytes arch addr
    size num_inst traceflags thumb opt_level w w1 b :
  LRUCache.entries (SimEngineVEX._block_cache (SimEngineVEX.engine w)) = [] →
  SimEngineVEX.lift clemory insn_bytes arch addr size num_inst traceflags thumb
    opt_level w = (w1, Ok b) →
  SimEngineVEX._cache_hit_count (SimEngineVEX.engine w1)
  = SimEngineVEX._cache_hit_count (SimEngineVEX.engine w)
  ∧ SimEngineVEX._cache_miss_count (SimEngineVEX.engine w1)
    = S (SimEngineVEX._cache_miss_count (SimEngineVEX.engine w))
  ∧ SimEngineVEX.objects (SimEngineVEX.engine w) ≤ IRSB.id b
  ∧ IRSB.id b < SimEngineVEX.objects (SimEngineVEX.engine w1).
Proof.
  intros Hempty Hlift. unfold SimEngineVEX.lift in Hlift.
  apply bind_Ok_inv in Hlift as (p & wp & Hprep & Hrest).
  apply lift_prepare_engine in Hprep as ((Hc & Hu' & Hh & Hm & Ho) & _).
  apply lift_prepared_miss in Hrest as (_ & Hh2 & Hm2 & _ & Hlo & Hhi & _).
  2:{ unfold LRUCache.contains. rewrite Hc, Hempty. apply andb_false_r. }
  rewrite Hh2, Hm2, Hhi, <- Ho. split_and!; [done|congruence|done|lia].
Qed.

(** X19. [clear_cache] and pickling forget every cached block and keep the
    settings: on the engine that [clear_cache] leaves, and on the one
    unpickled from [__getstate__], the next [lift] is a miss even for
    arguments that were cached before; a call that returns has counted
    one miss and no hit since, and returns a block made during the call.
    The two engines are the same, with the stop points, cache use,
    optimisation level, self-modification support, single-stepping and
    cache size of the original. *)
Theorem cleared_cache_forgets_blocks (clemory : option C) insn_bytes arch addr
    size num_inst traceflags thumb opt_level e (st : option (SimState.t P)) (q : Q) w1 b :
  let cleared := SimEngineVEX.clear_cache e in
  let unpickled :=
    SimEngineVEX.__setstate__ (SimEngineVEX.__getstate__ e) (SimEngineVEX.objects e) in
  SimEngineVEX.lift clemory insn_bytes arch addr size num_inst traceflags thumb
    opt_level (SimEngineVEX.World cleared st q) = (w1, Ok b) →
  unpickled = cleared
  ∧ SimEngineVEX.__getstate__ cleared = SimEngineVEX.__getstate__ e
  ∧ SimEngineVEX._cache_hit_count (SimEngineVEX.engine w1) = 0
  ∧ SimEngineVEX._cache_miss_count (SimEngineVEX.engine w1) = 1
  ∧ SimEngineVEX.objects e ≤ IRSB.id b
  ∧ IRSB.id b < SimEngineVEX.objects (SimEngineVEX.engine w1).
Proof.
  intros cleared unpickled Hlift.
  apply lift_on_empty_cache in Hlift as (Hhit & Hmiss & Hlo & Hhi); [|done].
  split_and!; [by destruct e|by destruct e|exact Hhit|exact Hmiss|exact Hlo|exact Hhi].
Qed.

(** X20. Single-stepping does not survive a MIPS block: when [lift] settles
    its arguments for an architecture whose name starts with [MIPS], the
    engine's single-step setting is off afterwards, for this and every
    later call, and the instruction cap is not forced to one. *)
Theorem lift_on_mips_ends_single_stepping (clemory : option C) insn_bytes arch addr
    size num_inst thumb opt_level w wp p :
  SimEngineVEX.lift_prepare clemory insn_bytes arch addr size num_inst thumb opt_level w
  = (wp, Ok p) →
  String.prefix "MIPS" (name (SimEngineVEX.p_arch p)) = true →
  SimEngineVEX._single_step (SimEngineVEX.engine wp) = false
  ∧ SimEngineVEX.p_num_inst p = Z.min VEX_IRSB_MAX_INST <$> num_inst.
Proof.
  intros Hprep Hmips.
  pose proof (lift_prepare_Ok _ _ _ _ _ _ _ _ _ _ _ Hprep) as [_ Hni].
  apply lift_prepare_engine in Hprep as (_ & _ & Hss).
  rewrite Hmips, andb_false_r in Hss. rewrite Hss in Hni. split; [done|].
  rewrite Hni. unfold SimEngineVEX.effective_num_inst.
  destruct num_inst as [n|]; [|done]. simpl. f_equal. lia.
Qed.

(** X21. A block of size zero is not run: [_process] given (or lifting) such
    a block raises [SimIRSBError] once its set-up is done, before any
    statement is handled; the state is as the set-up (and the lift) left
    it. *)
Theorem process_refuses_empty_block fuel (irsb : option IRSB.t) skip_stmts last_stmt
    whitelist insn_bytes size num_inst traceflags thumb opt_level w w0 addr w1 b :
  SimEngineVEX.process_setup w = (w0, Ok addr) →
  match irsb with
  | Some given => (w1, Ok b) = (w0, Ok given)
  | None =>
      SimEngineVEX.lift None insn_bytes None (Some addr) size num_inst traceflags thumb
        opt_level w0 = (w1, Ok b)
  end →
  IRSB.size b = 0%Z →
  SimEngineVEX._process (S fuel) irsb skip_stmts last_stmt whitelist insn_bytes size
    num_inst traceflags thumb opt_level w
  = Some (w1, Raise (SimIRSBError "Empty IRSB passed to SimIRSB.")).
Proof.
  intros Hsetup Hblock Hsize. unfold SimEngineVEX._process. rewrite Hsetup.
  cbn [SimEngineVEX.process_loop]. unfold SimEngineVEX.enter_block.
  assert ((match irsb with
           | Some b0 => ret b0
           | None => SimEngineVEX.lift None insn_bytes None (Some addr) size num_inst
                       traceflags thumb opt_level
           end) w0 = (w1, Ok b)) as Hb.
  { destruct irsb as [given|]; [|done]. by injection Hblock as -> ->. }
  rewrite (bind_run _ _ w0 w1 b Hb).
  by rewrite (proj2 (Z.eqb_eq _ _) Hsize).
Qed.

End LiftEffects.

(** The theorem on lifting without the cache, on an engine made with
    [use_cache=False]: two calls with the same arguments return two
    objects. *)
Lemma lift_without_cache_makes_new_blocks_witness :
  let w := Reference.world (SimEngineVEX.init None false 10 1 false false)
             (Some (Reference.state "AMD64" Reference.symbolic_options [])) 4096 in
  let call := SimEngineVEX.lift (C := unit) None (Some (Reference.bytes 8)) None
                (Some 4096%Z) None None 0 false None in
  ∃ w1 b w2 b',
    call w = (w1, Ok b) ∧ call w1 = (w2, Ok b')
    ∧ IRSB.id b' ≠ IRSB.id b
    ∧ SimEngineVEX._cache_miss_count (SimEngineVEX.engine w2) = 2
    ∧ LRUCache.entries (SimEngineVEX._block_cache (SimEngineVEX.engine w2)) = [].
Proof.
  intros w call.
  assert (∃ w1 b w2 b',
            call w = (w1, Ok b) ∧ call w1 = (w2, Ok b')
            ∧ SimEngineVEX._cache_miss_count (SimEngineVEX.engine w2) = 2
            ∧ LRUCache.entries (SimEngineVEX._block_cache (SimEngineVEX.engine w2)) = [])
    as (w1 & b & w2 & b' & Hfirst & Hsecond & Hmiss & Hcache).
  { eexists _, _, _, _. split; [|split; [|split]].
    - match goal with
      | |- ?l = _ => let v := eval vm_compute in l in change l with v
      end. reflexivity.
    - match goal with
      | |- ?l = _ => let v := eval vm_compute in l in change l with v
      end. reflexivity.
    - vm_compute. reflexivity.
    - vm_compute. reflexivity. }
  destruct (lift_without_cache_makes_new_blocks None (Some (Reference.bytes 8)) None
              (Some 4096%Z) None None 0 false None w w1 b eq_refl Hfirst)
    as (_ & _ & _ & _ & _ & Hnew).
  exists w1, b, w2, b'. split_and!; [done|done| |done|done].
  exact (Hnew _ _ _ _ _ _ _ _ _ _ _ Hsecond).
Defined.

(** The theorem on cleared caches, on an engine that has lifted and
    cached a block and is then cleared: the same call misses again. *)
Lemma cleared_cache_forgets_blocks_witness :
  let st := Some (Reference.state "AMD64" Reference.symbolic_options []) in
  let call := SimEngineVEX.lift (C := unit) None (Some (Reference.bytes 8)) None
                (Some 4096%Z) None None 0 false None in
  let w1 := (call (Reference.world (Reference.engine None 10) st 4096)).1 in
  let e := SimEngineVEX.engine w1 in
  length (LRUCache.entries (SimEngineVEX._block_cache e)) = 1
  ∧ ∃ w2 b,
      call (SimEngineVEX.World (SimEngineVEX.clear_cache e) st (SimEngineVEX.successors w1))
      = (w2, Ok b)
      ∧ SimEngineVEX._cache_hit_count (SimEngineVEX.engine w2) = 0
      ∧ SimEngineVEX._cache_miss_count (SimEngineVEX.engine w2) = 1.
Proof.
  intros st call w1 e. split; [vm_compute; reflexivity|].
  assert (∃ w2 b,
            call (SimEngineVEX.World (SimEngineVEX.clear_cache e) st
                    (SimEngineVEX.successors w1)) = (w2, Ok b))
    as (w2 & b & Hlift).
  { eexists _, _.
    match goal with
    | |- ?l = _ => let v := eval vm_compute in l in change l with v
    end. reflexivity. }
  destruct (cleared_cache_forgets_blocks None (Some (Reference.bytes 8)) None
              (Some 4096%Z) None None 0 false None e st (SimEngineVEX.successors w1)
              w2 b Hlift) as (_ & _ & Hhit & Hmiss & _).
  exists w2, b. split_and!; [exact Hlift|exact Hhit|exact Hmiss].
Defined.

(** The theorem on MIPS, on a single-stepping engine and a MIPS state. *)
Lemma lift_on_mips_ends_single_stepping_witness :
  let w := Reference.world (SimEngineVEX.init None true 10 1 false true)
             (Some (Reference.state "MIPS32" Reference.symbolic_options [])) 4096 in
  SimEngineVEX._single_step (SimEngineVEX.engine w) = true
  ∧ ∃ wp p,
      SimEngineVEX.lift_prepare (C := unit) None (Some (Reference.bytes 8)) None
        (Some 4096%Z) None None false None w = (wp, Ok p)
      ∧ SimEngineVEX._single_step (SimEngineVEX.engine wp) = false
      ∧ SimEngineVEX.p_num_inst p = None.
Proof.
  intros w. split; [reflexivity|].
  assert (∃ wp p,
            SimEngineVEX.lift_prepare (C := unit) None (Some (Reference.bytes 8)) None
              (Some 4096%Z) None None false None w = (wp, Ok p)
            ∧ String.prefix "MIPS" (name (SimEngineVEX.p_arch p)) = true)
    as (wp & p & Hprep & Hmips).
  { eexists _, _. split.
    - match goal with
      | |- ?l = _ => let v := eval vm_compute in l in change l with v
      end. reflexivity.
    - vm_compute. reflexivity. }
  exists wp, p. split; [exact Hprep|].
  exact (lift_on_mips_ends_single_stepping None (Some (Reference.bytes 8)) None
           (Some 4096%Z) None None false None w wp p Hprep Hmips).
Defined.

(** The theorem on empty blocks, on a block of no statement and size
    zero. *)
Lemma process_refuses_empty_block_witness :
  let w := Reference.world (Reference.engine None 10)
             (Some (Reference.state "AMD64" Reference.symbolic_options [])) 4096 in
  let empty := IRSB.Build 0 [] 0 (Const 4096) "Ijk_Boring" true in
  ∃ w0,
    SimEngineVEX._process 1 (Some empty) 0 None None None None None 0 false None w
    = Some (w0, Raise (SimIRSBError "Empty IRSB passed to SimIRSB.")).
Proof.
  intros w empty. eexists.
  eapply (process_refuses_empty_block 0 (Some empty) 0 None None None None None 0 false
            None w _ _ _ empty).
  - match goal with
    | |- ?l = _ => let v := eval vm_compute in l in change l with v
    end. reflexivity.
  - reflexivity.
  - reflexivity.
Defined.

(* ===================================================================== *)
(** * Properties of [Instruction]                                         *)
(* ===================================================================== *)

(** The characters of a string. *)
Definition chars (s : string) : list ascii := String.list_ascii_of_string s.

(** The bits found where the format has the character [c], in order. *)
Fixpoint field (c : ascii) (bin_format instr_bits : string) : string :=
  match bin_format, instr_bits with
  | String f bin_format', String b instr_bits' =>
      if decide (f = c) then String b (field c bin_format' instr_bits')
      else field c bin_format' instr_bits'
  | _, _ => EmptyString
  end.

(** A position at which the loop of [parse] stops: a fixed bit that
    differs, or a character that is neither a bit nor a letter. *)
Definition offending (fb : ascii * ascii) : bool :=
  if Instruction.is_bit fb.1 then bool_decide (fb.2 ≠ fb.1)
  else negb (Instruction.is_ascii_letter fb.1).

Section InstructionFacts.
Implicit Types (c f b : ascii) (data : gmap ascii string).

Lemma is_bit_not_letter c :
  Instruction.is_bit c = true → Instruction.is_ascii_letter c = false.
Proof.
  unfold Instruction.is_bit. intros [->| ->]%bool_decide_eq_true; done.
Qed.

Lemma empty_fields_lookup bin_format c :
  Instruction.empty_fields bin_format !! c
  = if Instruction.is_ascii_letter c && bool_decide (c ∈ chars bin_format)
    then Some EmptyString else None.
Proof.
  induction bin_format as [|f rest IH]; cbn [Instruction.empty_fields chars
    String.list_ascii_of_string].
  - rewrite lookup_empty. rewrite bool_decide_eq_false_2 by apply not_elem_of_nil.
    by rewrite andb_false_r.
  - fold (chars rest). destruct (decide (c = f)) as [->|Hne].
    + rewrite (bool_decide_eq_true_2 (f ∈ f :: chars rest)) by (by left).
      rewrite andb_true_r. destruct (Instruction.is_ascii_letter f) eqn:Hl.
      * by rewrite lookup_insert_eq.
      * by rewrite IH, ?Hl.
    + assert (bool_decide (c ∈ f :: chars rest) = bool_decide (c ∈ chars rest)) as ->.
      { apply bool_decide_ext. rewrite elem_of_cons.
        split; [intros [?|?]; [congruence|done]|by right]. }
      destruct (Instruction.is_ascii_letter f); [|exact IH].
      rewrite lookup_insert_ne by done. exact IH.
Qed.

(** What the loop does to the dictionary it is given, provided that its
    keys are letters and that every letter of the format is a key. *)
Lemma match_bits_fields bin_format instr_bits data0 data :
  Instruction.match_bits bin_format instr_bits data0 = Instruction.Done data →
  (∀ c, is_Some (data0 !! c) → Instruction.is_ascii_letter c = true) →
  (∀ c, c ∈ chars bin_format → Instruction.is_ascii_letter c = true →
        is_Some (data0 !! c)) →
  ∀ c, data !! c = (λ s, s +:+ field c bin_format instr_bits) <$> data0 !! c.
Proof.
  revert instr_bits data0.
  induction bin_format as [|f rest IH]; intros instr_bits data0 Hrun Hkeys Hall c.
  - injection Hrun as <-. cbn. destruct (data0 !! c); [|done].
    cbn. by rewrite str_app_nil_r.
  - destruct instr_bits as [|b bits].
    { injection Hrun as <-. cbn. destruct (data0 !! c); [|done].
      cbn. by rewrite str_app_nil_r. }
    cbn [Instruction.match_bits field] in Hrun |- *.
    destruct (Instruction.is_bit f) eqn:Hbit.
    + case_bool_decide; [done|].
      rewrite (IH bits data0 Hrun Hkeys); [|].
      2:{ intros c' Hin. apply Hall. cbn. by right. }
      destruct (decide (f = c)) as [->|Hne]; [|done].
      destruct (data0 !! c) eqn:Hc; [|done].
      apply is_bit_not_letter in Hbit. rewrite Hkeys in Hbit by (by eexists). done.
    + destruct (Instruction.is_ascii_letter f) eqn:Hletter; [|done].
      destruct (Hall f) as [s0 Hs0]; [cbn; by left|done|]. rewrite Hs0 in Hrun.
      cbn [default] in Hrun.
      rewrite (IH bits _ Hrun); [| |].
      2:{ intros c' [s' Hc']. destruct (decide (c' = f)) as [->|Hne]; [done|].
          rewrite lookup_insert_ne in Hc' by done. apply Hkeys. by eexists. }
      2:{ intros c' Hin Hl. destruct (decide (c' = f)) as [->|Hne].
          - rewrite lookup_insert_eq. by eexists.
          - rewrite lookup_insert_ne by done. apply Hall; [|done]. cbn. by right. }
      destruct (decide (f = c)) as [->|Hne].
      * rewrite lookup_insert_eq, Hs0. cbn. by rewrite str_app_assoc.
      * by rewrite lookup_insert_ne.
Qed.

(** The outcome of the loop is decided by the first offending position. *)
Lemma match_bits_outcome bin_format instr_bits data0 :
  match find offending (zip (chars bin_format) (chars instr_bits)) with
  | None => ∃ data, Instruction.match_bits bin_format instr_bits data0
                    = Instruction.Done data
  | Some (f, b) =>
      Instruction.match_bits bin_format instr_bits data0
      = Instruction.Fail
          (if Instruction.is_bit f then Instruction.ParseError f b
           else Instruction.ValueError
                  ("Invalid bin_format character " +:+ String f EmptyString))
  end.
Proof.
  revert instr_bits data0.
  induction bin_format as [|f rest IH]; intros instr_bits data0; [by eexists|].
  destruct instr_bits as [|b bits]; [by eexists|].
  cbn [chars String.list_ascii_of_string zip zip_with find].
  fold (chars rest) (chars bits). cbn [Instruction.match_bits].
  unfold offending at 1. cbn [fst snd].
  destruct (Instruction.is_bit f) eqn:Hbit.
  - case_bool_decide as Hne; cbn [fmap option_fmap option_map].
    + by rewrite Hbit.
    + apply IH.
  - destruct (Instruction.is_ascii_letter f) eqn:Hletter; cbn [negb].
    + apply IH.
    + by rewrite Hbit.
Qed.

Context {B : Type} `{!Instruction.BitStream B}.

(** The bits [parse] looks at. *)
Definition peeked (bin_format : string) (a : Instruction.arch) (bitstrm : B)
  : Instruction.res string :=
  if String.eqb (Instruction.instruction_endness a) "Iend_LE"
  then Instruction.peek_uintle_bin (String.length bin_format) bitstrm
  else Instruction.peek_bin (String.length bin_format) bitstrm.

(** X22. A parse that succeeds has split the instruction word by the
    format: the dictionary has exactly the letters of the format as keys,
    each bound to the bits found at the positions of that letter, in
    order; at every position where the format has a fixed bit the
    instruction has that bit; and the bits were then consumed from the
    stream by the one read of the raw bits. *)
Theorem parse_extracts_fields (bin_format : string) (a : Instruction.arch) (bitstrm : B)
    bitstrm' data rawbits :
  Instruction.parse bin_format a bitstrm = (bitstrm', Instruction.Done (data, rawbits)) →
  ∃ instr_bits,
    peeked bin_format a bitstrm = Instruction.Done instr_bits
    ∧ (∀ c, data !! c
            = if Instruction.is_ascii_letter c && bool_decide (c ∈ chars bin_format)
              then Some (field c bin_format instr_bits) else None)
    ∧ (∀ i f b, chars bin_format !! i = Some f → chars instr_bits !! i = Some b →
                Instruction.is_bit f = true → b = f)
    ∧ Instruction.read_hex (String.length bin_format) bitstrm
      = (bitstrm', Instruction.Done rawbits).
Proof.
  unfold Instruction.parse. fold (peeked bin_format a bitstrm).
  destruct (peeked bin_format a bitstrm) as [instr_bits|e]; [|done].
  destruct (Instruction.match_bits _ _ _) as [data1|e] eqn:Hmatch; [|done].
  destruct (Instruction.read_hex _ _) as [b1 [raw|e]] eqn:Hread; [|done].
  intros [= <- <- <-]. exists instr_bits. split_and!; [done| | |done].
  - intros c.
    rewrite (match_bits_fields _ _ _ _ Hmatch).
    + rewrite empty_fields_lookup. by destruct (_ && _).
    + intros c' [s Hs]. rewrite empty_fields_lookup in Hs.
      by destruct (Instruction.is_ascii_letter c').
    + intros c' Hin Hl. rewrite empty_fields_lookup, Hl.
      rewrite bool_decide_eq_true_2 by done. by eexists.
  - intros i f b Hf Hb Hbit.
    pose proof (match_bits_outcome bin_format instr_bits
                  (Instruction.empty_fields bin_format)) as Hout.
    destruct (find offending _) as [[f' b']|] eqn:Hfind.
    { rewrite Hmatch in Hout. done. }
    assert ((f, b) ∈ zip (chars bin_format) (chars instr_bits)) as Hin.
    { apply list_elem_of_lookup. exists i. apply lookup_zip_with_Some.
      by exists f, b. }
    apply list_elem_of_In in Hin. apply (find_none _ _ Hfind) in Hin.
    unfold offending in Hin. cbn [fst snd] in Hin. rewrite Hbit in Hin.
    by apply bool_decide_eq_false, dec_stable in Hin.
Qed.

(** X23. A parse fails at the first position of the format that does not
    fit and consumes nothing: with [ParseError] when that position holds a
    fixed bit that the instruction does not have, with [ValueError] when it
    holds a character that is neither a bit nor a letter; what comes after
    that position is not looked at. *)
Theorem parse_fails_at_first_offence (bin_format : string) (a : Instruction.arch)
    (bitstrm : B) instr_bits f b :
  peeked bin_format a bitstrm = Instruction.Done instr_bits →
  find offending (zip (chars bin_format) (chars instr_bits)) = Some (f, b) →
  Instruction.parse bin_format a bitstrm
  = (bitstrm,
     Instruction.Fail
       (if Instruction.is_bit f then Instruction.ParseError f b
        else Instruction.ValueError
               ("Invalid bin_format character " +:+ String f EmptyString))).
Proof.
  intros Hpeek Hfind. unfold Instruction.parse. fold (peeked bin_format a bitstrm).
  rewrite Hpeek.
  pose proof (match_bits_outcome bin_format instr_bits
                (Instruction.empty_fields bin_format)) as Hout.
  rewrite Hfind in Hout. by rewrite Hout.
Qed.

(** X24. [bytewidth] divides exactly or raises: a value it returns, times
    the byte width of the architecture, is the number of bits of the
    format; a format that is not a whole number of bytes is a
    [ValueError], and a byte width of zero a [ZeroDivisionError]. *)
Theorem bytewidth_is_exact (bin_format : string) (a : Instruction.arch) :
  match Instruction.bytewidth bin_format a with
  | Instruction.Done n =>
      (n * Instruction.byte_width a = Instruction.bitwidth bin_format)%Z
      ∧ Instruction.byte_width a ≠ 0%Z
  | Instruction.Fail Instruction.ZeroDivisionError => Instruction.byte_width a = 0%Z
  | Instruction.Fail (Instruction.ValueError _) =>
      Instruction.byte_width a ≠ 0%Z
      ∧ ¬ (Instruction.byte_width a | Instruction.bitwidth bin_format)%Z
  | Instruction.Fail _ => False
  end.
Proof.
  unfold Instruction.bytewidth.
  destruct (Instruction.byte_width a =? 0)%Z eqn:Hz; [by apply Z.eqb_eq|].
  apply Z.eqb_neq in Hz.
  destruct (_ mod _ =? 0)%Z eqn:Hm; cbn [negb].
  - apply Z.eqb_eq in Hm. split; [|done].
    apply Z.mod_divide in Hm as [q Hq]; [|done]. rewrite Hq.
    by rewrite Z.div_mul.
  - apply Z.eqb_neq in Hm. split; [done|].
    intros Hd. apply Hm. by apply Z.mod_divide.
Qed.

End InstructionFacts.

(** The format of the class documentation: the word [0010110101101001]
    under [0010rrrrddddffmm]. *)
Example parse_documented_example :
  let r := Instruction.parse "0010rrrrddddffmm" (Instruction.Arch "Iend_BE" 8)
             "001011010110100111" in
  r.1 = "11"
  ∧ match r.2 with
    | Instruction.Done (data, rawbits) =>
        data = {["r"%char := "1101"; "d"%char := "0110"; "f"%char := "10";
                 "m"%char := "01"]}
        ∧ rawbits = "2d69"
    | Instruction.Fail _ => False
    end.
Proof. vm_compute. done. Qed.

(** The theorem on the fields, on the documented format read from a
    little-endian stream (the two bytes of the word swapped), followed by
    two more bits. *)
Lemma parse_extracts_fields_witness :
  let bin_format := "0010rrrrddddffmm" in
  let a := Instruction.Arch "Iend_LE" 8 in
  ∃ data rawbits instr_bits,
    Instruction.parse bin_format a "011010010010110111"
    = ("11", Instruction.Done (data, rawbits))
    ∧ instr_bits = "0010110101101001"
    ∧ peeked bin_format a "011010010010110111" = Instruction.Done instr_bits
    ∧ (∀ c, data !! c
            = if Instruction.is_ascii_letter c && bool_decide (c ∈ chars bin_format)
              then Some (field c bin_format instr_bits) else None)
    ∧ data !! "r"%char = Some "1101".
Proof.
  intros bin_format a.
  assert (∃ data rawbits,
            Instruction.parse bin_format a "011010010010110111"
            = ("11", Instruction.Done (data, rawbits))
            ∧ data !! "r"%char = Some "1101")
    as (data & rawbits & Hparse & Hr).
  { eexists _, _. split.
    - match goal with
      | |- ?l = _ => let v := eval vm_compute in l in change l with v
      end. reflexivity.
    - vm_compute. reflexivity. }
  destruct (parse_extracts_fields bin_format a "011010010010110111" "11" data rawbits
              Hparse) as (instr_bits & Hpeek & Hfields & _).
  exists data, rawbits, instr_bits. split_and!; [done| |done|done|done].
  assert (peeked bin_format a "011010010010110111"
          = Instruction.Done "0010110101101001") as Hp by (vm_compute; reflexivity).
  rewrite Hp in Hpeek. by injection Hpeek as <-.
Defined.

(** The theorem on failures, on a format whose third bit does not match
    and whose fifth character is no format character. *)
Lemma parse_fails_at_first_offence_witness :
  Instruction.parse "0011-rrr" (Instruction.Arch "Iend_BE" 8) "00010000"
  = ("00010000", Instruction.Fail (Instruction.ParseError "1" "0")).
Proof.
  apply (parse_fails_at_first_offence "0011-rrr" (Instruction.Arch "Iend_BE" 8)
           "00010000" "00010000" "1" "0").
  - vm_compute. reflexivity.
  - vm_compute. reflexivity.
Defined.

(* ===================================================================== *)
(** * Properties of [Blob]                                                *)
(* ===================================================================== *)

Section BlobFacts.
Context {A F M : Type} `{!Blob.Backing F M}.
Implicit Types (self : Blob.t A F M) (segments : list (Z * Z * Z)).

(** A segment was read and lies within the bounds of the blob. *)
Definition covered self (segment : Z * Z * Z) : Prop :=
  let '(file_offset, mem_addr, size) := segment in
  ∃ data, Blob.stream_read (Blob.binary_stream self) file_offset size = Blob.Done data
          ∧ (Blob.min_addr self ≤ mem_addr)%Z
          ∧ (mem_addr + Z.of_nat (String.length data) ≤ Blob.max_addr self)%Z.

(** The objects differ in the memory and the two bounds only, and the
    bounds of the second enclose those of the first. *)
Definition grows self self' : Prop :=
  Blob.pic self' = Blob.pic self
  ∧ Blob.arch self' = Blob.arch self
  ∧ Blob._custom_entry_point self' = Blob._custom_entry_point self
  ∧ Blob._entry self' = Blob._entry self
  ∧ Blob.os self' = Blob.os self
  ∧ Blob.binary_stream self' = Blob.binary_stream self
  ∧ (Blob._max_addr self ≤ Blob._max_addr self')%Z
  ∧ (Blob._min_addr self' ≤ Blob._min_addr self)%Z.

Lemma load_grows file_offset mem_addr size self self' :
  Blob._load file_offset mem_addr size self = Blob.Done self' →
  grows self self' ∧ covered self' (file_offset, mem_addr, size)
  ∧ Blob._max_addr self'
    = Z.max (match Blob.stream_read (Blob.binary_stream self) file_offset size with
             | Blob.Done data => Z.of_nat (String.length data) + mem_addr
             | Blob.Fail _ => 0
             end) (Blob._max_addr self)
  ∧ Blob._min_addr self' = Z.min mem_addr (Blob._min_addr self).
Proof.
  unfold Blob._load, covered, Blob.min_addr, Blob.max_addr.
  destruct (Blob.stream_read _ _ _) as [data|e] eqn:Hread; [|done].
  destruct (Blob.add_backer _ _ _) as [memory'|e]; [|done].
  intros [= <-]. cbn. unfold grows. cbn. split_and!; try done; try lia.
  exists data. rewrite Hread. split_and!; [done|lia|lia].
Qed.

Lemma load_all_grows segments self self' :
  Blob.load_all segments self = Blob.Done self' →
  grows self self' ∧ Forall (covered self') segments.
Proof.
  revert self. induction segments as [|[[file_offset mem_addr] size] rest IH];
    intros self; cbn [Blob.load_all].
  - intros [= <-]. split; [by unfold grows; split_and!; try lia|done].
  - destruct (Blob._load _ _ _ _) as [self1|e] eqn:Hload; [|done].
    intros Hrest. apply load_grows in Hload as (Hg1 & Hc1 & _).
    destruct (IH _ Hrest) as (Hg2 & Hcov).
    destruct Hg1 as (?&?&?&?&?&Hs1&?&?), Hg2 as (?&?&?&?&?&Hs2&?&?). split.
    + unfold grows. split_and!; try congruence; lia.
    + constructor; [|done]. unfold covered, Blob.min_addr, Blob.max_addr in *.
      destruct Hc1 as (data & Hread & ? & ?). exists data.
      rewrite Hs2. split_and!; [done|lia|lia].
Qed.

(** X25. A blob that [__init__] returns encloses everything it loaded:
    every segment it was to load was read from the file and lies between
    [min_addr] and [max_addr]; [max_addr] is never negative and [min_addr]
    never above [2**64], the values they keep when no segment is loaded;
    the blob is position independent, its entry point is the custom entry
    point or 0, and its segments are those given, [custom_offset] being
    ignored when both are given.  Without an architecture the constructor
    raises [CLEError] before anything is loaded. *)
Theorem blob_encloses_its_segments (b : Blob.backend A F M) (custom_offset : option Z)
    (segments : option (list (Z * Z * Z))) :
  match Blob.init b custom_offset segments with
  | Blob.Done self =>
      Forall (covered self)
        (match segments with
         | Some given => given
         | None => [(default 0 custom_offset, 0,
                     Blob.stream_end (Blob.b_binary_stream b) - default 0 custom_offset)%Z]
         end)
      ∧ (0 ≤ Blob.max_addr self)%Z
      ∧ (Blob.min_addr self ≤ 2 ^ 64)%Z
      ∧ (segments = Some [] → Blob.min_addr self = (2 ^ 64)%Z ∧ Blob.max_addr self = 0%Z)
      ∧ Blob.pic self = true
      ∧ Blob._entry self = default 0%Z (Blob.b_custom_entry_point b)
      ∧ Blob.b_arch b = Some (Blob.arch self)
      ∧ Blob.os self = "unknown"
  | Blob.Fail e =>
      Blob.b_arch b = None →
      e = Blob.CLEError "Must specify custom_arch when loading blob!"
  end.
Proof.
  unfold Blob.init. destruct (Blob.b_arch b) as [arch|]; [|done].
  set (self0 := Blob.Build _ _ _ _ _ _ _ _ _).
  destruct (Blob.load_all _ self0) as [self|e] eqn:Hload; [|done].
  pose proof Hload as (Hg & Hcov)%load_all_grows.
  destruct Hg as (Hpic & Harch & _ & Hentry & Hos & _ & Hmax & Hmin).
  subst self0. cbn in *. unfold Blob.min_addr, Blob.max_addr.
  split_and!; try done.
  - unfold Blob.segments_to_load in Hcov.
    destruct custom_offset as [co|], segments as [given|]; cbn [default]; try done.
    by rewrite Z.sub_0_r.
  - intros ->. unfold Blob.segments_to_load in Hload.
    destruct custom_offset; cbn in Hload; by injection Hload as <-.
  - by rewrite Harch.
Qed.

End BlobFacts.

(** A file of eight bytes loaded from offset 3: five bytes at address 0. *)
Example blob_custom_offset_example :
  match Blob.init (A := string) (Blob.Backend (Some "arch") None "abcdefgh" [])
          (Some 3%Z) None with
  | Blob.Done self =>
      Blob.memory self = [(0%Z, "defgh")]
      ∧ Blob.min_addr self = 0%Z ∧ Blob.max_addr self = 5%Z
  | Blob.Fail _ => False
  end.
Proof. vm_compute. done. Qed.

(* ===================================================================== *)
(** * Further properties of the statement handlers                        *)
(* ===================================================================== *)

Section StatementFacts.
Context {P C Q : Type}.
Context `{!StatePlugin P, !Collaborators P, !ScratchPlugin P, !EngineCollaborators P C Q}.
Implicit Types (w : SimEngineVEX.world P Q) (s : SimState.t P).

(** X26. Without [o.IGNORE_EXIT_GUARDS], a conditional exit is recorded
    before the state is constrained: the successor added is the copy of
    the state as it was when the statement was reached, without the
    continuation constraint; the negated guard is then added to the state
    by [add_constraints], and only when that returns is it conjoined to the
    scratch guard.  The successor stays recorded when [add_constraints]
    raises. *)
Theorem exit_is_recorded_before_it_is_constrained w s (pl : P) ss exit_state :
  SimEngineVEX.state w = Some s →
  has_option o.IGNORE_EXIT_GUARDS (SimState.options s) = false →
  SimState.plugins s !! "scratch" = Some pl →
  SimState.copy s = Ok exit_state →
  SimEngineVEX.handle_exit (Some ss) w
  = let recorded :=
      add_successor (SimEngineVEX.successors w) exit_state (stmt_target ss)
        (stmt_guard ss) (stmt_jumpkind ss) (exit_at (stmt_idx (scratch_get pl)))
        (ins_addr (scratch_get pl)) in
    match SimState.add_constraints [Not (stmt_guard ss)] false s with
    | (s1, Ok _) =>
        SimEngineVEX.conjoin_guard (Not (stmt_guard ss))
          (SimEngineVEX.World (SimEngineVEX.engine w) (Some s1) recorded)
    | (s1, Raise e) =>
        (SimEngineVEX.World (SimEngineVEX.engine w) (Some s1) recorded, Raise e)
    end.
Proof.
  intros Hs Ho Hp Hc. unfold SimEngineVEX.handle_exit.
  rewrite (bind_run _ _ w w exit_state)
    by (unfold SimEngineVEX.copy_state; by rewrite Hs, Hc).
  rewrite (bind_run _ _ w w false).
  2:{ rewrite (on_state_run _ w s s (Ok false) Hs).
      - by rewrite world_eta.
      - unfold SimState.option_on. by rewrite Ho. }
  cbn [negb]. cbv zeta.
  set (recorded := add_successor _ _ _ _ _ _ _).
  set (w1 := SimEngineVEX.World (SimEngineVEX.engine w) (SimEngineVEX.state w) recorded).
  rewrite (bind_run _ _ w w1 tt).
  2:{ unfold SimEngineVEX.add_exit_successor.
      by rewrite (bind_run _ _ w w (scratch_get pl)) by (by eapply scratch_run). }
  destruct (SimState.add_constraints [Not (stmt_guard ss)] false s) as [s1 [[]|e]] eqn:Hadd.
  - by rewrite (bind_run _ _ w1 _ tt (on_state_run _ w1 s s1 (Ok tt) Hs Hadd)).
  - unfold bind. by rewrite (on_state_run _ w1 s s1 (Raise e) Hs Hadd).
Qed.

Lemma call_plugin_elsewhere n (f : P → P) s :
  n ≠ "scratch" →
  SimState.plugins (SimState.call_plugin n f s).1 !! "scratch"
  = SimState.plugins s !! "scratch"
  ∧ ((SimState.call_plugin n f s).2 = Ok tt
     ∨ (SimState.call_plugin n f s).2 = Raise (KeyError n)).
Proof.
  intros Hne. unfold SimState.call_plugin, bind.
  destruct (get_plugin_cases n s) as [(q&Hq&E)|[(d&Hn&Hd&E)|(Hn&Hd&E)]]; rewrite E.
  - unfold modify. destruct s; cbn. rewrite lookup_insert_ne by done. by split; [|left].
  - unfold modify. destruct s; cbn. rewrite !lookup_insert_ne by done. by split; [|left].
  - cbn. by split; [|right].
Qed.

Lemma inspect_elsewhere ev when kw s :
  SimState.plugins (SimState._inspect ev when kw s).1 !! "scratch"
  = SimState.plugins s !! "scratch"
  ∧ (SimState._inspect ev when kw s).2 = Ok tt.
Proof.
  unfold SimState._inspect, SimState.has_plugin, bind.
  case_bool_decide as Hi; [|done].
  destruct Hi as [i Hi].
  unfold SimState.call_plugin. rewrite (bind_run _ _ s s i (get_plugin_present _ _ _ Hi)).
  unfold modify. destruct s; cbn. by rewrite lookup_insert_ne.
Qed.

(** X27. An instruction mark over bytes that the block has not written
    never raises the re-lift signal, and moves the scratch plugin on: the
    current instruction address becomes [addr + delta] and the count of
    instructions run is one more; this is so also when the later
    bookkeeping of the history fails. *)
Theorem imark_advances_scratch addr len delta w s (pl : P) :
  SimEngineVEX.state w = Some s →
  SimState.plugins s !! "scratch" = Some pl →
  (∀ subaddr, subaddr < len →
              (Z.of_nat subaddr + addr)%Z ∉ dirty_addrs (scratch_get pl)) →
  let w' := (SimEngineVEX.handle_imark addr len delta w).1 in
  let r := (SimEngineVEX.handle_imark addr len delta w).2 in
  (r = Ok tt ∨ r = Raise (KeyError "history"))
  ∧ ∃ s' pl',
      SimEngineVEX.state w' = Some s'
      ∧ SimState.plugins s' !! "scratch" = Some pl'
      ∧ scratch_get pl'
        = set_num_insns (num_insns (scratch_get pl) + 1)
            (set_ins_addr (addr + delta) (scratch_get pl)).
Proof.
  intros Hs Hp Hclean. cbv zeta. unfold SimEngineVEX.handle_imark.
  rewrite (bind_run _ _ _ _ tt (scratch_update_run _ w s pl Hs Hp)).
  set (pl1 := scratch_set _ pl). set (s1 := SimState.set_plugins _ s).
  set (w1 := SimEngineVEX.World _ _ _).
  assert (SimState.plugins s1 !! "scratch" = Some pl1) as Hp1.
  { subst s1. destruct s; cbn. apply lookup_insert_eq. }
  rewrite (bind_run _ _ w1 w1 (scratch_get pl1)) by (by eapply scratch_run).
  assert (scratch_get pl1 = set_ins_addr (addr + delta) (scratch_get pl)) as Hsc1.
  { subst pl1. by rewrite scratch_get_set. }
  rewrite Hsc1. cbn [dirty_addrs set_ins_addr].
  assert (existsb (λ i, bool_decide ((Z.of_nat i + addr)%Z ∈ dirty_addrs (scratch_get pl)))
            (seq 0 len) = false) as ->.
  { apply not_true_is_false. intros (i & Hi & Hd)%existsb_exists.
    apply in_seq in Hi. apply bool_decide_eq_true in Hd.
    apply (Hclean i); [lia|done]. }
  rewrite <- Hsc1.
  rewrite (bind_run _ _ w1 w1 (scratch_get pl1)) by (by eapply scratch_run).
  rewrite (bind_run _ _ _ _ tt (scratch_update_run _ w1 s1 pl1 eq_refl Hp1)).
  set (pl2 := scratch_set _ pl1). set (s2 := SimState.set_plugins _ s1).
  set (w2 := SimEngineVEX.World _ _ _).
  assert (SimState.plugins s2 !! "scratch" = Some pl2) as Hp2.
  { subst s2. destruct s1; cbn. apply lookup_insert_eq. }
  assert (scratch_get pl2
          = set_num_insns (num_insns (scratch_get pl) + 1)
              (set_ins_addr (addr + delta) (scratch_get pl))) as Hsc2.
  { subst pl2. by rewrite scratch_get_set, Hsc1. }
  destruct (inspect_elsewhere "instruction" BP_BEFORE (kw_instruction (addr + delta)) s2)
    as [Hk3 Hr3].
  destruct (SimState._inspect "instruction" BP_BEFORE (kw_instruction (addr + delta)) s2)
    as [s3 r3] eqn:Hi3. cbn [fst snd] in Hk3, Hr3. subst r3.
  rewrite (bind_run _ _ w2 _ tt (on_state_run _ w2 s2 s3 (Ok tt) eq_refl Hi3)).
  set (w3 := SimEngineVEX.World _ _ _).
  destruct (call_plugin_elsewhere "history"
              (λ h, history_append_ins_addr h (addr + delta)%Z) s3) as [Hk4 Hr4]; [done|].
  destruct (SimState.call_plugin "history" _ s3) as [s4 r4] eqn:Hc4.
  cbn [fst snd] in Hk4, Hr4.
  rewrite (on_state_run _ w3 s3 s4 r4 eq_refl Hc4). cbn [fst snd SimEngineVEX.state].
  split; [done|]. exists s4, pl2. split_and!; [done| |].
  - by rewrite Hk4, Hk3.
  - by rewrite Hsc2, Hsc1.
Qed.

End StatementFacts.

(** The theorem on recorded exits, on a reference world in the symbolic
    mode: the recorded successor holds no constraint, the state that goes
    on holds the negated guard. *)
Lemma exit_is_recorded_before_it_is_constrained_witness :
  let s := Reference.state "AMD64" Reference.symbolic_options [] in
  let w := Reference.world (Reference.engine None 10) (Some s) 4096 in
  let ss := Build_SimIRStmt (BoolS "t1") (BVV 8192 64) "Ijk_Boring" [] in
  let w' := (SimEngineVEX.handle_exit (C := unit) (Some ss) w).1 in
  Reference.constraints_of w' = Some [Not (BoolS "t1")]
  ∧ Reference.guard_of w' = Some (And [ctrue; Not (BoolS "t1")])
  ∧ ∃ exit_state,
      SimState.copy s = Ok exit_state
      ∧ Reference.held <$> SimState.plugins exit_state !! "solver_engine" = Some []
      ∧ Reference.added (SimEngineVEX.successors w')
        = [(exit_state, BVV 8192 64, BoolS "t1", "Ijk_Boring", exit_at 0, 0%Z)].
Proof.
  intros s w ss w'.
  assert (∃ exit_state, SimState.copy s = Ok exit_state) as [exit_state Hcopy].
  { eexists. vm_compute. reflexivity. }
  pose proof (exit_is_recorded_before_it_is_constrained (C := unit) w s
                (Reference.Plugin "scratch" [] Reference.fresh_scratch) ss exit_state
                eq_refl eq_refl eq_refl Hcopy) as Hrun.
  split_and!.
  - vm_compute. reflexivity.
  - vm_compute. reflexivity.
  - exists exit_state. split; [exact Hcopy|].
    assert (Some exit_state = Some (Reference.state "AMD64" Reference.symbolic_options []))
      as [= ->].
    { rewrite <- (f_equal (λ r, match r with Ok x => Some x | Raise _ => None end) Hcopy).
      vm_compute. reflexivity. }
    subst w'. rewrite Hrun. vm_compute. split; reflexivity.
Defined.

(** The theorem on instruction marks, on a reference world whose block has
    written nothing. *)
Lemma imark_advances_scratch_witness :
  let s := Reference.state "AMD64" Reference.symbolic_options [] in
  let w := Reference.world (Reference.engine None 10) (Some s) 4096 in
  let pl := Reference.Plugin "scratch" [] Reference.fresh_scratch in
  let w' := (SimEngineVEX.handle_imark (C := unit) 4096 2 0 w).1 in
  let r := (SimEngineVEX.handle_imark (C := unit) 4096 2 0 w).2 in
  (r = Ok tt ∨ r = Raise (KeyError "history"))
  ∧ ∃ s' pl',
      SimEngineVEX.state w' = Some s'
      ∧ SimState.plugins s' !! "scratch" = Some pl'
      ∧ scratch_get pl'
        = set_num_insns (num_insns (scratch_get pl) + 1)
            (set_ins_addr (4096 + 0) (scratch_get pl)).
Proof.
  intros s w pl.
  apply (imark_advances_scratch (C := unit) 4096 2 0 w s pl).
  - reflexivity.
  - reflexivity.
  - intros subaddr _. apply not_elem_of_empty.
Defined.

(* ===================================================================== *)
(** * Further properties of [lift] and [merge]                            *)
(* ===================================================================== *)

Section ArgumentFacts.
Context {P C Q : Type}.
Context `{!StatePlugin P, !Collaborators P, !ScratchPlugin P, !EngineCollaborators P C Q}.
Implicit Types (w : SimEngineVEX.world P Q) (s self : SimState.t P).

(** Without a state, [lift] needs an address, and without a memory
    image as well it needs both the bytes and the architecture: a call
    that lacks one of them raises [ValueError] in its sanity check and has
    touched neither the cache nor the counters. *)
Lemma lift_rejects_missing_sources (clemory : option C) insn_bytes arch addr size
    num_inst traceflags thumb opt_level w :
  SimEngineVEX.state w = None →
  is_none clemory && (negb (SimEngineVEX.truthy insn_bytes) || is_none arch)
  || is_none addr = true →
  ∃ msg,
    SimEngineVEX.lift clemory insn_bytes arch addr size num_inst traceflags thumb
      opt_level w = (w, Raise (ValueError msg)).
Proof.
  intros Hs Hmissing. unfold SimEngineVEX.lift, SimEngineVEX.lift_prepare.
  unfold bind at 1 2, get. cbv beta iota. rewrite Hs. cbn [is_none andb].
  destruct clemory as [c|]; cbn [is_none andb orb] in Hmissing |- *.
  - destruct addr as [a|]; [done|]. cbn [is_none andb]. by eexists.
  - destruct (SimEngineVEX.truthy insn_bytes); cbn [negb orb] in Hmissing |- *;
      [|by eexists].
    destruct arch as [ar|]; cbn [is_none orb] in Hmissing |- *; [|by eexists].
    destruct addr as [a|]; [done|]. by eexists.
Qed.

Lemma explicit_conditions_Ok (mcs : list (list ast)) s s' cs :
  SimState.explicit_conditions mcs s = (s', Ok cs) →
  cs = (λ mc, if bool_decide (length mc = 0) then ctrue else And mc) <$> mcs.
Proof.
  revert s s' cs.
  induction mcs as [|mc mcs IH]; intros s s' cs; cbn [SimState.explicit_conditions].
  - by intros [= _ <-].
  - intros (se & y & _ & H)%bind_Ok_inv.
    apply bind_Ok_inv in H as (cs' & y' & Hrest & [= _ <-]).
    rewrite fmap_cons. f_equal. exact (IH _ _ _ Hrest).
Qed.

(** X29. When the caller gives the merge conditions (and
    [o.IGNORE_MERGE_CONDITIONS] is not set) no discriminant is made: the
    merge counter stays where it was, whatever the outcome of the call, and
    the conditions of a merge that returns are the conjunctions of the
    given lists, [true] standing for an empty one. *)
Theorem merge_with_given_conditions (merge_counter : nat) self (others : list (SimState.t P))
    (merge_conditions : list (list ast)) common_ancestor plugin_whitelist :
  has_option o.IGNORE_MERGE_CONDITIONS (SimState.options self) = false →
  let out := SimState.merge merge_counter self others (Some merge_conditions)
               common_ancestor plugin_whitelist [] in
  out.1.1 = merge_counter
  ∧ ∀ merged conditions merging_occurred,
      out.2 = Ok (merged, conditions, merging_occurred) →
      conditions
      = (λ mc, if bool_decide (length mc = 0) then ctrue else And mc) <$> merge_conditions.
Proof.
  intros Hopt. cbv zeta. unfold SimState.merge.
  destruct (SimState.merge_body _ _ _ _ _ _ self) as [self' r] eqn:Hbody.
  cbn [fst snd]. split.
  - unfold SimState.merge_counter_after, SimState.merge_branch_conditions. cbn [nonempty].
    unfold bind at 1. unfold SimState.option_on at 1. rewrite Hopt.
    unfold bind. by destruct (SimState.explicit_conditions _ _) as [? [?|?]].
  - intros merged conditions occ Hr.
    destruct r as [[c [[m cs] oc]]|e]; [|done]. injection Hr as -> -> ->.
    unfold SimState.merge_body in Hbody. cbn [nonempty] in Hbody.
    apply bind_Ok_inv in Hbody as ([c0 cs0] & y & Hbranch & H).
    unfold SimState.merge_branch_conditions in Hbranch.
    apply bind_Ok_inv in Hbranch as (ign & y0 & Hign & Hbranch).
    unfold SimState.option_on in Hign. rewrite Hopt in Hign. injection Hign as <- <-.
    apply bind_Ok_inv in Hbranch as (cs1 & y1 & Hexp & [= <- <- <-]).
    apply explicit_conditions_Ok in Hexp as ->.
    destruct (SimState.architectures_differ others); [done|].
    apply bind_Ok_inv in H as (self0 & y2 & [= <- <-] & H).
    destruct (SimState.all_plugin_names _ _); [|done].
    destruct (SimState.copy _); [|done].
    apply bind_Ok_inv in H as (h & y3 & _ & H).
    destruct (SimState.merge_into _ _ _ _ _ _) as [m' [occ'|e]]; [|done].
    by injection H as _ _ _ <- _.
Qed.

End ArgumentFacts.

(** The theorem on missing sources, on a call with bytes and an address but
    no architecture. *)
Lemma lift_rejects_missing_sources_witness :
  let w := Reference.world (Reference.engine None 10) None 4096 in
  ∃ msg,
    SimEngineVEX.lift (C := unit) None (Some (Reference.bytes 8)) None (Some 4096%Z)
      None None 0 false None w = (w, Raise (ValueError msg)).
Proof.
  intros w.
  apply (lift_rejects_missing_sources (C := unit) None (Some (Reference.bytes 8)) None
           (Some 4096%Z) None None 0 false None w); reflexivity.
Defined.

(** The theorem on given merge conditions, on two reference states merged
    under [a] and under no condition. *)
Lemma merge_with_given_conditions_witness :
  let opts := Reference.symbolic_options in
  let out := SimState.merge 7 (Reference.state "AMD64" opts [BoolS "x"])
               [Reference.state "AMD64" opts [BoolS "y"]]
               (Some [[BoolS "a"]; []]) None None [] in
  out.1.1 = 7
  ∧ (∃ merged merging_occurred,
       out.2 = Ok (merged, [And [BoolS "a"]; ctrue], merging_occurred))
  ∧ ∀ merged conditions merging_occurred,
      out.2 = Ok (merged, conditions, merging_occurred) →
      conditions
      = (λ mc, if bool_decide (length mc = 0) then ctrue else And mc)
          <$> [[BoolS "a"]; []].
Proof.
  intros opts out.
  destruct (merge_with_given_conditions 7 (Reference.state "AMD64" opts [BoolS "x"])
              [Reference.state "AMD64" opts [BoolS "y"]] [[BoolS "a"]; []] None None
              eq_refl) as [Hcounter Hconds].
  split_and!; [exact Hcounter| |exact Hconds].
  eexists _, _. subst out.
  match goal with
  | |- ?l = _ => let v := eval vm_compute in l in change l with v
  end. reflexivity.
Defined.

(** The lemma on tracked constraints, on a reference state in the symbolic
    mode. *)
Lemma add_constraints_tracked_witness :
  let s := Reference.state "AMD64" Reference.symbolic_options [BoolS "x"] in
  let se := Reference.make "solver_engine" [BoolS "x"] in
  SimState.add_constraints [BoolS "a"] false s
  = (SimState.set_plugins (insert "solver_engine" (se_add se [BoolS "a"]).1) s, Ok tt).
Proof.
  intros s se.
  apply (add_constraints_tracked [BoolS "a"] s se); reflexivity.
Defined.

Section SanityCheckFacts.
Context {P C Q : Type}.
Context `{!StatePlugin P, !Collaborators P, !ScratchPlugin P, !EngineCollaborators P C Q}.
Implicit Types (w : SimEngineVEX.world P Q).

Lemma opt_level_step_total (l : Z) w :
  ∃ w' ol,
    (if SimEngineVEX._support_selfmodifying_code (SimEngineVEX.engine w) && (0 <? l)%Z
     then (if SimEngineVEX.optimize_ir_set (SimEngineVEX.state w)
           then SimEngineVEX.remove_optimize_ir else ret tt) >> ret 0%Z
     else ret l) w = (w', Ok ol).
Proof.
  destruct (_ && _); [|by eexists _, _].
  unfold bind. destruct (SimEngineVEX.optimize_ir_set (SimEngineVEX.state w)) eqn:Ho.
  - unfold SimEngineVEX.remove_optimize_ir, SimEngineVEX.on_state.
    destruct (SimEngineVEX.state w); [|done]. cbn. by eexists _, _.
  - cbn. by eexists _, _.
Qed.

(** Once the architecture and the address are known, phases 0 to 2 go
    through. *)
Lemma lift_settles (a : Arch) (addr : Z) size num_inst (thumb : bool) opt_level w :
  ∃ w' p,
    ((if String.prefix "MIPS" (name a)
         && SimEngineVEX._single_step (SimEngineVEX.engine w)
      then SimEngineVEX.on_engine (SimEngineVEX.set_single_step false) else ret tt) >>
     let* w := get in
     let size := SimEngineVEX.effective_size size in
     let num_inst :=
       SimEngineVEX.effective_num_inst
         (SimEngineVEX._single_step (SimEngineVEX.engine w)) num_inst in
     let opt_level :=
       SimEngineVEX.default_opt_level opt_level (SimEngineVEX.state w)
         (SimEngineVEX.engine w) in
     let* opt_level :=
       (if SimEngineVEX._support_selfmodifying_code (SimEngineVEX.engine w)
           && (0 <? opt_level)%Z
        then (if SimEngineVEX.optimize_ir_set (SimEngineVEX.state w)
              then SimEngineVEX.remove_optimize_ir else ret tt) >> ret 0%Z
        else ret opt_level) in
     let '(addr, thumb) := SimEngineVEX.normalize_thumb a addr thumb in
     ret (SimEngineVEX.Prepared a addr size num_inst thumb opt_level)) w
    = (w', Ok p).
Proof.
  set (step1 := if String.prefix "MIPS" (name a) && _ then _ else _).
  assert (∃ w1, step1 w = (w1, Ok tt)) as [w1 H1].
  { subst step1. destruct (_ && _); by eexists. }
  rewrite (bind_run _ _ w w1 tt H1).
  rewrite (bind_run _ _ w1 w1 w1) by done. cbv zeta.
  destruct (opt_level_step_total
              (SimEngineVEX.default_opt_level opt_level (SimEngineVEX.state w1)
                 (SimEngineVEX.engine w1)) w1) as (w2 & ol & H2).
  rewrite (bind_run _ _ w1 w2 ol H2).
  destruct (SimEngineVEX.normalize_thumb a addr thumb). by eexists _, _.
Qed.

(** X28. Phases 0 to 2 of [lift] fail in the sanity check or not at all:
    they raise exactly when no state is given and either the address is
    missing or, there being no memory image either, the bytes or the
    architecture are missing; what they raise is a [ValueError], and the
    engine, its cache and its counters are then untouched.  With a state
    they always go through. *)
Theorem lift_fails_only_in_sanity_check (clemory : option C) insn_bytes arch addr size
    num_inst thumb opt_level w :
  let missing :=
    is_none (SimEngineVEX.state w)
    && (is_none clemory && (negb (SimEngineVEX.truthy insn_bytes) || is_none arch)
        || is_none addr) in
  match SimEngineVEX.lift_prepare clemory insn_bytes arch addr size num_inst thumb
          opt_level w with
  | (w', Raise e) => missing = true ∧ w' = w ∧ ∃ msg, e = ValueError msg
  | (w', Ok p) => missing = false
  end.
Proof.
  cbv zeta. unfold SimEngineVEX.lift_prepare.
  rewrite (bind_run _ _ w w w) by done.
  destruct (SimEngineVEX.state w) as [s|] eqn:Hs; cbn [is_none andb].
  - destruct addr as [ad|]; cbn [SimEngineVEX.resolve_addr].
    + assert (∃ a, SimEngineVEX.resolve_arch arch clemory (Some s) = Some a) as [a ->].
      { destruct arch, clemory; by eexists. }
      destruct (lift_settles a ad size num_inst thumb opt_level w) as (w' & p & Hrun).
        cbv zeta in Hrun. cbn [is_none andb]. by rewrite Hrun.
    + assert (∃ a, SimEngineVEX.resolve_arch arch clemory (Some s) = Some a) as [a ->].
      { destruct arch, clemory; by eexists. }
      destruct (lift_settles a (concrete_ip s) size num_inst thumb opt_level w) as (w' & p & Hrun).
        cbv zeta in Hrun. cbn [is_none andb]. by rewrite Hrun.
  - destruct clemory as [c|]; cbn [is_none andb orb].
    + destruct addr as [ad|]; cbn [is_none andb].
      * assert (∃ a, SimEngineVEX.resolve_arch arch (Some c) None = Some a) as [a ->].
        { destruct arch; by eexists. }
        cbn [SimEngineVEX.resolve_addr].
        destruct (lift_settles a ad size num_inst thumb opt_level w) as (w' & p & Hrun).
        cbv zeta in Hrun. cbn [is_none andb]. by rewrite Hrun.
      * split_and!; [done|done|by eexists].
    + destruct (SimEngineVEX.truthy insn_bytes); cbn [negb orb andb].
      2:{ split_and!; [done|done|by eexists]. }
      destruct arch as [a|]; cbn [is_none orb andb].
      2:{ split_and!; [done|done|by eexists]. }
      destruct addr as [ad|]; cbn [is_none andb].
      2:{ split_and!; [done|done|by eexists]. }
      cbn [SimEngineVEX.resolve_arch SimEngineVEX.resolve_addr].
      destruct (lift_settles a ad size num_inst thumb opt_level w) as (w' & p & Hrun).
        cbv zeta in Hrun. cbn [is_none andb]. by rewrite Hrun.
Qed.

End SanityCheckFacts.

(* ===================================================================== *)
(** * Further properties of [_handle_irsb]                                *)
(* ===================================================================== *)

(** The number of instruction marks among statements. *)
Definition count_imarks (stmts : list IRStmt) : nat :=
  length (filter (λ stmt, is_IMark stmt = true) stmts).

Lemma enumerate_snoc {A} (l : list A) x :
  SimEngineVEX.enumerate (l ++ [x]) = SimEngineVEX.enumerate l ++ [(length l, x)].
Proof.
  unfold SimEngineVEX.enumerate. rewrite imap_app. cbn [imap]. by rewrite Nat.add_0_r.
Qed.

Lemma count_imarks_snoc stmts stmt :
  count_imarks (stmts ++ [stmt])
  = count_imarks stmts + (if is_IMark stmt then 1 else 0).
Proof.
  unfold count_imarks. rewrite filter_app, length_app. f_equal.
  destruct (is_IMark stmt) eqn:Hm.
  - by rewrite filter_cons_True.
  - rewrite filter_cons_False; [done|]. by rewrite Hm.
Qed.

Lemma fastpath_skip_from stmts : ∀ counter skip_stmts,
  counter < 4 →
  (counter + count_imarks stmts < 4
   ∧ SimEngineVEX.fastpath_skip (reverse (SimEngineVEX.enumerate stmts)) counter skip_stmts
     = skip_stmts)
  ∨ ∃ i stmt,
      stmts !! i = Some stmt ∧ is_IMark stmt = true
      ∧ counter + count_imarks (drop i stmts) = 4
      ∧ SimEngineVEX.fastpath_skip (reverse (SimEngineVEX.enumerate stmts)) counter
          skip_stmts
        = Nat.max skip_stmts i.
Proof.
  induction stmts as [|stmt stmts IH] using rev_ind; intros counter skip_stmts Hc.
  - left. split; [cbn; lia|done].
  - rewrite enumerate_snoc, reverse_snoc. cbn [SimEngineVEX.fastpath_skip].
    rewrite count_imarks_snoc.
    destruct (is_IMark stmt) eqn:Hm.
    + destruct (4 <=? S counter) eqn:Hfour.
      * apply Nat.leb_le in Hfour. right. exists (length stmts), stmt.
        split_and!; [by rewrite list_lookup_middle|done| |done].
        rewrite drop_app_length. unfold count_imarks.
        rewrite filter_cons_True by done. cbn. lia.
      * apply Nat.leb_gt in Hfour.
        destruct (IH (S counter) skip_stmts Hfour) as [[Hfew ->]|(i & x & Hi & Hx & Hn & ->)].
        -- left. split; [lia|done].
        -- right. exists i, x. split_and!; [by apply lookup_app_l_Some|done| |done].
           rewrite drop_app_le by (apply Nat.lt_le_incl; by eapply lookup_lt_Some).
           rewrite count_imarks_snoc, Hm. lia.
    + assert ((4 <=? counter) = false) as -> by (apply Nat.leb_gt; lia).
      destruct (IH counter skip_stmts Hc) as [[Hfew ->]|(i & x & Hi & Hx & Hn & ->)].
      * left. split; [lia|done].
      * right. exists i, x. split_and!; [by apply lookup_app_l_Some|done| |done].
        rewrite drop_app_le by (apply Nat.lt_le_incl; by eapply lookup_lt_Some).
        rewrite count_imarks_snoc, Hm. lia.
Qed.

(** X16. Under [o.SUPER_FASTPATH] the statement loop starts at the fourth
    instruction mark from the end: for a block with fewer than four
    instruction marks [skip_stmts] is left as given; otherwise it becomes
    the larger of the given [skip_stmts] and the index of an instruction
    mark from which on the block holds exactly four marks.  So at most
    the last four instructions are run, and a larger [skip_stmts] of the
    caller is kept. *)
Theorem fastpath_keeps_last_four_instructions (ss : list IRStmt) (skip_stmts : nat) :
  let skip' :=
    SimEngineVEX.fastpath_skip (reverse (SimEngineVEX.enumerate ss)) 0 skip_stmts in
  if count_imarks ss <? 4 then skip' = skip_stmts
  else ∃ i stmt,
         ss !! i = Some stmt ∧ is_IMark stmt = true
         ∧ count_imarks (drop i ss) = 4
         ∧ skip' = Nat.max skip_stmts i.
Proof.
  cbv zeta.
  destruct (fastpath_skip_from ss 0 skip_stmts) as [[Hfew ->]|(i & stmt & Hi & Hm & Hn & ->)];
    [lia| |].
  - by rewrite (proj2 (Nat.ltb_lt _ _)) by lia.
  - assert (count_imarks (drop i ss) ≤ count_imarks ss) as Hle.
    { rewrite <- (take_drop i ss) at 2. unfold count_imarks.
      rewrite filter_app, length_app. lia. }
    rewrite (proj2 (Nat.ltb_ge _ _)) by lia.
    exists i, stmt. split_and!; [done|done|lia|done].
Qed.

(** A block of five instructions: the fast path starts at the second. *)
Example fastpath_on_five_instructions :
  SimEngineVEX.fastpath_skip
    (reverse (SimEngineVEX.enumerate (Reference.imarks 4096 5))) 0 0 = 1.
Proof. reflexivity. Qed.

Section LoopFacts.
Context {P C Q : Type}.
Context `{!StatePlugin P, !Collaborators P, !ScratchPlugin P, !EngineCollaborators P C Q}.
Implicit Types (w : SimEngineVEX.world P Q).




End LoopFacts.

